(** * Qwen Image 8-step clients: submit, poll, batch and report

    A shallow embedding of the client programs of the repository
    ([examples/quick_start.py], [examples/api_integration.py],
    [examples/batch_generation.py], [benchmarks/test_performance.py])
    and the properties of the orchestration specification checked on them.

    Conventions of the embedding.
    - Wall-clock readings ([time.time()]) and durations are integers counting
      milliseconds; a configuration value given in seconds is multiplied by
      1000 where the source compares it with a clock difference.
    - True division results ([/]) are rationals.
    - The remote service is an oracle: the [n]-th HTTP call of a run receives
      the [n]-th answer of a script, after the latency the script gives.
    - Logging and printing to the console have no effect on the state and are
      left out; a function that only prints is embedded as the value it
      prints. *)

From Stdlib Require Import ZArith QArith String List Lia Bool Permutation Sorted.
From stdpp Require Import base list.
From Stdlib Require DecimalString DecimalZ.
Import ListNotations.

Close Scope Q_scope.
Local Open Scope string_scope.
Local Open Scope list_scope.
Local Open Scope Z_scope.

(** ** Python values *)

Module Py.

(** A decoded JSON document, as [json.load] and [response.json()] build it:
    [None], [bool], [int], [float], [str], [list], and [dict] with string keys
    in insertion order. *)
#[warnings="-register-all"]
Inductive json : Type :=
| JNull
| JBool (b : bool)
| JInt (n : Z)
| JFloat (q : Q)
| JStr (s : string)
| JList (xs : list json)
| JObj (kvs : list (string * json)).

(** The exceptions the modelled code can meet.  [RequestException] stands for
    every transport error of [requests] (connection refused, timeouts);
    [JSONDecodeError] is the one [response.json()] raises, a subclass of
    [RequestException] in [requests]. *)
Inductive exn : Type :=
| KeyError (key : json)
| TypeError
| AttributeError
| IndexError
| ValueError
| ZeroDivisionError
| StatisticsError
| RequestException (msg : string)
| JSONDecodeError.

Definition is_RequestException (e : exn) : bool :=
  match e with
  | RequestException _ | JSONDecodeError => true
  | _ => false
  end.

(** A call either returns a value or raises. *)
Inductive res (A : Type) : Type :=
| Ok (a : A)
| Raise (e : exn).
Arguments Ok {A} a.
Arguments Raise {A} e.

Definition rbind {A B} (r : res A) (k : A -> res B) : res B :=
  match r with
  | Ok a => k a
  | Raise e => Raise e
  end.

(** [d.get(k)] on the items of a dict. *)
Fixpoint assoc {A} (k : string) (kvs : list (string * A)) : option A :=
  match kvs with
  | [] => None
  | (k', v) :: rest => if String.eqb k k' then Some v else assoc k rest
  end.

(** [d[k] = v] on the items of a dict: an existing key keeps its place, a new
    key goes last. *)
Fixpoint assoc_set {A} (k : string) (v : A) (kvs : list (string * A))
  : list (string * A) :=
  match kvs with
  | [] => [(k, v)]
  | (k', v') :: rest =>
      if String.eqb k k' then (k, v) :: rest else (k', v') :: assoc_set k v rest
  end.

(** [d.update(items)]. *)
Definition assoc_update {A} (items kvs : list (string * A)) : list (string * A) :=
  fold_left (fun acc kv => assoc_set (fst kv) (snd kv) acc) items kvs.

(** Truth value of an object ([if x:], [not x]). *)
Definition truthy (v : json) : bool :=
  match v with
  | JNull => false
  | JBool b => b
  | JInt n => negb (n =? 0)
  | JFloat q => negb (Qeq_bool q (inject_Z 0))
  | JStr s => negb (String.eqb s EmptyString)
  | JList xs => match xs with [] => false | _ => true end
  | JObj kvs => match kvs with [] => false | _ => true end
  end.

(** The number a [bool], [int] or [float] stands for in a comparison. *)
Definition number (v : json) : option Q :=
  match v with
  | JBool b => Some (inject_Z (if b then 1 else 0))
  | JInt n => Some (inject_Z n)
  | JFloat q => Some q
  | _ => None
  end.

(** [a == b]: numbers by value, strings and [None] by identity of content,
    lists element by element, dicts key by key whatever the order. *)
Fixpoint py_eq (a b : json) : bool :=
  match a, b with
  | JNull, JNull => true
  | JStr s, JStr t => String.eqb s t
  | JList xs, JList ys =>
      (fix all2 (xs ys : list json) : bool :=
         match xs, ys with
         | [], [] => true
         | x :: xs', y :: ys' => py_eq x y && all2 xs' ys'
         | _, _ => false
         end) xs ys
  | JObj kvs, JObj kvs' =>
      (length kvs =? length kvs')%nat
      && (fix all (kvs : list (string * json)) : bool :=
            match kvs with
            | [] => true
            | (k, v) :: rest =>
                match assoc k kvs' with
                | Some v' => py_eq v v' && all rest
                | None => false
                end
            end) kvs
  | (JBool _ | JInt _ | JFloat _), (JBool _ | JInt _ | JFloat _) =>
      match number a, number b with
      | Some x, Some y => Qeq_bool x y
      | _, _ => false
      end
  | _, _ => false
  end.

(** Lists and dicts cannot be keys of a dict. *)
Definition hashable (v : json) : bool :=
  match v with
  | JList _ | JObj _ => false
  | _ => true
  end.

(** The position an index denotes in a sequence of [n] elements: negative
    indices count from the end. *)
Definition position (i : Z) (n : nat) : option nat :=
  if (0 <=? i) && (i <? Z.of_nat n) then Some (Z.to_nat i)
  else if (- Z.of_nat n <=? i) && (i <? 0) then Some (Z.to_nat (Z.of_nat n + i))
  else None.

Fixpoint chars (s : string) : list json :=
  match s with
  | EmptyString => []
  | String c s' => JStr (String c EmptyString) :: chars s'
  end.

Definition index_of (key : json) : option Z :=
  match key with
  | JInt i => Some i
  | JBool b => Some (if b then 1 else 0)
  | _ => None
  end.

Definition nth_item (xs : list json) (key : json) : res json :=
  match index_of key with
  | Some i =>
      match position i (length xs) with
      | Some n => match nth_error xs n with Some x => Ok x | None => Raise IndexError end
      | None => Raise IndexError
      end
  | None => Raise TypeError
  end.

(** [v[key]]. *)
Definition getitem (v key : json) : res json :=
  match v with
  | JObj kvs =>
      if hashable key then
        match key with
        | JStr k => match assoc k kvs with Some x => Ok x | None => Raise (KeyError key) end
        | _ => Raise (KeyError key)
        end
      else Raise TypeError
  | JList xs => nth_item xs key
  | JStr s => nth_item (chars s) key
  | _ => Raise TypeError
  end.

(** [s in t] on strings. *)
Fixpoint is_substring (s t : string) : bool :=
  String.prefix s t
  || match t with
     | EmptyString => false
     | String _ t' => is_substring s t'
     end.

(** [x in v]: key of a dict, element of a list, substring of a string; other
    objects are not containers. *)
Definition contains (x v : json) : res bool :=
  match v with
  | JObj kvs =>
      if hashable x then
        Ok (match x with
            | JStr k => match assoc k kvs with Some _ => true | None => false end
            | _ => false
            end)
      else Raise TypeError
  | JList xs => Ok (existsb (py_eq x) xs)
  | JStr s => match x with JStr k => Ok (is_substring k s) | _ => Raise TypeError end
  | _ => Raise TypeError
  end.

(** [v.get(k, {})]: a method of dicts only. *)
Definition get_or_empty (v : json) (k : string) : res json :=
  match v with
  | JObj kvs => Ok (match assoc k kvs with Some x => x | None => JObj [] end)
  | _ => Raise AttributeError
  end.

(** [v.items()]: a method of dicts only. *)
Definition items (v : json) : res (list (string * json)) :=
  match v with
  | JObj kvs => Ok kvs
  | _ => Raise AttributeError
  end.

(** The elements [list.extend(v)] appends: those of a list, the characters of
    a string, the keys of a dict. *)
Definition iterate (v : json) : res (list json) :=
  match v with
  | JList xs => Ok xs
  | JStr s => Ok (chars s)
  | JObj kvs => Ok (map (fun kv => JStr (fst kv)) kvs)
  | _ => Raise TypeError
  end.

(** [v[k1]...[kn][k] = x] on a document no one else holds: the dict reached
    through the keys gets the item. *)
Fixpoint set_path (v : json) (ks : list string) (k : string) (x : json) : res json :=
  match ks with
  | [] =>
      match v with
      | JObj kvs => Ok (JObj (assoc_set k x kvs))
      | _ => Raise TypeError
      end
  | k1 :: ks' =>
      rbind (getitem v (JStr k1)) (fun child =>
      rbind (set_path child ks' k x) (fun child' =>
      match v with
      | JObj kvs => Ok (JObj (assoc_set k1 child' kvs))
      | _ => Raise TypeError
      end))
  end.

End Py.

(** ** Python strings

    The methods of [str] that [load_prompts] calls.  A [string] holds the
    characters of a Python [str] one by one, as their code points; the code
    points are those below 256. *)

Module Text.
Import Py Ascii.

(** [c.isspace()]: the code points 9 to 13, 28 to 32, 133 and 160. *)
Definition isspace (c : Ascii.ascii) : bool :=
  let n := Ascii.nat_of_ascii c in
  ((9 <=? n) && (n <=? 13) || (28 <=? n) && (n <=? 32) || (n =? 133) || (n =? 160))%nat.

Fixpoint lstrip (s : string) : string :=
  match s with
  | EmptyString => EmptyString
  | String c rest => if isspace c then lstrip rest else s
  end.

Fixpoint rstrip (s : string) : string :=
  match s with
  | EmptyString => EmptyString
  | String c rest =>
      match rstrip rest with
      | EmptyString => if isspace c then EmptyString else String c EmptyString
      | kept => String c kept
      end
  end.

(** [s.strip()]. *)
Definition strip (s : string) : string := rstrip (lstrip s).

(** [s.startswith(prefix)]. *)
Definition startswith (prefix s : string) : bool := String.prefix prefix s.

(** [s.split(sep)] for a separator of one character. *)
Fixpoint split (sep : Ascii.ascii) (s : string) : list string :=
  match s with
  | EmptyString => [EmptyString]
  | String c rest =>
      if Ascii.eqb c sep then EmptyString :: split sep rest
      else match split sep rest with
           | part :: parts => String c part :: parts
           | [] => [String c EmptyString]
           end
  end.

(** The value of a decimal digit. *)
Definition digit (c : Ascii.ascii) : option Z :=
  let n := Ascii.nat_of_ascii c in
  if ((48 <=? n) && (n <=? 57))%nat then Some (Z.of_nat n - 48) else None.

(** The digits after the first: single underscores may stand between two
    digits.  [value] is the number read so far, [count] how many digits it
    has. *)
Fixpoint scan (s : string) (value : Z) (count : nat) (after_underscore : bool)
  : option (Z * nat) :=
  match s with
  | EmptyString => if after_underscore then None else Some (value, count)
  | String c rest =>
      if Ascii.eqb c "_"%char then
        if after_underscore then None else scan rest value count true
      else
        match digit c with
        | Some d => scan rest (10 * value + d) (S count) false
        | None => None
        end
  end.

Definition unsigned (s : string) : option (Z * nat) :=
  match s with
  | EmptyString => None
  | String c rest =>
      match digit c with
      | Some d => scan rest d 1 false
      | None => None
      end
  end.

(** [int(s)] for a string without whitespace at its ends: an optional sign
    and decimal digits.  [max_str_digits] is the limit on the number of
    digits ([sys.get_int_max_str_digits()]: 4300 by default where there is
    one, 0 for no limit). *)
Definition int (max_str_digits : nat) (s : string) : res Z :=
  let '(negative, body) :=
    match s with
    | String "-"%char rest => (true, rest)
    | String "+"%char rest => (false, rest)
    | _ => (false, s)
    end in
  match unsigned body with
  | Some (value, count) =>
      if ((0 <? max_str_digits) && (max_str_digits <? count))%nat then Raise ValueError
      else Ok (if negative then - value else value)
  | None => Raise ValueError
  end.

End Text.

(** ** The object store

    [prepare_workflow] receives a dict that its caller still holds, so the
    objects it works on are modelled with their identity: a store of mutable
    dicts and lists, addressed in allocation order, and values that refer to
    them. *)

Module Store.
Import Py.

Definition loc := nat.

Inductive pyval : Type :=
| VNone
| VBool (b : bool)
| VInt (n : Z)
| VFloat (q : Q)
| VStr (s : string)
| VRef (l : loc).

Inductive pyobj : Type :=
| ODict (kvs : list (string * pyval))
| OList (xs : list pyval).

(** The [l]-th allocated object is at index [l]; allocation appends. *)
Definition heap := list pyobj.

Definition alloc (h : heap) (o : pyobj) : heap * pyval :=
  (h ++ [o], VRef (length h)).

(** The results of [f] on the elements of a list, up to the first that
    raises. *)
Definition traverse {A B} (f : A -> res B) : list A -> res (list B) :=
  fix go (xs : list A) : res (list B) :=
    match xs with
    | [] => Ok []
    | x :: rest => rbind (f x) (fun y => rbind (go rest) (fun ys => Ok (y :: ys)))
    end.

(** [json.dumps(v)], as the document it writes.  The encoder follows
    references; [fuel] bounds the nesting depth, and running out of it is the
    encoder's [ValueError] for a circular reference. *)
Fixpoint dumps (fuel : nat) (h : heap) (v : pyval) : res json :=
  match v with
  | VNone => Ok JNull
  | VBool b => Ok (JBool b)
  | VInt n => Ok (JInt n)
  | VFloat q => Ok (JFloat q)
  | VStr s => Ok (JStr s)
  | VRef l =>
      match fuel with
      | O => Raise ValueError
      | S fuel' =>
          match h !! l with
          | None => Raise ValueError
          | Some (ODict kvs) =>
              rbind
                (traverse (fun kv => rbind (dumps fuel' h (snd kv))
                                       (fun j => Ok (fst kv, j))) kvs)
                (fun js => Ok (JObj js))
          | Some (OList xs) =>
              rbind (traverse (dumps fuel' h) xs) (fun js => Ok (JList js))
          end
      end
  end.

(** A chain of references longer than the store has objects repeats one. *)
Definition json_dumps (h : heap) (v : pyval) : res json :=
  dumps (S (length h)) h v.

(** The values [f] builds for the elements of a list, one after the other in
    the growing store. *)
Definition thread {A B} (f : A -> heap -> heap * B) : list A -> heap -> heap * list B :=
  fix go (xs : list A) (h : heap) : heap * list B :=
    match xs with
    | [] => (h, [])
    | x :: rest =>
        let '(h1, v) := f x h in
        let '(h2, vs) := go rest h1 in
        (h2, v :: vs)
    end.

(** [json.loads(text)]: every list and dict of the document is a new object. *)
Fixpoint loads (j : json) (h : heap) : heap * pyval :=
  match j with
  | JNull => (h, VNone)
  | JBool b => (h, VBool b)
  | JInt n => (h, VInt n)
  | JFloat q => (h, VFloat q)
  | JStr s => (h, VStr s)
  | JList xs =>
      let '(h', vs) := thread loads xs h in
      alloc h' (OList vs)
  | JObj kvs =>
      let '(h', fs) :=
        thread (fun kv h => match kv with
                            | (k, x) => let '(h1, v) := loads x h in (h1, (k, v))
                            end) kvs h in
      alloc h' (ODict fs)
  end.

(** [v[k]] for a value of the store. *)
Definition getitem (h : heap) (v : pyval) (k : string) : res pyval :=
  match v with
  | VRef l =>
      match h !! l with
      | Some (ODict kvs) =>
          match assoc k kvs with Some x => Ok x | None => Raise (KeyError (JStr k)) end
      | _ => Raise TypeError
      end
  | _ => Raise TypeError
  end.

(** [v[k1][k2]...]. *)
Fixpoint getpath (h : heap) (v : pyval) (ks : list string) : res pyval :=
  match ks with
  | [] => Ok v
  | k :: ks' => rbind (getitem h v k) (fun v' => getpath h v' ks')
  end.

(** [v[k] = x]: the dict [v] refers to is changed in place. *)
Definition setitem (h : heap) (v : pyval) (k : string) (x : pyval) : res heap :=
  match v with
  | VRef l =>
      match h !! l with
      | Some (ODict kvs) => Ok (<[l := ODict (assoc_set k x kvs)]> h)
      | _ => Raise TypeError
      end
  | _ => Raise TypeError
  end.

(** [v.update({k1: x1, ...})]: in place as well; only dicts have the method. *)
Definition update (h : heap) (v : pyval) (items : list (string * pyval)) : res heap :=
  match v with
  | VRef l =>
      match h !! l with
      | Some (ODict kvs) => Ok (<[l := ODict (assoc_update items kvs)]> h)
      | _ => Raise AttributeError
      end
  | _ => Raise AttributeError
  end.

(** One step from an object to a part of it: the value under a key of a dict
    or at a position of a list. *)
Inductive step : Type :=
| Key (k : string)
| Idx (i : nat).

Definition part (h : heap) (v : pyval) (s : step) : option pyval :=
  match v with
  | VRef l =>
      match h !! l, s with
      | Some (ODict kvs), Key k => assoc k kvs
      | Some (OList xs), Idx i => xs !! i
      | _, _ => None
      end
  | _ => None
  end.

Fixpoint reach (h : heap) (v : pyval) (p : list step) : option pyval :=
  match p with
  | [] => Some v
  | s :: p' => match part h v s with Some v' => reach h v' p' | None => None end
  end.

End Store.

(** ** The remote service and the clock *)

Module Net.
Import Py.

Record response : Type := { status_code : Z; body : option json }.

(** [response.json()]. *)
Definition response_json (r : response) : res json :=
  match body r with
  | Some j => Ok j
  | None => Raise JSONDecodeError
  end.

(** What one HTTP call meets: the time it takes, and either a transport error
    (its message) or the response. *)
Record answer : Type := { latency : N; reply : string + response }.

Definition script := nat -> answer.

Inductive event : Type :=
| Post (t : Z) (payload : json)
| Get (t : Z) (prompt_id : json)
| Sleep (t d : Z).

(** The clock, the number of HTTP calls made so far, and what was done. *)
Record world : Type := { now : Z; calls : nat; trace : list event }.

(** How a call ends: it returns, it raises, or the embedding's fuel ran out
    before it did either. *)
Inductive outcome (A : Type) : Type :=
| Return (a : A)
| Raised (e : exn)
| Diverge.
Arguments Return {A} a.
Arguments Raised {A} e.
Arguments Diverge {A}.

Definition M (A : Type) := world -> outcome A * world.

Definition ret {A} (a : A) : M A := fun w => (Return a, w).

Definition bind {A B} (m : M A) (k : A -> M B) : M B :=
  fun w =>
    match m w with
    | (Return a, w') => k a w'
    | (Raised e, w') => (Raised e, w')
    | (Diverge, w') => (Diverge, w')
    end.

Definition raise {A} (e : exn) : M A := fun w => (Raised e, w).

Definition diverge {A} : M A := fun w => (Diverge, w).

Definition lift {A} (r : res A) : M A :=
  match r with
  | Ok a => ret a
  | Raise e => raise e
  end.

(** [try: m  except <those e with handler e = Some k>: k]. *)
Definition catch {A} (m : M A) (handler : exn -> option (M A)) : M A :=
  fun w =>
    match m w with
    | (Raised e, w') =>
        match handler e with
        | Some k => k w'
        | None => (Raised e, w')
        end
    | r => r
    end.

(** [time.time()], in milliseconds. *)
Definition time_time : M Z := fun w => (Return (now w), w).

(** [time.sleep(d)], [d] in milliseconds. *)
Definition sleep (d : Z) : M unit :=
  fun w =>
    if d <? 0 then (Raised ValueError, w)
    else (Return tt,
          {| now := now w + d; calls := calls w; trace := trace w ++ [Sleep (now w) d] |}).

Definition http (net : script) (ev : Z -> event) : M response :=
  fun w =>
    let a := net (calls w) in
    let w' := {| now := now w + Z.of_N (latency a);
                 calls := S (calls w);
                 trace := trace w ++ [ev (now w)] |} in
    match reply a with
    | inl msg => (Raised (RequestException msg), w')
    | inr r => (Return r, w')
    end.

(** [session.post(base_url + "/prompt", json=payload, timeout=10)]: the
    payload is encoded first, and one that cannot be encoded is a
    [RequestException] raised before anything is sent. *)
Definition post (net : script) (payload : res json) : M response :=
  match payload with
  | Ok document => http net (fun t => Post t document)
  | Raise _ => raise (RequestException "InvalidJSONError")
  end.

(** [session.get(base_url + "/history/" + prompt_id, timeout=5)]. *)
Definition get (net : script) (prompt_id : json) : M response :=
  http net (fun t => Get t prompt_id).

Definition is_post (e : event) : bool :=
  match e with Post _ _ => true | _ => false end.

Definition is_get (e : event) : bool :=
  match e with Get _ _ => true | _ => false end.

(** Submission attempts and polls of a run. *)
Definition posts (tr : list event) : nat := length (List.filter is_post tr).
Definition gets (tr : list event) : nat := length (List.filter is_get tr).
Arguments posts : simpl never.
Arguments gets : simpl never.

(** What a loop body tells its loop. *)
Inductive ctl (A : Type) : Type :=
| Continue
| Break
| Returns (a : A).
Arguments Continue {A}.
Arguments Break {A}.
Arguments Returns {A} a.

End Net.

Declare Scope net_scope.
Delimit Scope net_scope with net.
Notation "'let*' x ':=' m 'in' k" := (Net.bind m (fun x => k))
  (at level 10, x name, m at level 100, k at level 200) : net_scope.

(** ** The [statistics] functions and builtins the summaries call *)

Module Statistics.
Import Py.

(** [a / b]. *)
Definition truediv (a b : Q) : res Q :=
  if Qeq_bool b (inject_Z 0) then Raise ZeroDivisionError else Ok (Qdiv a b).

Definition total (xs : list Q) : Q := fold_right Qplus (inject_Z 0) xs.

Fixpoint insert_sorted (x : Q) (xs : list Q) : list Q :=
  match xs with
  | [] => [x]
  | y :: rest => if Qle_bool x y then x :: xs else y :: insert_sorted x rest
  end.

(** [sorted(xs)]. *)
Definition sorted (xs : list Q) : list Q := fold_right insert_sorted [] xs.

(** [statistics.mean]. *)
Definition mean (xs : list Q) : res Q :=
  match xs with
  | [] => Raise StatisticsError
  | _ => Ok (Qdiv (total xs) (inject_Z (Z.of_nat (length xs))))
  end.

(** [statistics.median]: the middle value, or the mean of the two middle
    ones. *)
Definition median (xs : list Q) : res Q :=
  let s := sorted xs in
  let n := length s in
  match n with
  | O => Raise StatisticsError
  | _ =>
      if Nat.even n
      then Ok (Qdiv (Qplus (nth (n / 2 - 1) s (inject_Z 0)) (nth (n / 2) s (inject_Z 0)))
                    (inject_Z 2))
      else Ok (nth (n / 2) s (inject_Z 0))
  end.

(** [min(xs)] and [max(xs)]. *)
Definition minimum (xs : list Q) : res Q :=
  match xs with
  | [] => Raise ValueError
  | x :: rest => Ok (fold_left (fun m y => if Qle_bool m y then m else y) rest x)
  end.

Definition maximum (xs : list Q) : res Q :=
  match xs with
  | [] => Raise ValueError
  | x :: rest => Ok (fold_left (fun m y => if Qle_bool y m then m else y) rest x)
  end.

End Statistics.

(** ** examples/api_integration.py *)

Module QwenImageAPI.
Import Py Net.

Record GenerationRequest : Type := {
  prompt : string;
  seed : option Z;
  width : Z;
  height : Z;
  steps : Z;
  cfg_scale : Q;
  batch_size : Z
}.

(** [generation_time] is in milliseconds. *)
Record GenerationResult : Type := {
  success : bool;
  prompt_id : option json;
  generation_time : option Z;
  images : option (list json);
  error : option string
}.

(** The client's settings: [timeout] in seconds, [retry_delay] in
    milliseconds. *)
Record QwenImageAPI : Type := {
  timeout : Z;
  max_retries : Z;
  retry_delay : Z
}.

(** [QwenImageAPI()] with the defaults of [__init__]. *)
Definition default_api : QwenImageAPI :=
  {| timeout := 60; max_retries := 3; retry_delay := 1000 |}.

(** [load_workflow]: [file] is the document in the workflow file, [None] when
    the file is missing or is not JSON.  Whatever goes wrong, also in the
    check of the structure, ends in [None]. *)
Definition load_workflow (file : option json) : option json :=
  match file with
  | None => None
  | Some workflow =>
      let invalid :=
        rbind (contains (JStr "input") workflow) (fun has_input =>
        if negb has_input then Ok true
        else
          rbind (getitem workflow (JStr "input")) (fun input =>
          rbind (contains (JStr "workflow") input) (fun has_workflow =>
          Ok (negb has_workflow)))) in
      match invalid with
      | Ok false => Some workflow
      | _ => None
      end
  end.

Definition node_inputs (node : string) : list string :=
  ["input"; "workflow"; node; "inputs"].

(** [request.seed if request.seed else int(time.time() * 1000) % 2**32]. *)
Definition seed_of (request : GenerationRequest) (now : Z) : Z :=
  match seed request with
  | Some s => if s =? 0 then now mod 2 ^ 32 else s
  | None => now mod 2 ^ 32
  end.

(** [prepare_workflow], run in store [h] at clock reading [now]: the store it
    leaves and the value it returns or the exception it raises. *)
Definition prepare_workflow (h : Store.heap) (base_workflow : Store.pyval)
    (request : GenerationRequest) (now : Z) : Store.heap * res Store.pyval :=
  match Store.json_dumps h base_workflow with
  | Raise e => (h, Raise e)
  | Ok text =>
      let '(h1, workflow) := Store.loads text h in
      match rbind (Store.getpath h1 workflow (node_inputs "6")) (fun inputs =>
              Store.setitem h1 inputs "text" (Store.VStr (prompt request))) with
      | Raise e => (h1, Raise e)
      | Ok h2 =>
          match rbind (Store.getpath h2 workflow (node_inputs "3")) (fun inputs =>
                  Store.update h2 inputs
                    [("seed", Store.VInt (seed_of request now));
                     ("steps", Store.VInt (steps request));
                     ("cfg", Store.VFloat (cfg_scale request))]) with
          | Raise e => (h2, Raise e)
          | Ok h3 =>
              match rbind (Store.getpath h3 workflow (node_inputs "58")) (fun inputs =>
                      Store.update h3 inputs
                        [("width", Store.VInt (width request));
                         ("height", Store.VInt (height request));
                         ("batch_size", Store.VInt (batch_size request))]) with
              | Raise e => (h3, Raise e)
              | Ok h4 => (h4, Ok workflow)
              end
          end
      end
  end.

(** The delay before the next attempt: [retry_delay * (attempt + 1)]. *)
Definition backoff_delay (api : QwenImageAPI) (attempt : Z) : Z :=
  retry_delay api * (attempt + 1).

(** [range(n)]. *)
Definition range (n : Z) : list Z := map Z.of_nat (seq 0 (Z.to_nat n)).

Section Client.
Variable api : QwenImageAPI.
Variable net : script.

Local Open Scope net_scope.

(** One turn of the loop of [submit_generation]: [Returns] is its
    [return], [Continue] the next attempt. *)
Definition submit_attempt (workflow : res json) (attempt : Z) : M (ctl json) :=
  catch
    (let* response := post net workflow in
     if status_code response =? 200 then
       let* document := lift (response_json response) in
       let* id := lift (getitem document (JStr "prompt_id")) in
       ret (Returns id)
     else if status_code response =? 429 then
       let* _ := sleep (backoff_delay api attempt) in
       ret Continue
     else ret Continue)
    (fun e =>
       if is_RequestException e then
         Some (if attempt <? max_retries api - 1
               then let* _ := sleep (backoff_delay api attempt) in ret Continue
               else ret Continue)
       else None).

Fixpoint submit_attempts (workflow : res json) (attempts : list Z) : M json :=
  match attempts with
  | [] => ret JNull
  | attempt :: rest =>
      let* c := submit_attempt workflow attempt in
      match c with
      | Returns id => ret id
      | _ => submit_attempts workflow rest
      end
  end.

(** [submit_generation]: the handle, or [None] when no attempt got one.
    [workflow] is the encoding of the dict passed in. *)
Definition submit_generation (workflow : res json) : M json :=
  submit_attempts workflow (range (max_retries api)).

(** The images of all output nodes, in order. *)
Fixpoint collect_images (outputs : list (string * json)) (images : list json)
  : res (list json) :=
  match outputs with
  | [] => Ok images
  | (_, node_output) :: rest =>
      rbind (contains (JStr "images") node_output) (fun has_images =>
      if has_images then
        rbind (getitem node_output (JStr "images")) (fun found =>
        rbind (iterate found) (fun more =>
        collect_images rest (images ++ more)))
      else collect_images rest images)
  end.

(** What a history document says about [prompt_id]: nothing yet, or its
    images. *)
Definition read_history (prompt_id history : json) : res (option (list json)) :=
  rbind (contains prompt_id history) (fun present =>
  if present then
    rbind (getitem history prompt_id) (fun generation_data =>
    rbind (get_or_empty generation_data "outputs") (fun outputs =>
    rbind (items outputs) (fun nodes =>
    rbind (collect_images nodes []) (fun images =>
    Ok (Some images)))))
  else Ok None).

Definition timed_out (prompt_id : json) : GenerationResult :=
  {| success := false;
     prompt_id := Some prompt_id;
     generation_time := Some (timeout api * 1000);
     images := None;
     error := Some "timeout" |}.

(** One turn of the polling loop of [wait_for_completion]. *)
Definition poll_once (prompt_id : json) (start_time : Z) : M (ctl GenerationResult) :=
  catch
    (let* response := get net prompt_id in
     let* found :=
       (if status_code response =? 200 then
          let* history := lift (response_json response) in
          lift (read_history prompt_id history)
        else ret None) in
     match found with
     | Some images =>
         let* t := time_time in
         ret (Returns {| success := true;
                         prompt_id := Some prompt_id;
                         generation_time := Some (t - start_time);
                         images := Some images;
                         error := None |})
     | None =>
         let* _ := sleep 1000 in
         ret Continue
     end)
    (fun e => if is_RequestException e then Some (ret Break) else None).

Fixpoint poll (fuel : nat) (prompt_id : json) (start_time : Z) : M GenerationResult :=
  match fuel with
  | O => diverge
  | S fuel' =>
      let* t := time_time in
      if t - start_time <? timeout api * 1000 then
        let* c := poll_once prompt_id start_time in
        match c with
        | Returns r => ret r
        | Break => ret (timed_out prompt_id)
        | Continue => poll fuel' prompt_id start_time
        end
      else ret (timed_out prompt_id)
  end.

(** Turns the polling loop can take: each one that goes on sleeps a second. *)
Definition poll_fuel : nat := S (Z.to_nat (timeout api)).

Definition wait_for_completion (prompt_id : json) : M GenerationResult :=
  let* start_time := time_time in
  poll poll_fuel prompt_id start_time.

Definition failure (message : string) : GenerationResult :=
  {| success := false;
     prompt_id := None;
     generation_time := None;
     images := None;
     error := Some message |}.

(** [generate_image]; [file] is what the workflow file holds. *)
Definition generate_image (file : option json) (request : GenerationRequest)
  : M GenerationResult :=
  match load_workflow file with
  | None => ret (failure "Failed to load workflow")
  | Some document =>
      if negb (truthy document) then ret (failure "Failed to load workflow")
      else
        let '(h0, workflow) := Store.loads document [] in
        let* t := time_time in
        let '(h1, prepared) := prepare_workflow h0 workflow request t in
        let* prepared_workflow := lift prepared in
        let* prompt_id := submit_generation (Store.json_dumps h1 prepared_workflow) in
        if negb (truthy prompt_id) then
          ret (failure "Failed to submit generation request")
        else wait_for_completion prompt_id
  end.

(** [batch_generate]: the requests one after the other, half a second
    apart. *)
Fixpoint batch_generate (file : option json) (requests : list GenerationRequest)
  : M (list GenerationResult) :=
  match requests with
  | [] => ret []
  | request :: rest =>
      let* result := generate_image file request in
      let* _ := sleep 500 in
      let* results := batch_generate file rest in
      ret (result :: results)
  end.

End Client.

(** The batch summary [main] prints: the successes, the total, the total time
    of the successes, and the average time per image, [None] where it prints
    N/A. *)
Record BatchSummary : Type := {
  successful : nat;
  requested : nat;
  total_time : Z;
  average_time : option Q
}.

(** [sum(r.generation_time for r in batch_results if r.success)]. *)
Fixpoint sum_times (results : list GenerationResult) : res Z :=
  match results with
  | [] => Ok 0
  | r :: rest =>
      if success r then
        match generation_time r with
        | Some t => rbind (sum_times rest) (fun s => Ok (t + s))
        | None => Raise TypeError
        end
      else sum_times rest
  end.

Definition batch_summary (batch_results : list GenerationResult) : res BatchSummary :=
  let successful := length (List.filter success batch_results) in
  rbind (sum_times batch_results) (fun total_time =>
  rbind (if (0 <? successful)%nat
         then rbind (Statistics.truediv (inject_Z total_time) (inject_Z (Z.of_nat successful)))
                (fun a => Ok (Some a))
         else Ok None) (fun average =>
  Ok {| successful := successful;
        requested := length batch_results;
        total_time := total_time;
        average_time := average |})).

End QwenImageAPI.

(** ** examples/quick_start.py *)

Module QwenImageGenerator.
Import Py Net.

(** The dict [wait_for_completion] returns; [generation_time] is in
    milliseconds. *)
Record Result : Type := {
  prompt_id : json;
  images : option json;
  generation_time : Z;
  success : bool;
  error : option string
}.

(** The first output node with images. *)
Fixpoint first_images (outputs : list (string * json)) : res (option json) :=
  match outputs with
  | [] => Ok None
  | (_, node_output) :: rest =>
      rbind (contains (JStr "images") node_output) (fun has_images =>
      if has_images then
        rbind (getitem node_output (JStr "images")) (fun images =>
        if truthy images then Ok (Some images) else first_images rest)
      else first_images rest)
  end.

Definition read_history (prompt_id history : json) : res (option json) :=
  rbind (contains prompt_id history) (fun present =>
  if present then
    rbind (getitem history prompt_id) (fun generation_data =>
    rbind (get_or_empty generation_data "outputs") (fun outputs =>
    rbind (items outputs) first_images))
  else Ok None).

Section Client.
(** [self.timeout], in seconds. *)
Variable timeout : Z.
Variable net : script.

Local Open Scope net_scope.

Definition timed_out (prompt_id : json) : Result :=
  {| prompt_id := prompt_id;
     images := None;
     generation_time := timeout * 1000;
     success := false;
     error := Some "timeout" |}.

Definition poll_once (prompt_id : json) (start_time : Z) : M (ctl Result) :=
  catch
    (let* response := get net prompt_id in
     let* found :=
       (if status_code response =? 200 then
          let* history := lift (response_json response) in
          lift (read_history prompt_id history)
        else ret None) in
     match found with
     | Some images =>
         let* t := time_time in
         ret (Returns {| prompt_id := prompt_id;
                         images := Some images;
                         generation_time := t - start_time;
                         success := true;
                         error := None |})
     | None =>
         let* _ := sleep 1000 in
         ret Continue
     end)
    (fun e => if is_RequestException e then Some (ret Break) else None).

Fixpoint poll (fuel : nat) (prompt_id : json) (start_time : Z) : M Result :=
  match fuel with
  | O => diverge
  | S fuel' =>
      let* t := time_time in
      if t - start_time <? timeout * 1000 then
        let* c := poll_once prompt_id start_time in
        match c with
        | Returns r => ret r
        | Break => ret (timed_out prompt_id)
        | Continue => poll fuel' prompt_id start_time
        end
      else ret (timed_out prompt_id)
  end.

Definition poll_fuel : nat := S (Z.to_nat timeout).

Definition wait_for_completion (prompt_id : json) : M Result :=
  let* start_time := time_time in
  poll poll_fuel prompt_id start_time.

End Client.


(** [load_workflow]: the document in the workflow file, [None] when the file
    is missing or is not JSON. *)
Definition load_workflow (file : option json) : option json := file.

Definition node_inputs (node : string) : list string :=
  ["input"; "workflow"; node; "inputs"].

Section Generate.
Variable timeout : Z.
Variable net : script.

Local Open Scope net_scope.

(** [generate_image]: the result of the wait, or [None] when the workflow
    did not load or the submission failed.  The workflow is changed before
    the [try], so what goes wrong there is not handled. *)
Definition generate_image (file : option json) (prompt : string) (seed : option Z)
  : M (option Result) :=
  match load_workflow file with
  | None => ret None
  | Some workflow =>
      if negb (truthy workflow) then ret None
      else
        let* workflow1 :=
          lift (set_path workflow (node_inputs "6") "text" (JStr prompt)) in
        let* workflow2 :=
          match seed with
          | Some s =>
              if s =? 0 then ret workflow1
              else lift (set_path workflow1 (node_inputs "3") "seed" (JInt s))
          | None => ret workflow1
          end in
        catch
          (let* response := post net (Ok workflow2) in
           if status_code response =? 200 then
             let* document := lift (response_json response) in
             let* id := lift (getitem document (JStr "prompt_id")) in
             let* result := wait_for_completion timeout net id in
             ret (Some result)
           else ret None)
          (fun e => if is_RequestException e then Some (ret None) else None)
  end.

End Generate.

(** One entry of the list [get_image_info] builds. *)
Record ImageInfo : Type := {
  filename : json;
  path : option json;
  size : json;
  subfolder : json;
  type : json
}.

(** What [get_image_info] returns. *)
Record Info : Type := {
  info_prompt_id : json;
  info_generation_time : Z;
  info_images : list ImageInfo
}.

(** [d.get(k, default)]: a method of dicts only. *)
Definition get_default (v : json) (k : string) (default : json) : res json :=
  match v with
  | JObj kvs => Ok (match assoc k kvs with Some x => x | None => default end)
  | _ => Raise AttributeError
  end.

Section Files.
(** [os.path.exists], on whatever value it is given: it answers for a
    string, and raises for a value that is no path. *)
Variable path_exists : json -> res bool.
(** The text of a value that is not a string, in an f-string. *)
Variable repr : json -> string.

Definition formatted (v : json) : string :=
  match v with
  | JStr s => s
  | _ => repr v
  end.

(** The places an image is looked for, in this order; the last is the file
    name as it is. *)
Definition possible_paths (name : json) : list json :=
  [JStr (String.append "../output/" (formatted name));
   JStr (String.append "output/" (formatted name));
   JStr (String.append "/comfyui/output/" (formatted name));
   name].

(** The first path that exists. *)
Fixpoint first_existing (paths : list json) : res (option json) :=
  match paths with
  | [] => Ok None
  | p :: rest =>
      rbind (path_exists p) (fun found =>
      if found then Ok (Some p) else first_existing rest)
  end.

(** The body of the loop over the images. *)
Definition image_entry (image_info : json) : res ImageInfo :=
  rbind (getitem image_info (JStr "filename")) (fun name =>
  rbind (first_existing (possible_paths name)) (fun image_path =>
  rbind (get_default image_info "size" (JObj [])) (fun size =>
  rbind (get_default image_info "subfolder" (JStr EmptyString)) (fun subfolder =>
  rbind (get_default image_info "type" (JStr "output")) (fun type =>
  Ok {| filename := name;
        path := image_path;
        size := size;
        subfolder := subfolder;
        type := type |}))))).

Fixpoint image_entries (images : list json) : res (list ImageInfo) :=
  match images with
  | [] => Ok []
  | image_info :: rest =>
      rbind (image_entry image_info) (fun entry =>
      rbind (image_entries rest) (fun entries =>
      Ok (entry :: entries)))
  end.

(** [get_image_info], for what [generate_image] returned. *)
Definition get_image_info (result : option Result) : res (option Info) :=
  match result with
  | None => Ok None
  | Some result =>
      if negb (success result) then Ok None
      else
        rbind (match images result with
               | Some found => iterate found
               | None => Raise (KeyError (JStr "images"))
               end) (fun found =>
        rbind (image_entries found) (fun entries =>
        Ok (Some {| info_prompt_id := prompt_id result;
                    info_generation_time := generation_time result;
                    info_images := entries |})))
  end.

End Files.

End QwenImageGenerator.

(** ** examples/batch_generation.py *)

Module BatchGenerator.
Import Py Net.

(** The fields of [BatchConfig] the generator reads: [timeout] in seconds. *)
Record BatchConfig : Type := {
  max_workers : Z;
  timeout : Z
}.

(** What [result["error"]] holds: "Failed to load workflow",
    "Submit failed: <status>", "Generation timeout", or [str(e)] of a caught
    exception. *)
Inductive Error : Type :=
| LoadFailed
| SubmitFailed (status : Z)
| GenerationTimeout
| ExceptionText (e : exn).

(** The result dict of one job; [generation_time] in milliseconds;
    [prompt_id] is a key of successful results only. *)
Record Result : Type := {
  index : nat;
  prompt : string;
  seed : option Z;
  success : bool;
  filename : option json;
  generation_time : Z;
  error : option Error;
  prompt_id : option json
}.

(** What one job meets: the clock when its worker starts it, the document in
    the workflow file, the answers of the service to its calls. *)
Record job : Type := {
  started : Z;
  file : option json;
  net : script
}.

(** [load_workflow]: the document, or [None] whatever went wrong. *)
Definition load_workflow (file : option json) : option json := file.

(** The file name of the first image of the first output node with images. *)
Fixpoint first_filename (outputs : list (string * json)) : res (option json) :=
  match outputs with
  | [] => Ok None
  | (_, node_output) :: rest =>
      rbind (contains (JStr "images") node_output) (fun has_images =>
      if has_images then
        rbind (getitem node_output (JStr "images")) (fun images =>
        if truthy images then
          rbind (getitem images (JInt 0)) (fun image_info =>
          rbind (getitem image_info (JStr "filename")) (fun filename =>
          Ok (Some filename)))
        else first_filename rest)
      else first_filename rest)
  end.

Definition read_history (prompt_id history : json) : res (option json) :=
  rbind (contains prompt_id history) (fun present =>
  if present then
    rbind (getitem history prompt_id) (fun entry =>
    rbind (get_or_empty entry "outputs") (fun outputs =>
    rbind (items outputs) first_filename))
  else Ok None).

Definition node_inputs (node : string) : list string :=
  ["input"; "workflow"; node; "inputs"].

Section Worker.
Variable config : BatchConfig.
Variable env : job.
Variable prompt_data : string * option Z.
Variable job_index : nat.

Local Open Scope net_scope.


Definition with_error (e : Error) : Result :=
  {| index := job_index;
     prompt := fst prompt_data;
     seed := snd prompt_data;
     success := false;
     filename := None;
     generation_time := 0;
     error := Some e;
     prompt_id := None |}.

(** The polling loop. *)
Fixpoint poll (fuel : nat) (id : json) (start_time generation_start : Z) : M Result :=
  match fuel with
  | O => diverge
  | S fuel' =>
      let* t := time_time in
      if t - generation_start <? timeout config * 1000 then
        let* history_response := get (net env) id in
        let* found :=
          (if status_code history_response =? 200 then
             let* history := lift (response_json history_response) in
             lift (read_history id history)
           else ret None) in
        match found with
        | Some name =>
            let* t' := time_time in
            ret {| index := job_index;
                   prompt := fst prompt_data;
                   seed := snd prompt_data;
                   success := true;
                   filename := Some name;
                   generation_time := t' - start_time;
                   error := None;
                   prompt_id := Some id |}
        | None =>
            let* _ := sleep 1000 in
            poll fuel' id start_time generation_start
        end
      else ret (with_error GenerationTimeout)
  end.

Definition poll_fuel : nat := S (Z.to_nat (timeout config)).

(** The [try] block of [generate_single]. *)
Definition attempt (start_time : Z) : M Result :=
  match load_workflow (file env) with
  | None => ret (with_error LoadFailed)
  | Some workflow =>
      if negb (truthy workflow) then ret (with_error LoadFailed)
      else
        let* workflow1 :=
          lift (set_path workflow (node_inputs "6") "text" (JStr (fst prompt_data))) in
        let* workflow2 :=
          match snd prompt_data with
          | Some s =>
              if s =? 0 then ret workflow1
              else lift (set_path workflow1 (node_inputs "3") "seed" (JInt s))
          | None => ret workflow1
          end in
        let* response := post (net env) (Ok workflow2) in
        if negb (status_code response =? 200) then
          ret (with_error (SubmitFailed (status_code response)))
        else
          let* document := lift (response_json response) in
          let* id := lift (getitem document (JStr "prompt_id")) in
          let* generation_start := time_time in
          poll poll_fuel id start_time generation_start
  end.

(** [generate_single]: every exception of the [try] block ends as the
    [error] of the result. *)
Definition generate_single : M Result :=
  let* start_time := time_time in
  catch (attempt start_time) (fun e => Some (ret (with_error (ExceptionText e)))).

(** The world a worker starts the job in. *)
Definition start : world := {| now := started env; calls := 0; trace := [] |}.

End Worker.

Record Stats : Type := {
  total : Z;
  successful : Z;
  failed : Z;
  total_time : Z;
  start_time : option Z;
  end_time : option Z
}.

Record BatchGenerator : Type := {
  config : BatchConfig;
  results : list Result;
  stats : Stats
}.

(** [BatchGenerator(config)]. *)
Definition init (config : BatchConfig) : BatchGenerator :=
  {| config := config;
     results := [];
     stats := {| total := 0; successful := 0; failed := 0; total_time := 0;
                 start_time := None; end_time := None |} |}.

(** What a batch meets: the clock when [run_batch] starts and when its pool
    has shut down, and what each job meets. *)
Record batch : Type := {
  batch_started : Z;
  batch_ended : Z;
  jobs : nat -> job
}.

(** A future, once done: what [future.result()] gives. *)
Definition future := outcome Result.

Section Batch.
(** The order in which [as_completed] hands the futures over. *)
Variable as_completed : list (nat * future) -> list (nat * future).

(** The body of the [for future in as_completed(...)] loop; [None] when the
    future never completes. *)
Definition collect (g : BatchGenerator) (f : nat * future) : option BatchGenerator :=
  let s := stats g in
  match snd f with
  | Return result =>
      Some {| config := config g;
              results := results g ++ [result];
              stats := {| total := total s;
                          successful := if success result then successful s + 1
                                        else successful s;
                          failed := if success result then failed s else failed s + 1;
                          total_time := total_time s;
                          start_time := start_time s;
                          end_time := end_time s |} |}
  | Raised e =>
      Some {| config := config g;
              results := results g;
              stats := {| total := total s;
                          successful := successful s;
                          failed := failed s + 1;
                          total_time := total_time s;
                          start_time := start_time s;
                          end_time := end_time s |} |}
  | Diverge => None
  end.

Fixpoint collect_all (g : BatchGenerator) (fs : list (nat * future))
  : option BatchGenerator :=
  match fs with
  | [] => Some g
  | f :: rest =>
      match collect g f with
      | Some g' => collect_all g' rest
      | None => None
      end
  end.

(** The futures [executor.submit] creates, in submission order. *)
Definition submit_all (g : BatchGenerator) (b : batch) (prompts : list (string * option Z))
  : list (nat * future) :=
  imap (fun i prompt_data =>
          (i, fst (generate_single (config g) (jobs b i) prompt_data i (start (jobs b i)))))
       prompts.

(** The generator once [run_batch] has set [start_time] and [total], before
    it creates its pool. *)
Definition announced (g : BatchGenerator) (b : batch) (prompts : list (string * option Z))
  : BatchGenerator :=
  let s := stats g in
  {| config := config g;
     results := results g;
     stats := {| total := Z.of_nat (length prompts);
                 successful := successful s;
                 failed := failed s;
                 total_time := total_time s;
                 start_time := Some (batch_started b);
                 end_time := end_time s |} |}.

(** [run_batch]: how the call ends, and the generator it leaves.  It returns
    [self.results]; [ThreadPoolExecutor(max_workers=...)] raises [ValueError]
    when [max_workers <= 0], and does so after [start_time] and [total] have
    been set; [Diverge] stands for a worker that never finishes. *)
Definition run_batch (g : BatchGenerator) (b : batch) (prompts : list (string * option Z))
  : outcome (list Result) * BatchGenerator :=
  let g1 := announced g b prompts in
  if max_workers (config g) <=? 0 then (Raised ValueError, g1)
  else
    match collect_all g1 (as_completed (submit_all g b prompts)) with
    | Some g2 =>
        let s2 := stats g2 in
        let g3 := {| config := config g2;
                     results := results g2;
                     stats := {| total := total s2;
                                 successful := successful s2;
                                 failed := failed s2;
                                 total_time := batch_ended b - batch_started b;
                                 start_time := start_time s2;
                                 end_time := Some (batch_ended b) |} |} in
        (Return (results g3), g3)
    | None => (Diverge, g1)
    end.

End Batch.

(** The four lines under "Generation Times (Successful)". *)
Record Timing : Type := {
  average : Q;
  median : Q;
  shortest : Q;
  longest : Q
}.

(** What [print_summary] prints. *)
Record Summary : Type := {
  total_prompts : Z;
  successes : Z;
  failures : Z;
  success_rate : Q;
  started_at : Z;
  ended_at : Z;
  total_duration : Z;
  average_per_image : Q;
  generation_times : option Timing;
  failed_shown : list Result;
  failed_more : option nat
}.

Definition timing (times : list Q) : res Timing :=
  rbind (Statistics.mean times) (fun a =>
  rbind (Statistics.median times) (fun m =>
  rbind (Statistics.minimum times) (fun lo =>
  rbind (Statistics.maximum times) (fun hi =>
  Ok {| average := a; median := m; shortest := lo; longest := hi |})))).

(** [x.strftime(...)] on a time that may still be [None]. *)
Definition strftime (t : option Z) : res Z :=
  match t with
  | Some x => Ok x
  | None => Raise AttributeError
  end.

Definition print_summary (g : BatchGenerator) : res Summary :=
  let s := stats g in
  rbind (Statistics.truediv (inject_Z (successful s)) (inject_Z (total s))) (fun ratio =>
  rbind (strftime (start_time s)) (fun t0 =>
  rbind (strftime (end_time s)) (fun t1 =>
  rbind (Statistics.truediv (inject_Z (total_time s)) (inject_Z (total s))) (fun per_image =>
  rbind (if 0 <? successful s
         then
           let successful_times :=
             map (fun r => inject_Z (generation_time r)) (List.filter success (results g)) in
           rbind (timing successful_times) (fun t => Ok (Some t))
         else Ok None) (fun times =>
  let failed_results := List.filter (fun r => negb (success r)) (results g) in
  Ok {| total_prompts := total s;
        successes := successful s;
        failures := failed s;
        success_rate := Qmult ratio (inject_Z 100);
        started_at := t0;
        ended_at := t1;
        total_duration := total_time s;
        average_per_image := per_image;
        generation_times := times;
        failed_shown := firstn 5 failed_results;
        failed_more := if (5 <? length failed_results)%nat
                       then Some (length failed_results - 5)%nat
                       else None |}))))).


(** [load_prompts] *)

Import Ascii.

Section Prompts.
(** [sys.get_int_max_str_digits()]. *)
Variable max_str_digits : nat.

(** The body of the loop over the lines of the file: the prompt of a line
    and its seed, or nothing for an empty line and for a comment. *)
Definition parse_line (line : string) : res (option (string * option Z)) :=
  let line := Text.strip line in
  if negb (String.eqb line EmptyString) && negb (Text.startswith "#" line) then
    match Text.split "|"%char line with
    | [] => Raise IndexError
    | first :: others =>
        let prompt := Text.strip first in
        match others with
        | second :: _ =>
            rbind (Text.int max_str_digits (Text.strip second)) (fun seed =>
            Ok (Some (prompt, Some seed)))
        | [] => Ok (Some (prompt, None))
        end
    end
  else Ok None.

Fixpoint parse_lines (lines : list string) (prompts : list (string * option Z))
  : res (list (string * option Z)) :=
  match lines with
  | [] => Ok prompts
  | line :: rest =>
      rbind (parse_line line) (fun parsed =>
      parse_lines rest (match parsed with
                        | Some entry => prompts ++ [entry]
                        | None => prompts
                        end))
  end.

(** [load_prompts]: [file] is what the prompts file holds, as the lines that
    reading it gives, each with its line end; [None] when there is no such
    file.  Whatever goes wrong, the result is the empty list. *)
Definition load_prompts (file : option (list string)) : list (string * option Z) :=
  match file with
  | None => []
  | Some lines =>
      match parse_lines lines [] with
      | Ok prompts => prompts
      | Raise _ => []
      end
  end.

End Prompts.




End BatchGenerator.

(** ** benchmarks/test_performance.py *)

Module PerformanceBenchmark.
Import Py.

(** [self.results]: times in seconds, memory in GB, use in percent. *)
Record Results : Type := {
  generation_times : list Q;
  memory_usage : list Q;
  gpu_usage : list Q;
  success_rate : Q;
  total_requests : Z;
  failed_requests : Z
}.

(** The lines of "Generation Time Statistics", but for the standard
    deviation: a square root, which [statistics.stdev] computes without
    raising once there are two times. *)
Record TimeStatistics : Type := {
  average : Q;
  median : Q;
  shortest : Q;
  longest : Q
}.

Record Usage : Type := {
  mean_use : Q;
  peak : Q;
  lowest : Q
}.

Inductive Grade : Type := Excellent | Good | Acceptable | NeedsImprovement.

(** What [assess_performance] prints: the two grades, when there are
    generation times, and the overall verdict. *)
Record Assessment : Type := {
  grades : option (Grade * Grade);
  ready_for_production : bool
}.

Record Report : Type := {
  after : Results;
  times : option TimeStatistics;
  memory : option Usage;
  gpu : option Usage;
  assessment : Assessment
}.

Definition nonempty {A} (xs : list A) : bool :=
  match xs with [] => false | _ => true end.

(** [x < n] for a whole number [n]. *)
Definition below (x : Q) (n : Z) : bool := negb (Qle_bool (inject_Z n) x).

Definition time_statistics (times : list Q) : res TimeStatistics :=
  rbind (Statistics.mean times) (fun a =>
  rbind (Statistics.median times) (fun m =>
  rbind (Statistics.minimum times) (fun lo =>
  rbind (Statistics.maximum times) (fun hi =>
  Ok {| average := a; median := m; shortest := lo; longest := hi |})))).

Definition usage (xs : list Q) : res Usage :=
  rbind (Statistics.mean xs) (fun a =>
  rbind (Statistics.maximum xs) (fun hi =>
  rbind (Statistics.minimum xs) (fun lo =>
  Ok {| mean_use := a; peak := hi; lowest := lo |}))).

Definition assess_performance (r : Results) : res Assessment :=
  rbind (if nonempty (generation_times r)
         then
           rbind (Statistics.mean (generation_times r)) (fun avg_time =>
           let speed :=
             if below avg_time 3 then Excellent
             else if below avg_time 5 then Good
             else if below avg_time 8 then Acceptable
             else NeedsImprovement in
           let rate :=
             if Qle_bool (inject_Z 95) (success_rate r) then Excellent
             else if Qle_bool (inject_Z 90) (success_rate r) then Good
             else if Qle_bool (inject_Z 80) (success_rate r) then Acceptable
             else NeedsImprovement in
           Ok (Some (speed, rate)))
         else Ok None) (fun g =>
  rbind (if nonempty (generation_times r)
         then
           rbind (Statistics.mean (generation_times r)) (fun avg_time =>
           Ok (below avg_time 5 && Qle_bool (inject_Z 90) (success_rate r)))
         else Ok false) (fun ready =>
  Ok {| grades := g; ready_for_production := ready |})).

Definition calculate_statistics (r : Results) : res Report :=
  rbind (if 0 <? total_requests r
         then
           rbind (Statistics.truediv
                    (inject_Z (total_requests r - failed_requests r))
                    (inject_Z (total_requests r))) (fun ratio =>
           Ok (Qmult ratio (inject_Z 100)))
         else Ok (success_rate r)) (fun rate =>
  let r' := {| generation_times := generation_times r;
               memory_usage := memory_usage r;
               gpu_usage := gpu_usage r;
               success_rate := rate;
               total_requests := total_requests r;
               failed_requests := failed_requests r |} in
  rbind (if nonempty (generation_times r')
         then rbind (time_statistics (generation_times r')) (fun t => Ok (Some t))
         else Ok None) (fun t =>
  rbind (if nonempty (memory_usage r')
         then rbind (usage (memory_usage r')) (fun u => Ok (Some u))
         else Ok None) (fun m =>
  rbind (if nonempty (gpu_usage r')
         then rbind (usage (gpu_usage r')) (fun u => Ok (Some u))
         else Ok None) (fun u =>
  rbind (assess_performance r') (fun a =>
  Ok {| after := r'; times := t; memory := m; gpu := u; assessment := a |}))))).

End PerformanceBenchmark.

(** * Properties *)

(** ** Counting the calls of a run *)

Import Py Net.

Section Traces.

Lemma posts_app (tr tr' : list event) : posts (tr ++ tr') = (posts tr + posts tr')%nat.
Proof. unfold posts. now rewrite List.filter_app, length_app. Qed.

Lemma gets_app (tr tr' : list event) : gets (tr ++ tr') = (gets tr + gets tr')%nat.
Proof. unfold gets. now rewrite List.filter_app, length_app. Qed.

Lemma posts_cons e (tr : list event) :
  posts (e :: tr) = ((if is_post e then 1 else 0) + posts tr)%nat.
Proof. unfold posts. cbn. now destruct (is_post e). Qed.

Lemma gets_cons e (tr : list event) :
  gets (e :: tr) = ((if is_get e then 1 else 0) + gets tr)%nat.
Proof. unfold gets. cbn. now destruct (is_get e). Qed.

Lemma posts_nil : posts [] = 0%nat.
Proof. reflexivity. Qed.

Lemma gets_nil : gets [] = 0%nat.
Proof. reflexivity. Qed.

(** A world reached from another: the clock has not gone back and the trace
    has grown at its end. *)
Definition extends (w w' : world) : Prop :=
  now w <= now w' /\ exists tr, trace w' = trace w ++ tr.

Lemma extends_refl w : extends w w.
Proof. split; [lia | exists []; now rewrite app_nil_r]. Qed.

Lemma extends_trans w1 w2 w3 : extends w1 w2 -> extends w2 w3 -> extends w1 w3.
Proof.
  intros [H1 [t1 E1]] [H2 [t2 E2]]. split; [lia |].
  exists (t1 ++ t2). now rewrite E2, E1, app_assoc.
Qed.

Lemma http_inv net ev w (r : outcome response) w' :
  http net ev w = (r, w') ->
  w' = {| now := now w + Z.of_N (latency (net (calls w)));
          calls := S (calls w);
          trace := trace w ++ [ev (now w)] |}
  /\ r = match reply (net (calls w)) with
         | inl msg => Raised (RequestException msg)
         | inr x => Return x
         end.
Proof.
  unfold http. destruct (reply (net (calls w))); intros H; inversion H; auto.
Qed.

Lemma sleep_inv d w (r : outcome unit) w' :
  sleep d w = (r, w') ->
  (d < 0 /\ r = Raised ValueError /\ w' = w)
  \/ (0 <= d /\ r = Return tt
      /\ w' = {| now := now w + d; calls := calls w;
                 trace := trace w ++ [Sleep (now w) d] |}).
Proof.
  unfold sleep. destruct (Z.ltb_spec d 0); intros E; inversion E; auto.
Qed.

End Traces.

(** Symbolic execution of a run given as [H : m w = (r, w')]: the calls to
    the service and the sleeps are replaced by what they do, the other case
    distinctions are split. *)
Ltac run_call H :=
  match type of H with
  | context [http ?n ?e ?w] =>
      let o := fresh "o" in
      let w1 := fresh "w" in
      let E := fresh "E" in
      destruct (http n e w) as [o w1] eqn:E;
      apply http_inv in E; destruct E as [-> ->]
  | context [sleep ?d ?w] =>
      let o := fresh "o" in
      let w1 := fresh "w" in
      let E := fresh "E" in
      destruct (sleep d w) as [o w1] eqn:E;
      apply sleep_inv in E;
      destruct E as [(? & -> & ->) | (? & -> & ->)]
  end; cbn in H.

Ltac run_case H :=
  match type of H with
  | context [match ?x with _ => _ end] =>
      lazymatch x with
      | context [match _ with _ => _ end] => fail
      | _ => destruct x eqn:?
      end
  | context [if ?x then _ else _] =>
      lazymatch x with
      | context [match _ with _ => _ end] => fail
      | _ => destruct x eqn:?
      end
  end; cbn in H.

Ltac run H := repeat (first [run_call H | run_case H]).

Ltac finish H := inversion H; subst; clear H; cbn in *.

(** The events a run adds, when the goal asks for them. *)
Ltac grown :=
  first [ exists []; split; [now rewrite app_nil_r |]
        | eexists; split; [rewrite <- ?app_assoc; reflexivity |] ].

Ltac count :=
  rewrite ?posts_app, ?gets_app, ?posts_cons, ?gets_cons, ?posts_nil, ?gets_nil;
  cbn [is_post is_get].

(** ** What the operations on documents can raise *)

(** A computation on documents raises none of the exceptions of
    [requests]. *)
Definition local_raise {A} (r : res A) : Prop :=
  forall e, r = Raise e -> is_RequestException e = false.

Lemma local_Ok {A} (a : A) : local_raise (Ok a).
Proof. intros e H. discriminate. Qed.

Lemma local_rbind {A B} (r : res A) (k : A -> res B) :
  local_raise r -> (forall a, local_raise (k a)) -> local_raise (rbind r k).
Proof.
  intros Hr Hk e. destruct r as [a | e']; cbn.
  - apply Hk.
  - intros H. inversion H; subst. now apply Hr.
Qed.

Lemma local_nth_item xs key : local_raise (nth_item xs key).
Proof.
  intros e. unfold nth_item.
  destruct (index_of key); [| intros H; now inversion H].
  destruct (position _ _); [| intros H; now inversion H].
  destruct (nth_error _ _); intros H; now inversion H.
Qed.

Lemma local_getitem v key : local_raise (getitem v key).
Proof.
  intros e. destruct v; cbn; try (intros H; now inversion H).
  - apply local_nth_item.
  - apply local_nth_item.
  - destruct (hashable key); [| intros H; now inversion H].
    destruct key; try (intros H; now inversion H).
    destruct (assoc s kvs); intros H; now inversion H.
Qed.

Lemma local_contains x v : local_raise (contains x v).
Proof.
  intros e. destruct v; cbn; try (intros H; now inversion H).
  - destruct x; intros H; now inversion H.
  - destruct (hashable x); intros H; now inversion H.
Qed.

Lemma local_get_or_empty v k : local_raise (get_or_empty v k).
Proof. intros e. destruct v; cbn; intros H; now inversion H. Qed.

Lemma local_items v : local_raise (items v).
Proof. intros e. destruct v; cbn; intros H; now inversion H. Qed.

Lemma local_iterate v : local_raise (iterate v).
Proof. intros e. destruct v; cbn; intros H; now inversion H. Qed.

Lemma local_set_path v ks k x : local_raise (set_path v ks k x).
Proof.
  revert v. induction ks as [| k1 ks IH]; intros v; cbn.
  - destruct v; intros e H; now inversion H.
  - apply local_rbind; [apply local_getitem |]. intros child.
    apply local_rbind; [apply IH |]. intros child'.
    destruct v; intros e H; now inversion H.
Qed.

Lemma local_if {A} (b : bool) (r1 r2 : res A) :
  local_raise r1 -> local_raise r2 -> local_raise (if b then r1 else r2).
Proof. now destruct b. Qed.

Lemma api_collect_images_local outputs images :
  local_raise (QwenImageAPI.collect_images outputs images).
Proof.
  revert images. induction outputs as [| [node_id node_output] rest IH]; intros images; cbn.
  - apply local_Ok.
  - apply local_rbind; [apply local_contains |]. intros has.
    apply local_if; [| apply IH].
    apply local_rbind; [apply local_getitem |]. intros found.
    apply local_rbind; [apply local_iterate |]. intros more. apply IH.
Qed.

Lemma api_read_history_local id history :
  local_raise (QwenImageAPI.read_history id history).
Proof.
  unfold QwenImageAPI.read_history.
  apply local_rbind; [apply local_contains |]. intros present.
  apply local_if; [| apply local_Ok].
  apply local_rbind; [apply local_getitem |]. intros generation_data.
  apply local_rbind; [apply local_get_or_empty |]. intros outputs.
  apply local_rbind; [apply local_items |]. intros nodes.
  apply local_rbind; [apply api_collect_images_local |]. intros images.
  apply local_Ok.
Qed.

Lemma quick_first_images_local outputs :
  local_raise (QwenImageGenerator.first_images outputs).
Proof.
  induction outputs as [| [node_id node_output] rest IH]; cbn.
  - apply local_Ok.
  - apply local_rbind; [apply local_contains |]. intros has.
    apply local_if; [| apply IH].
    apply local_rbind; [apply local_getitem |]. intros images.
    apply local_if; [apply local_Ok | apply IH].
Qed.

Lemma quick_read_history_local id history :
  local_raise (QwenImageGenerator.read_history id history).
Proof.
  unfold QwenImageGenerator.read_history.
  apply local_rbind; [apply local_contains |]. intros present.
  apply local_if; [| apply local_Ok].
  apply local_rbind; [apply local_getitem |]. intros generation_data.
  apply local_rbind; [apply local_get_or_empty |]. intros outputs.
  apply local_rbind; [apply local_items |]. apply quick_first_images_local.
Qed.

(** ** Submission: attempts and delays *)

Section Submission.
Import QwenImageAPI.
Variable api : QwenImageAPI.
Variable net : script.

Lemma submit_attempt_inv workflow attempt w r w' :
  submit_attempt api net workflow attempt w = (r, w') ->
  exists tr,
    trace w' = trace w ++ tr
    /\ (posts tr <= 1)%nat
    /\ gets tr = 0%nat
    /\ now w <= now w'
    /\ r <> Diverge
    /\ forall P : event -> Prop,
         (forall t payload, P (Post t payload)) ->
         (forall t, 0 <= backoff_delay api attempt ->
                    P (Sleep t (backoff_delay api attempt))) ->
         Forall P tr.
Proof.
  intros H. unfold submit_attempt, catch, bind, post, lift, ret, raise in H.
  run H.
  all: finish H.
  all: grown.
  all: repeat split; count; try lia; try discriminate.
  all: intros P HP HS; repeat constructor; auto.
Qed.

Lemma submit_attempts_inv workflow attempts w r w' :
  submit_attempts api net workflow attempts w = (r, w') ->
  exists tr,
    trace w' = trace w ++ tr
    /\ (posts tr <= length attempts)%nat
    /\ gets tr = 0%nat
    /\ now w <= now w'
    /\ r <> Diverge
    /\ forall P : event -> Prop,
         (forall t payload, P (Post t payload)) ->
         (forall a t, In a attempts -> 0 <= backoff_delay api a ->
                      P (Sleep t (backoff_delay api a))) ->
         Forall P tr.
Proof.
  revert w r w'. induction attempts as [| attempt rest IH]; intros w r w' H.
  - cbn in H. finish H. grown. repeat split; auto; try lia; try discriminate.
  - cbn [submit_attempts] in H. unfold bind in H.
    destruct (submit_attempt api net workflow attempt w) as [c w1] eqn:E.
    apply submit_attempt_inv in E. destruct E as (tr1 & Ht & Hp & Hg & Hn & Hd & HP).
    assert (Hsleep : forall P : event -> Prop,
               (forall t payload, P (Post t payload)) ->
               (forall a t, In a (attempt :: rest) -> 0 <= backoff_delay api a ->
                            P (Sleep t (backoff_delay api a))) ->
               Forall P tr1).
    { intros P H1 H2. apply HP; auto. intros t Hb. apply H2; auto. now left. }
    destruct c as [[| | id] | e |].
    1, 2: apply IH in H; destruct H as (tr2 & Ht' & Hp' & Hg' & Hn' & Hd' & HP');
          exists (tr1 ++ tr2); rewrite Ht', Ht, <- app_assoc;
          repeat split; count; cbn [length]; auto; try lia;
          intros P H1 H2; apply Forall_app; split; [now apply Hsleep |];
          apply HP'; auto; intros a t Ha; apply H2; now right.
    1: unfold ret in H.
    1, 2: finish H; exists tr1; repeat split; auto; try lia; try discriminate.
    now contradiction Hd.
Qed.

Lemma length_range n : length (range n) = Z.to_nat n.
Proof. unfold range. now rewrite length_map, length_seq. Qed.

Lemma In_range a n : In a (range n) -> 0 <= a < n.
Proof.
  unfold range. rewrite in_map_iff. intros (k & <- & Hk).
  apply in_seq in Hk. lia.
Qed.

Lemma submit_generation_inv workflow w r w' :
  submit_generation api net workflow w = (r, w') ->
  exists tr,
    trace w' = trace w ++ tr
    /\ (posts tr <= Z.to_nat (max_retries api))%nat
    /\ gets tr = 0%nat
    /\ now w <= now w'
    /\ r <> Diverge
    /\ forall P : event -> Prop,
         (forall t payload, P (Post t payload)) ->
         (forall a t, 0 <= a < max_retries api -> 0 <= backoff_delay api a ->
                      P (Sleep t (backoff_delay api a))) ->
         Forall P tr.
Proof.
  unfold submit_generation. intros H. apply submit_attempts_inv in H.
  rewrite length_range in H. destruct H as (tr & Ht & Hp & Hg & Hn & Hd & HP).
  exists tr. repeat split; auto. intros P H1 H2. apply HP; auto.
  intros a t Ha. apply H2. now apply In_range.
Qed.

(** When every call meets a transport error, each attempt of the list is
    made and none gets a handle. *)
Lemma submit_attempts_transient document attempts w :
  (forall n, exists msg, reply (net n) = inl msg) ->
  0 <= retry_delay api ->
  Forall (fun a => 0 <= a) attempts ->
  exists w',
    submit_attempts api net (Ok document) attempts w = (Return JNull, w')
    /\ posts (trace w') = (posts (trace w) + length attempts)%nat
    /\ gets (trace w') = gets (trace w).
Proof.
  intros Hnet Hdelay. revert w.
  induction attempts as [| attempt rest IH]; intros w Hpos.
  - exists w. cbn. repeat split; lia.
  - inversion Hpos as [| ? ? Ha Hrest]; subst.
    assert (Hb : 0 <= backoff_delay api attempt) by (unfold backoff_delay; nia).
    destruct (Hnet (calls w)) as [msg Hmsg].
    cbn [submit_attempts]. unfold submit_attempt, catch, post, http, bind.
    cbv zeta. rewrite Hmsg. cbn.
    destruct (attempt <? max_retries api - 1).
    + unfold sleep. destruct (Z.ltb_spec (backoff_delay api attempt) 0); [lia |].
      cbn. match goal with |- context [submit_attempts _ _ _ _ ?w1] =>
        destruct (IH w1 Hrest) as (w' & E & Hp & Hg) end.
      exists w'. rewrite E. cbn in Hp, Hg. revert Hp Hg. count. cbn [length].
      repeat split; lia.
    + cbn. match goal with |- context [submit_attempts _ _ _ _ ?w1] =>
        destruct (IH w1 Hrest) as (w' & E & Hp & Hg) end.
      exists w'. rewrite E. cbn in Hp, Hg. revert Hp Hg. count. cbn [length].
      repeat split; lia.
Qed.

End Submission.

(** ** Polling in [api_integration.py] *)

Section ApiPolling.
Import QwenImageAPI.
Variable api : QwenImageAPI.
Variable net : script.

(** A call that makes the polling loop stop: a transport error, or an answer
    with status 200 whose body is not JSON. *)
Definition broken (a : answer) : Prop :=
  match reply a with
  | inl _ => True
  | inr response => status_code response = 200 /\ body response = None
  end.

Lemma api_poll_once_inv id start_time w c w' :
  poll_once net id start_time w = (c, w') ->
  exists tr,
    trace w' = trace w ++ tr
    /\ posts tr = 0%nat
    /\ gets tr = 1%nat
    /\ calls w' = S (calls w)
    /\ now w <= now w'
    /\ c <> Diverge
    /\ (c = Return Continue -> now w + 1000 <= now w')
    /\ (c = Return Break -> broken (net (calls w)))
    /\ (forall result, c = Return (Returns result) -> success result = true)
    /\ forall P : event -> Prop,
         P (Get (now w) id) -> (forall t, P (Sleep t 1000)) -> Forall P tr.
Proof.
  intros H. unfold poll_once, catch, get, bind, lift, ret, raise, time_time in H.
  run H.
  all: finish H.
  all: grown.
  all: repeat split; count; try lia; try discriminate.
  all: try (intros result Hr; inversion Hr; reflexivity).
  all: try (intros P HG HS; repeat constructor; now auto).
  all: intros _; unfold broken.
  all: repeat match goal with
         | E : reply _ = _ |- _ => rewrite E
         | E : (_ =? _) = true |- _ => apply Z.eqb_eq in E
         end; auto.
  all: try match goal with
           | E : QwenImageAPI.read_history _ _ = Raise ?e, E' : is_RequestException ?e = true |- _ =>
               apply api_read_history_local in E; congruence
           end.
  all: unfold response_json in *;
       match goal with
       | E : match body ?r with _ => _ end = _ |- _ => destruct (body r); now inversion E
       end.
Qed.

(** Fuel that outlasts the time left before the timeout. *)
Definition api_enough (fuel : nat) (start_time : Z) (w : world) : Prop :=
  (1 <= fuel)%nat
  /\ timeout api * 1000 - (now w - start_time) <= 1000 * (Z.of_nat fuel - 1).

Lemma api_poll_inv fuel id start_time w r w' :
  poll api net fuel id start_time w = (r, w') ->
  exists tr,
    trace w' = trace w ++ tr
    /\ posts tr = 0%nat
    /\ now w <= now w'
    /\ (calls w <= calls w')%nat
    /\ (api_enough fuel start_time w -> r <> Diverge)
    /\ (forall result, r = Return result ->
          success result = true
          \/ (result = timed_out api id
              /\ (timeout api * 1000 <= now w' - start_time
                  \/ exists n, (calls w <= n < calls w')%nat /\ broken (net n))))
    /\ forall P : event -> Prop,
         (forall t, now w <= t -> t - start_time < timeout api * 1000 -> P (Get t id)) ->
         (forall t, P (Sleep t 1000)) ->
         Forall P tr.
Proof.
  revert w r w'. induction fuel as [| fuel IH]; intros w r w' H.
  - cbn in H. finish H. grown. repeat split; auto; try lia; try discriminate.
    intros [Hf _]. lia.
  - cbn [poll] in H. unfold bind, time_time in H.
    destruct (Z.ltb_spec (now w - start_time) (timeout api * 1000)) as [Hlt | Hge].
    + destruct (poll_once net id start_time w) as [c w1] eqn:E.
      apply api_poll_once_inv in E.
      destruct E as (tr1 & Ht & Hp & _ & Hcalls & Hn & Hd & Hc & Hb & Hs & HP).
      destruct c as [[| | result] | e |].
      * apply IH in H. destruct H as (tr2 & Ht' & Hp' & Hn' & Hcalls' & Hd' & Hr' & HP').
        specialize (Hc eq_refl).
        exists (tr1 ++ tr2). rewrite Ht', Ht, <- app_assoc.
        repeat split; count; try lia; auto.
        -- intros [Hf Hrem]. apply Hd'. unfold api_enough. split; lia.
        -- intros result Hr. destruct (Hr' result Hr) as [Hok | [Hto [Hlate | (n & Hn1 & Hn2)]]];
             [now left | right; split; auto | right; split; auto].
           right. exists n. split; [lia | auto].
        -- intros P HG HS. apply Forall_app. split.
           ++ apply HP; auto. apply HG; lia.
           ++ apply HP'; auto. intros t Ht1 Ht2. apply HG; lia.
      * finish H. exists tr1. repeat split; auto; try lia; try discriminate.
        -- intros result Hr. inversion Hr; subst. right. split; auto.
           right. exists (calls w). split; [lia | auto].
        -- intros P HG HS. apply HP; auto. apply HG; lia.
      * finish H. exists tr1. repeat split; auto; try lia; try discriminate.
        -- intros result' Hr. inversion Hr; subst. left. now apply Hs.
        -- intros P HG HS. apply HP; auto. apply HG; lia.
      * finish H. exists tr1. repeat split; auto; try lia; try discriminate.
        intros P HG HS. apply HP; auto. apply HG; lia.
      * now contradiction Hd.
    + finish H. grown. repeat split; auto; try lia; try discriminate.
      intros result Hr. inversion Hr; subst. right. split; auto.
Qed.

Lemma api_wait_for_completion_inv id w r w' :
  wait_for_completion api net id w = (r, w') ->
  exists tr,
    trace w' = trace w ++ tr
    /\ posts tr = 0%nat
    /\ now w <= now w'
    /\ r <> Diverge
    /\ (forall result, r = Return result ->
          success result = true
          \/ (result = timed_out api id
              /\ (timeout api * 1000 <= now w' - now w
                  \/ exists n, (calls w <= n < calls w')%nat /\ broken (net n))))
    /\ forall P : event -> Prop,
         (forall t, now w <= t -> t - now w < timeout api * 1000 -> P (Get t id)) ->
         (forall t, P (Sleep t 1000)) ->
         Forall P tr.
Proof.
  unfold wait_for_completion, bind, time_time. intros H.
  apply api_poll_inv in H. destruct H as (tr & Ht & Hp & Hn & _ & Hd & Hr & HP).
  exists tr. repeat split; auto. apply Hd. unfold api_enough, poll_fuel. split; lia.
Qed.

(** The document [generate_image] submits, when the workflow file loads and
    [prepare_workflow] accepts it. *)
Definition payload_of (file : option json) (request : GenerationRequest) (t : Z)
  : option (res json) :=
  match load_workflow file with
  | None => None
  | Some document =>
      if truthy document then
        let '(h0, workflow) := Store.loads document [] in
        let '(h1, prepared) := prepare_workflow h0 workflow request t in
        match prepared with
        | Ok v => Some (Store.json_dumps h1 v)
        | Raise _ => None
        end
      else None
  end.

Lemma generate_image_posts file request w r w' :
  generate_image api net file request w = (r, w') ->
  (posts (trace w') <= posts (trace w) + Z.to_nat (max_retries api))%nat
  /\ r <> Diverge.
Proof.
  unfold generate_image. intros H.
  destruct (load_workflow file) as [document |]; [| finish H; split; [lia | discriminate]].
  destruct (truthy document); cbn [negb] in H; [| finish H; split; [lia | discriminate]].
  destruct (Store.loads document []) as [h0 workflow].
  unfold bind, time_time in H.
  destruct (prepare_workflow h0 workflow request (now w)) as [h1 prepared].
  destruct prepared as [v | e]; cbn [lift] in H;
    [| finish H; split; [lia | discriminate]].
  unfold ret in H.
  destruct (submit_generation api net (Store.json_dumps h1 v) w) as [o w1] eqn:E.
  apply submit_generation_inv in E. destruct E as (tr1 & Ht & Hp & _ & _ & Hd & _).
  destruct o as [id | e |].
  - destruct (truthy id); cbn [negb] in H.
    + apply api_wait_for_completion_inv in H.
      destruct H as (tr2 & Ht' & Hp' & _ & Hd' & _).
      rewrite Ht', Ht. count. split; [lia | auto].
    + finish H. rewrite Ht. count. split; [lia | discriminate].
  - finish H. rewrite Ht. count. split; [lia | discriminate].
  - now contradiction Hd.
Qed.

End ApiPolling.

(** ** Concrete workflows, requests and services used in the examples *)

Definition sample_workflow : json :=
  JObj [("input",
         JObj [("workflow",
                JObj [("3", JObj [("inputs", JObj [("seed", JInt 7);
                                                   ("steps", JInt 4);
                                                   ("cfg", JFloat (inject_Z 2))])]);
                      ("6", JObj [("inputs", JObj [("text", JStr "a placeholder")])]);
                      ("58", JObj [("inputs", JObj [("width", JInt 512);
                                                    ("height", JInt 512);
                                                    ("batch_size", JInt 1)])])])])].

Definition sample_request : QwenImageAPI.GenerationRequest :=
  {| QwenImageAPI.prompt := "A majestic dragon";
     QwenImageAPI.seed := Some 12345;
     QwenImageAPI.width := 1024;
     QwenImageAPI.height := 1024;
     QwenImageAPI.steps := 8;
     QwenImageAPI.cfg_scale := inject_Z 1;
     QwenImageAPI.batch_size := 1 |}.

(** The world at the start of a run. *)
Definition dawn : world := {| now := 0; calls := 0; trace := [] |}.

(** A service no call reaches. *)
Definition unreachable : script :=
  fun _ => {| latency := 0; reply := inl "connection refused" |}.

(** A service that answers every call at once with the status given and no
    body. *)
Definition always (status : Z) : script :=
  fun _ => {| latency := 0; reply := inr {| status_code := status; body := None |} |}.

Definition accepted (id : string) : response :=
  {| status_code := 200; body := Some (JObj [("prompt_id", JStr id)]) |}.

Definition history_of (id : string) (images : list json) : response :=
  {| status_code := 200;
     body := Some (JObj [(id, JObj [("outputs",
                                     JObj [("9", JObj [("images", JList images)])])])]) |}.

Definition empty_history : response :=
  {| status_code := 200; body := Some (JObj []) |}.

Definition image (name : string) : json := JObj [("filename", JStr name)].

(** ** C2: the number of submission attempts *)

(** C2.  A job makes at most [max_retries] submission attempts, whatever the
    service answers; and when every call meets a transport error, a job that
    reaches submission makes exactly [max_retries] attempts, never polls, and
    ends failed with "Failed to submit generation request" (three attempts
    for [max_retries = 3]). *)
Theorem submission_attempts_bounded
    (api : QwenImageAPI.QwenImageAPI) (net : script) (file : option json)
    (request : QwenImageAPI.GenerationRequest) (w : world)
    (r : outcome QwenImageAPI.GenerationResult) (w' : world) :
  0 <= QwenImageAPI.max_retries api ->
  QwenImageAPI.generate_image api net file request w = (r, w') ->
  Z.of_nat (posts (trace w')) <= Z.of_nat (posts (trace w)) + QwenImageAPI.max_retries api
  /\ ((forall n, exists msg, reply (net n) = inl msg) ->
      0 <= QwenImageAPI.retry_delay api ->
      forall document,
        payload_of file request (now w) = Some (Ok document) ->
        r = Return (QwenImageAPI.failure "Failed to submit generation request")
        /\ Z.of_nat (posts (trace w'))
           = Z.of_nat (posts (trace w)) + QwenImageAPI.max_retries api
        /\ gets (trace w') = gets (trace w)).
Proof.
  intros Hmax H. split.
  - apply generate_image_posts in H. lia.
  - intros Hnet Hdelay document Hpay.
    unfold payload_of in Hpay. unfold QwenImageAPI.generate_image in H.
    destruct (QwenImageAPI.load_workflow file) as [doc |]; [| discriminate].
    destruct (truthy doc); [| discriminate]. cbn [negb] in H.
    destruct (Store.loads doc []) as [h0 workflow].
    unfold bind, time_time in H.
    destruct (QwenImageAPI.prepare_workflow h0 workflow request (now w)) as [h1 prepared].
    destruct prepared as [v | e]; [| discriminate].
    inversion Hpay as [Hdoc].
    cbn [lift] in H. unfold ret in H. rewrite Hdoc in H.
    unfold QwenImageAPI.submit_generation in H.
    destruct (submit_attempts_transient api net document
                (QwenImageAPI.range (QwenImageAPI.max_retries api)) w Hnet Hdelay)
      as (w1 & E & Hp & Hg).
    { apply List.Forall_forall. intros a Ha. apply In_range in Ha. lia. }
    rewrite E in H. cbn in H. inversion H; subst.
    rewrite length_range in Hp. repeat split; auto. lia.
Qed.

(** Scenario B: the service is unreachable and [max_retries = 3]. *)
Lemma submission_attempts_bounded_witness :
  fst (QwenImageAPI.generate_image QwenImageAPI.default_api unreachable
         (Some sample_workflow) sample_request dawn)
  = Return (QwenImageAPI.failure "Failed to submit generation request")
  /\ posts (trace (snd (QwenImageAPI.generate_image QwenImageAPI.default_api unreachable
                          (Some sample_workflow) sample_request dawn))) = 3%nat.
Proof.
  destruct (QwenImageAPI.generate_image QwenImageAPI.default_api unreachable
              (Some sample_workflow) sample_request dawn) as [r w'] eqn:E.
  assert (Hmax : 0 <= QwenImageAPI.max_retries QwenImageAPI.default_api)
    by (cbn; lia).
  destruct (submission_attempts_bounded _ _ _ _ _ _ _ Hmax E) as [_ HB].
  destruct (HB (fun _ => ex_intro _ "connection refused" eq_refl)
               ltac:(cbn; lia)
               (match payload_of (Some sample_workflow) sample_request (now dawn) with
                | Some (Ok d) => d
                | _ => JNull
                end)
               eq_refl) as (Hr & Hp & _).
  cbn [fst snd]. split; [exact Hr |].
  change (Z.of_nat (posts (trace w')) = 0 + 3) in Hp. lia.
Defined.

(** ** C6: the delay between submission attempts *)

(** A sleep of the submission loop lasts [retry_delay * (a + 1)] for the
    number [a] of an attempt, which is positive and at most
    [retry_delay * max_retries]. *)
Definition linear_backoff (api : QwenImageAPI.QwenImageAPI) (e : event) : Prop :=
  match e with
  | Sleep _ d =>
      exists a, 0 <= a < QwenImageAPI.max_retries api
                /\ d = QwenImageAPI.retry_delay api * (a + 1)
                /\ 0 < d <= QwenImageAPI.retry_delay api * QwenImageAPI.max_retries api
  | _ => True
  end.

(** The events of the attempts numbered [a], [a + 1], ... of a call whose
    workflow is sent: each attempt posts once, and a sleep that follows the
    post of attempt [a] lasts [retry_delay * (a + 1)]. *)
Inductive spaced (api : QwenImageAPI.QwenImageAPI) : Z -> list event -> Prop :=
| spaced_done a : spaced api a []
| spaced_post a t payload rest :
    spaced api (a + 1) rest ->
    spaced api a (Post t payload :: rest)
| spaced_post_sleep a t payload t' rest :
    spaced api (a + 1) rest ->
    spaced api a (Post t payload :: Sleep t' (QwenImageAPI.backoff_delay api a) :: rest).

(** The same for a workflow that cannot be encoded: nothing is posted, and
    the sleep of attempt [a] lasts [retry_delay * (a + 1)]. *)
Inductive unsent (api : QwenImageAPI.QwenImageAPI) : Z -> list event -> Prop :=
| unsent_done a : unsent api a []
| unsent_sleep a t rest :
    unsent api (a + 1) rest ->
    unsent api a (Sleep t (QwenImageAPI.backoff_delay api a) :: rest).

(** How long the sleeps of a run last, in order. *)
Fixpoint pauses (tr : list event) : list Z :=
  match tr with
  | [] => []
  | Sleep _ d :: rest => d :: pauses rest
  | _ :: rest => pauses rest
  end.

Section Backoff.
Import QwenImageAPI.
Variable api : QwenImageAPI.
Variable net : script.

Lemma submit_attempt_sent document attempt w c w' :
  submit_attempt api net (Ok document) attempt w = (c, w') ->
  (forall id, c <> Return (Returns id) ->
     trace w' = trace w ++ [Post (now w) document]
     \/ exists t, trace w' = trace w ++ [Post (now w) document;
                                         Sleep t (backoff_delay api attempt)])
  /\ (forall id, c = Return (Returns id) -> trace w' = trace w ++ [Post (now w) document]).
Proof.
  intros H. unfold submit_attempt, catch, bind, post, lift, ret, raise in H.
  run H.
  all: finish H.
  all: rewrite <- ?app_assoc; cbn [app].
  all: split; [intros id0 Hne | intros id0 Heq; try discriminate; try reflexivity].
  all: eauto.
Qed.

Lemma submit_attempt_unsent e attempt w c w' :
  submit_attempt api net (Raise e) attempt w = (c, w') ->
  (forall id, c <> Return (Returns id))
  /\ (trace w' = trace w
      /\ (max_retries api - 1 <= attempt \/ exists e', c = Raised e')
      \/ exists t, trace w' = trace w ++ [Sleep t (backoff_delay api attempt)]).
Proof.
  intros H. unfold submit_attempt, catch, bind, post, lift, ret, raise in H.
  cbn in H.
  destruct (Z.ltb_spec attempt (max_retries api - 1)) as [Hlt | Hge].
  - unfold sleep in H. run H.
    all: finish H.
    all: split; [intros id0; discriminate |]; eauto.
  - finish H. split; [intros id0; discriminate |]. left. split; [reflexivity | now left].
Qed.

Lemma submit_attempts_spaced document k n w r w' :
  submit_attempts api net (Ok document) (map Z.of_nat (seq k n)) w = (r, w') ->
  exists tr, trace w' = trace w ++ tr /\ spaced api (Z.of_nat k) tr.
Proof.
  revert k w r w'. induction n as [| n IH]; intros k w r w' H.
  - cbn in H. finish H. exists []. split; [now rewrite app_nil_r | constructor].
  - cbn [seq map submit_attempts] in H. unfold bind in H.
    destruct (submit_attempt api net (Ok document) (Z.of_nat k) w) as [c w1] eqn:E.
    apply submit_attempt_sent in E. destruct E as [Hgo Hstop].
    assert (Hnext : Z.of_nat (S k) = Z.of_nat k + 1) by lia.
    destruct c as [[| | id] | e |].
    1, 2: apply IH in H; destruct H as (tr & Ht & Hs); rewrite Hnext in Hs;
          match goal with
          | Hgo : forall id, ?c <> _ -> _ |- _ =>
              destruct (Hgo JNull ltac:(discriminate)) as [E1 | [t E1]]
          end;
          rewrite Ht, E1, <- app_assoc; eexists; (split; [reflexivity |]);
          cbn [app]; now constructor.
    + finish H. rewrite (Hstop id eq_refl). eexists. split; [reflexivity |].
      repeat constructor.
    + finish H.
      destruct (Hgo JNull ltac:(discriminate)) as [E1 | [t E1]];
        rewrite E1; eexists; (split; [reflexivity |]);
        first [apply spaced_post_sleep | apply spaced_post]; constructor.
    + finish H.
      destruct (Hgo JNull ltac:(discriminate)) as [E1 | [t E1]];
        rewrite E1; eexists; (split; [reflexivity |]);
        first [apply spaced_post_sleep | apply spaced_post]; constructor.
Qed.

Lemma submit_attempts_unsent e k n w r w' :
  ((0 < n)%nat -> Z.of_nat (k + n) <= max_retries api) ->
  submit_attempts api net (Raise e) (map Z.of_nat (seq k n)) w = (r, w') ->
  exists tr, trace w' = trace w ++ tr /\ unsent api (Z.of_nat k) tr.
Proof.
  revert k w r w'. induction n as [| n IH]; intros k w r w' Hlast H.
  - cbn in H. finish H. exists []. split; [now rewrite app_nil_r | constructor].
  - cbn [seq map submit_attempts] in H. unfold bind in H.
    destruct (submit_attempt api net (Raise e) (Z.of_nat k) w) as [c w1] eqn:E.
    apply submit_attempt_unsent in E. destruct E as [Hgo Hev].
    assert (Hnext : Z.of_nat (S k) = Z.of_nat k + 1) by lia.
    specialize (Hlast ltac:(lia)).
    destruct c as [[| | id] | e' |].
    1, 2: destruct Hev as [[E1 [Hmax | [e' He']]] | [t E1]]; [| discriminate |];
          [ destruct n as [| n];
            [ cbn in H; finish H; exists []; split; [now rewrite app_nil_r | constructor]
            | lia ]
          | apply IH in H; [| intros; lia]; destruct H as (tr & Ht & Hs);
            rewrite Hnext in Hs; rewrite Ht, E1, <- app_assoc;
            eexists; (split; [reflexivity |]); cbn [app]; now constructor ].
    + now contradiction (Hgo id).
    + finish H. destruct Hev as [[E1 _] | [t E1]]; rewrite E1;
        [exists []; split; [now rewrite app_nil_r | constructor]
        | eexists; split; [reflexivity | repeat constructor]].
    + finish H. destruct Hev as [[E1 _] | [t E1]]; rewrite E1;
        [exists []; split; [now rewrite app_nil_r | constructor]
        | eexists; split; [reflexivity | repeat constructor]].
Qed.

(** With a positive [retry_delay] the sleeps of such runs get longer and
    longer. *)
Lemma spaced_pauses a tr :
  0 < retry_delay api -> 0 <= a -> spaced api a tr ->
  Forall (fun d => backoff_delay api a <= d) (pauses tr)
  /\ StronglySorted Z.lt (pauses tr).
Proof.
  intros Hdelay Ha Hs. induction Hs as [a | a t payload rest _ IH | a t payload t' rest _ IH].
  - split; constructor.
  - destruct (IH ltac:(lia)) as [Hlow Hsorted]. cbn. split; [| exact Hsorted].
    eapply Forall_impl; [exact Hlow |]. unfold backoff_delay. cbn. intros d Hd. nia.
  - destruct (IH ltac:(lia)) as [Hlow Hsorted]. cbn. split.
    + constructor; [lia |].
      eapply Forall_impl; [exact Hlow |]. unfold backoff_delay. cbn. intros d Hd. nia.
    + constructor; [exact Hsorted |].
      eapply Forall_impl; [exact Hlow |]. unfold backoff_delay. cbn. intros d Hd. nia.
Qed.

Lemma unsent_pauses a tr :
  0 < retry_delay api -> 0 <= a -> unsent api a tr ->
  Forall (fun d => backoff_delay api a <= d) (pauses tr)
  /\ StronglySorted Z.lt (pauses tr).
Proof.
  intros Hdelay Ha Hs. induction Hs as [a | a t rest _ IH].
  - split; constructor.
  - destruct (IH ltac:(lia)) as [Hlow Hsorted]. cbn. split.
    + constructor; [lia |].
      eapply Forall_impl; [exact Hlow |]. unfold backoff_delay. cbn. intros d Hd. nia.
    + constructor; [exact Hsorted |].
      eapply Forall_impl; [exact Hlow |]. unfold backoff_delay. cbn. intros d Hd. nia.
Qed.

End Backoff.

(** C6, as the code has it.  With a positive [retry_delay], the delay
    [retry_delay * (attempt + 1)] is positive and strictly larger for each
    further attempt; no setting caps it (it passes every bound as the
    attempts go on).  In a call of [submit_generation] the attempts are
    numbered from 0 and the sleep of attempt [a], when it sleeps, lasts
    exactly [retry_delay * (a + 1)]: it follows the post of that attempt when
    the workflow is sent, and stands alone when the workflow cannot be
    encoded.  So the sleeps of one call get strictly longer, and each is
    positive and at most [retry_delay * max_retries]. *)
Theorem backoff_delay_linear
    (api : QwenImageAPI.QwenImageAPI) (net : script) (workflow : res json)
    (w : world) (r : outcome json) (w' : world) :
  0 < QwenImageAPI.retry_delay api ->
  QwenImageAPI.submit_generation api net workflow w = (r, w') ->
  (forall attempt, 0 <= attempt ->
     0 < QwenImageAPI.backoff_delay api attempt
       < QwenImageAPI.backoff_delay api (attempt + 1))
  /\ (forall cap, exists attempt,
        0 <= attempt /\ cap < QwenImageAPI.backoff_delay api attempt)
  /\ (exists tr,
        trace w' = trace w ++ tr
        /\ Forall (linear_backoff api) tr
        /\ match workflow with
           | Ok _ => spaced api 0 tr
           | Raise _ => unsent api 0 tr
           end
        /\ StronglySorted Z.lt (pauses tr)).
Proof.
  intros Hdelay H. split; [| split].
  - unfold QwenImageAPI.backoff_delay. intros attempt Ha. nia.
  - unfold QwenImageAPI.backoff_delay. intros cap. exists (Z.max 0 cap). split; [lia | nia].
  - pose proof H as Hinv.
    apply submit_generation_inv in Hinv. destruct Hinv as (tr & Ht & _ & _ & _ & _ & HP).
    exists tr. split; [exact Ht |]. split.
    { apply HP.
      - intros t payload. exact I.
      - intros a t Ha Hb. cbn. exists a. unfold QwenImageAPI.backoff_delay.
        repeat split; try lia; nia. }
    unfold QwenImageAPI.submit_generation, QwenImageAPI.range in H.
    destruct workflow as [document | e].
    + apply submit_attempts_spaced in H. destruct H as (tr' & Ht' & Hs).
      rewrite Ht in Ht'. apply app_inv_head in Ht'. subst tr'.
      split; [exact Hs |]. now apply (spaced_pauses api 0 tr Hdelay).
    + apply submit_attempts_unsent in H; [| intros Hn; cbn [Nat.add]; lia].
      destruct H as (tr' & Ht' & Hs).
      rewrite Ht in Ht'. apply app_inv_head in Ht'. subst tr'.
      split; [exact Hs |]. now apply (unsent_pauses api 0 tr Hdelay).
Qed.

(** A service that is rate limited, met with the default settings. *)
Lemma backoff_delay_linear_witness :
  spaced QwenImageAPI.default_api 0
    (trace (snd (QwenImageAPI.submit_generation QwenImageAPI.default_api (always 429)
                   (Ok sample_workflow) dawn)))
  /\ trace (snd (QwenImageAPI.submit_generation QwenImageAPI.default_api (always 429)
                   (Ok sample_workflow) dawn))
     = [Post 0 sample_workflow; Sleep 0 1000;
        Post 1000 sample_workflow; Sleep 1000 2000;
        Post 3000 sample_workflow; Sleep 3000 3000]
  /\ pauses (trace (snd (QwenImageAPI.submit_generation QwenImageAPI.default_api
                           (always 429) (Ok sample_workflow) dawn)))
     = [1000; 2000; 3000].
Proof.
  split; [| split; reflexivity].
  destruct (QwenImageAPI.submit_generation QwenImageAPI.default_api (always 429)
              (Ok sample_workflow) dawn) as [r w'] eqn:E.
  assert (Hdelay : 0 < QwenImageAPI.retry_delay QwenImageAPI.default_api)
    by (cbn; lia).
  destruct (backoff_delay_linear _ _ _ _ _ _ Hdelay E) as (_ & _ & tr & Ht & _ & Hs & _).
  cbn [snd]. rewrite Ht. exact Hs.
Defined.

(** C6 as stated fails.  With [retry_delay = 0] the delay is zero for every
    attempt, and a rate-limited service is called three times in the same
    instant; with the default settings a service that answers 500 is called
    three times with no sleep at all. *)
Lemma backoff_delay_counterexample :
  QwenImageAPI.backoff_delay
    {| QwenImageAPI.timeout := 60; QwenImageAPI.max_retries := 3;
       QwenImageAPI.retry_delay := 0 |} 0 = 0
  /\ QwenImageAPI.backoff_delay
       {| QwenImageAPI.timeout := 60; QwenImageAPI.max_retries := 3;
          QwenImageAPI.retry_delay := 0 |} 2 = 0
  /\ trace (snd (QwenImageAPI.submit_generation
                   {| QwenImageAPI.timeout := 60; QwenImageAPI.max_retries := 3;
                      QwenImageAPI.retry_delay := 0 |}
                   (always 429) (Ok sample_workflow) dawn))
     = [Post 0 sample_workflow; Sleep 0 0;
        Post 0 sample_workflow; Sleep 0 0;
        Post 0 sample_workflow; Sleep 0 0]
  /\ trace (snd (QwenImageAPI.submit_generation QwenImageAPI.default_api
                   (always 500) (Ok sample_workflow) dawn))
     = [Post 0 sample_workflow; Post 0 sample_workflow; Post 0 sample_workflow].
Proof. repeat split. Qed.

(** ** Polling in [quick_start.py] *)

Section QuickPolling.
Import QwenImageGenerator.
Variable timeout : Z.
Variable net : script.

Lemma quick_poll_once_inv id start_time w c w' :
  poll_once net id start_time w = (c, w') ->
  exists tr,
    trace w' = trace w ++ tr
    /\ posts tr = 0%nat
    /\ gets tr = 1%nat
    /\ calls w' = S (calls w)
    /\ now w <= now w'
    /\ c <> Diverge
    /\ (c = Return Continue -> now w + 1000 <= now w')
    /\ (c = Return Break -> broken (net (calls w)))
    /\ (forall result, c = Return (Returns result) -> success result = true)
    /\ forall P : event -> Prop,
         P (Get (now w) id) -> (forall t, P (Sleep t 1000)) -> Forall P tr.
Proof.
  intros H. unfold poll_once, catch, get, bind, lift, ret, raise, time_time in H.
  run H.
  all: finish H.
  all: grown.
  all: repeat split; count; try lia; try discriminate.
  all: try (intros result Hr; inversion Hr; reflexivity).
  all: try (intros P HG HS; repeat constructor; now auto).
  all: intros _; unfold broken.
  all: repeat match goal with
         | E : reply _ = _ |- _ => rewrite E
         | E : (_ =? _) = true |- _ => apply Z.eqb_eq in E
         end; auto.
  all: try match goal with
           | E : read_history _ _ = Raise ?e, E' : is_RequestException ?e = true |- _ =>
               apply quick_read_history_local in E; congruence
           end.
  all: unfold response_json in *;
       match goal with
       | E : match body ?r with _ => _ end = _ |- _ => destruct (body r); now inversion E
       end.
Qed.

Definition quick_enough (fuel : nat) (start_time : Z) (w : world) : Prop :=
  (1 <= fuel)%nat
  /\ timeout * 1000 - (now w - start_time) <= 1000 * (Z.of_nat fuel - 1).

Lemma quick_poll_inv fuel id start_time w r w' :
  poll timeout net fuel id start_time w = (r, w') ->
  exists tr,
    trace w' = trace w ++ tr
    /\ posts tr = 0%nat
    /\ now w <= now w'
    /\ (calls w <= calls w')%nat
    /\ (quick_enough fuel start_time w -> r <> Diverge)
    /\ (forall result, r = Return result ->
          success result = true
          \/ (result = timed_out timeout id
              /\ (timeout * 1000 <= now w' - start_time
                  \/ exists n, (calls w <= n < calls w')%nat /\ broken (net n))))
    /\ forall P : event -> Prop,
         (forall t, now w <= t -> t - start_time < timeout * 1000 -> P (Get t id)) ->
         (forall t, P (Sleep t 1000)) ->
         Forall P tr.
Proof.
  revert w r w'. induction fuel as [| fuel IH]; intros w r w' H.
  - cbn in H. finish H. grown. repeat split; auto; try lia; try discriminate.
    intros [Hf _]. lia.
  - cbn [poll] in H. unfold bind, time_time in H.
    destruct (Z.ltb_spec (now w - start_time) (timeout * 1000)) as [Hlt | Hge].
    + destruct (poll_once net id start_time w) as [c w1] eqn:E.
      apply quick_poll_once_inv in E.
      destruct E as (tr1 & Ht & Hp & _ & Hcalls & Hn & Hd & Hc & Hb & Hs & HP).
      destruct c as [[| | result] | e |].
      * apply IH in H. destruct H as (tr2 & Ht' & Hp' & Hn' & Hcalls' & Hd' & Hr' & HP').
        specialize (Hc eq_refl).
        exists (tr1 ++ tr2). rewrite Ht', Ht, <- app_assoc.
        repeat split; count; try lia; auto.
        -- intros [Hf Hrem]. apply Hd'. unfold quick_enough. split; lia.
        -- intros result Hr. destruct (Hr' result Hr) as [Hok | [Hto [Hlate | (n & Hn1 & Hn2)]]];
             [now left | right; split; auto | right; split; auto].
           right. exists n. split; [lia | auto].
        -- intros P HG HS. apply Forall_app. split.
           ++ apply HP; auto. apply HG; lia.
           ++ apply HP'; auto. intros t Ht1 Ht2. apply HG; lia.
      * finish H. exists tr1. repeat split; auto; try lia; try discriminate.
        -- intros result Hr. inversion Hr; subst. right. split; auto.
           right. exists (calls w). split; [lia | auto].
        -- intros P HG HS. apply HP; auto. apply HG; lia.
      * finish H. exists tr1. repeat split; auto; try lia; try discriminate.
        -- intros result' Hr. inversion Hr; subst. left. now apply Hs.
        -- intros P HG HS. apply HP; auto. apply HG; lia.
      * finish H. exists tr1. repeat split; auto; try lia; try discriminate.
        intros P HG HS. apply HP; auto. apply HG; lia.
      * now contradiction Hd.
    + finish H. grown. repeat split; auto; try lia; try discriminate.
      intros result Hr. inversion Hr; subst. right. split; auto.
Qed.

Lemma quick_wait_for_completion_inv id w r w' :
  wait_for_completion timeout net id w = (r, w') ->
  exists tr,
    trace w' = trace w ++ tr
    /\ posts tr = 0%nat
    /\ now w <= now w'
    /\ r <> Diverge
    /\ (forall result, r = Return result ->
          success result = true
          \/ (result = timed_out timeout id
              /\ (timeout * 1000 <= now w' - now w
                  \/ exists n, (calls w <= n < calls w')%nat /\ broken (net n))))
    /\ forall P : event -> Prop,
         (forall t, now w <= t -> t - now w < timeout * 1000 -> P (Get t id)) ->
         (forall t, P (Sleep t 1000)) ->
         Forall P tr.
Proof.
  unfold wait_for_completion, bind, time_time. intros H.
  apply quick_poll_inv in H. destruct H as (tr & Ht & Hp & Hn & _ & Hd & Hr & HP).
  exists tr. repeat split; auto. apply Hd. unfold quick_enough, poll_fuel. split; lia.
Qed.

End QuickPolling.

(** ** The worker of [batch_generation.py] *)

Section BatchWorker.
Import BatchGenerator.
Variable config : BatchConfig.
Variable env : job.
Variable prompt_data : string * option Z.
Variable job_index : nat.

Definition batch_enough (fuel : nat) (generation_start : Z) (w : world) : Prop :=
  (1 <= fuel)%nat
  /\ timeout config * 1000 - (now w - generation_start) <= 1000 * (Z.of_nat fuel - 1).

(** A result dict of the job, as far as its fixed keys go. *)
Definition of_job (result : Result) : Prop :=
  index result = job_index
  /\ prompt result = fst prompt_data
  /\ seed result = snd prompt_data.

Lemma batch_poll_inv fuel id start_time generation_start w r w' :
  poll config env prompt_data job_index fuel id start_time generation_start w = (r, w') ->
  exists tr,
    trace w' = trace w ++ tr
    /\ posts tr = 0%nat
    /\ now w <= now w'
    /\ (batch_enough fuel generation_start w -> r <> Diverge)
    /\ (forall result, r = Return result ->
          (success result = true /\ error result = None /\ of_job result)
          \/ (result = with_error prompt_data job_index GenerationTimeout
              /\ timeout config * 1000 <= now w' - generation_start))
    /\ forall P : event -> Prop,
         (forall t, now w <= t -> t - generation_start < timeout config * 1000 ->
                    P (Get t id)) ->
         (forall t, P (Sleep t 1000)) ->
         Forall P tr.
Proof.
  revert w r w'. induction fuel as [| fuel IH]; intros w r w' H.
  - cbn in H. finish H. grown. repeat split; auto; try lia; try discriminate.
    intros [Hf _]. lia.
  - cbn [poll] in H. unfold bind, time_time, get, lift, ret, raise in H.
    destruct (Z.ltb_spec (now w - generation_start) (timeout config * 1000)) as [Hlt | Hge].
    + run H.
      all: first
        [ apply IH in H; cbn in H;
          destruct H as (tr2 & Ht' & Hp' & Hn' & Hd' & Hr' & HP');
          eexists; split; [rewrite Ht', <- ?app_assoc; reflexivity |];
          repeat split; count; try lia;
          [ intros [Hf Hrem]; apply Hd'; unfold batch_enough; cbn; split; lia
          | exact Hr'
          | intros P HG HS; repeat (constructor; [first [apply HG; lia | apply HS] |]);
            apply HP'; [intros t Ht1 Ht2; apply HG; lia | exact HS] ]
        | finish H; grown; repeat split; count; try lia; try discriminate;
          try (intros result Hr; inversion Hr; subst; left; now repeat split);
          try (intros P HG HS; repeat constructor; apply HG; lia) ].
    + finish H. grown. repeat split; auto; try lia; try discriminate.
      intros result Hr. inversion Hr; subst. right. split; auto.
Qed.

(** A result dict as [generate_single] leaves it: of its job, and either a
    success without an error or a failure with one. *)
Definition settled (result : Result) : Prop :=
  of_job result
  /\ (success result = true /\ error result = None
      \/ success result = false /\ exists e, error result = Some e).

Lemma settled_with_error e : settled (with_error prompt_data job_index e).
Proof. unfold settled, of_job. cbn. repeat split. right. eauto. Qed.

Opaque poll.

Lemma attempt_inv start_time w r w' :
  attempt config env prompt_data job_index start_time w = (r, w') ->
  (posts (trace w') <= posts (trace w) + 1)%nat
  /\ now w <= now w'
  /\ r <> Diverge
  /\ (forall result, r = Return result -> settled result).
Proof.
  unfold attempt. intros H.
  destruct (load_workflow (file env)) as [workflow |];
    [| finish H; refine (conj _ (conj _ (conj _ _))); try lia; try discriminate;
       intros result Hr; inversion Hr; subst; apply settled_with_error].
  destruct (truthy workflow); cbn [negb] in H;
    [| finish H; refine (conj _ (conj _ (conj _ _))); try lia; try discriminate;
       intros result Hr; inversion Hr; subst; apply settled_with_error].
  unfold bind, post, lift, ret, raise, time_time in H.
  run H.
  all: try (finish H; refine (conj _ (conj _ (conj _ _)));
            count; try lia; try discriminate;
            intros result Hr; inversion Hr; subst; now apply settled_with_error).
  all: apply batch_poll_inv in H; cbn in H;
       destruct H as (tr & Ht & Hp & Hn & Hd & Hr & _);
       rewrite Ht; count;
       refine (conj _ (conj _ (conj _ _))); try lia;
       [ apply Hd; unfold batch_enough, poll_fuel; cbn; split; lia
       | intros result Hres;
         destruct (Hr result Hres) as [(? & ? & ?) | [-> ?]];
         [ split; [assumption | left; now split] | apply settled_with_error ] ].
Qed.

Transparent poll.

(** [generate_single] always returns a result dict of its job: whatever
    happens in its [try] block, an exception included. *)
Lemma generate_single_total w :
  exists result w',
    generate_single config env prompt_data job_index w = (Return result, w')
    /\ settled result.
Proof.
  unfold generate_single, bind, time_time, catch.
  destruct (attempt config env prompt_data job_index (now w) w) as [r w'] eqn:E.
  apply attempt_inv in E. destruct E as (_ & _ & Hd & Hr).
  destruct r as [result | e |].
  - exists result, w'. split; [reflexivity |]. now apply Hr.
  - exists (with_error prompt_data job_index (ExceptionText e)), w'.
    split; [reflexivity | apply settled_with_error].
  - now contradiction Hd.
Qed.

(** An exception raised in the [try] block is the [error] of the result. *)
Lemma generate_single_caught w e w' :
  attempt config env prompt_data job_index (now w) w = (Raised e, w') ->
  generate_single config env prompt_data job_index w
  = (Return (with_error prompt_data job_index (ExceptionText e)), w').
Proof.
  intros E. unfold generate_single, bind, time_time, catch. now rewrite E.
Qed.

End BatchWorker.

(** ** Collecting the futures of a batch *)

Section BatchCollect.
Import BatchGenerator.

(** The result dicts of the futures that returned one. *)
Fixpoint returned (fs : list (nat * future)) : list Result :=
  match fs with
  | [] => []
  | (_, Return result) :: rest => result :: returned rest
  | _ :: rest => returned rest
  end.

Definition success_count (rs : list Result) : Z := Z.of_nat (length (List.filter success rs)).

Lemma successes_app rs rs' : success_count (rs ++ rs') = success_count rs + success_count rs'.
Proof. unfold success_count. rewrite List.filter_app, length_app. lia. Qed.

Lemma collect_all_spec g fs :
  Forall (fun f : nat * future => snd f <> Diverge) fs ->
  exists g',
    collect_all g fs = Some g'
    /\ config g' = config g
    /\ results g' = results g ++ returned fs
    /\ total (stats g') = total (stats g)
    /\ start_time (stats g') = start_time (stats g)
    /\ successful (stats g') = successful (stats g) + success_count (returned fs)
    /\ successful (stats g') + failed (stats g')
       = successful (stats g) + failed (stats g) + Z.of_nat (length fs).
Proof.
  revert g. induction fs as [| [i f] rest IH]; intros g Hf.
  - exists g. cbn. rewrite app_nil_r. unfold success_count. cbn.
    repeat split; lia.
  - inversion Hf as [| ? ? Hd Hrest]; subst. cbn in Hd.
    cbn [collect_all]. unfold collect. cbn [snd].
    destruct f as [result | e |]; [| | now contradiction Hd].
    + match goal with |- context [collect_all ?g1 rest] =>
        destruct (IH g1 Hrest) as (g' & E & Hc & Hr & Ht & Hs & Hsucc & Hsum) end.
      exists g'. rewrite E. cbn in *. rewrite Hr, <- app_assoc. cbn.
      unfold success_count in *. cbn [List.filter].
      destruct (success result); cbn [length] in *; repeat split; auto; lia.
    + match goal with |- context [collect_all ?g1 rest] =>
        destruct (IH g1 Hrest) as (g' & E & Hc & Hr & Ht & Hs & Hsucc & Hsum) end.
      exists g'. rewrite E. cbn in *. repeat split; auto; lia.
Qed.

Lemma returned_perm fs fs' : Permutation fs fs' -> Permutation (returned fs) (returned fs').
Proof.
  induction 1 as [| [i f] l l' _ IH | [i f] [j f'] l | l l' l'' _ IH1 _ IH2]; cbn.
  - constructor.
  - destruct f; auto.
  - destruct f, f'; auto. apply perm_swap.
  - now transitivity (returned l').
Qed.

(** The futures of a batch all return a settled result of their job. *)
Lemma submit_all_returned g b prompts :
  exists rs,
    submit_all g b prompts = imap (fun i r => (i, Return r)) rs
    /\ length rs = length prompts
    /\ forall i r, rs !! i = Some r ->
         exists prompt_data,
           prompts !! i = Some prompt_data
           /\ fst (generate_single (config g) (jobs b i) prompt_data i (start (jobs b i)))
              = Return r
           /\ settled prompt_data i r.
Proof.
  unfold submit_all.
  assert (Hgen : forall (k : nat),
    exists rs,
      imap (fun i prompt_data =>
              (k + i, fst (generate_single (config g) (jobs b (k + i)) prompt_data (k + i)
                             (start (jobs b (k + i)))))%nat) prompts
      = imap (fun i r => ((k + i)%nat, Return r)) rs
      /\ length rs = length prompts
      /\ forall i r, rs !! i = Some r ->
           exists prompt_data,
             prompts !! i = Some prompt_data
             /\ fst (generate_single (config g) (jobs b (k + i)) prompt_data (k + i)
                       (start (jobs b (k + i))))%nat = Return r
             /\ settled prompt_data (k + i) r).
  { induction prompts as [| pd rest IH]; intros k.
    - exists []. repeat split; auto. intros i r Hl. discriminate.
    - destruct (generate_single_total (config g) (jobs b k) pd k (start (jobs b k)))
        as (r0 & w' & E & Hs).
      destruct (IH (S k)) as (rs & Himap & Hlen & Hall).
      exists (r0 :: rs). cbn [imap length]. rewrite Nat.add_0_r, E. cbn [fst].
      split; [| split].
      + f_equal.
        erewrite imap_ext; [erewrite (imap_ext _ _ rs) |];
          [exact Himap | intros; cbn; f_equal; lia | ].
        intros i x _. cbn. now replace (k + S i)%nat with (S k + i)%nat by lia.
      + now rewrite Hlen.
      + intros [| i] r Hl.
        * inversion Hl; subst. exists pd. rewrite Nat.add_0_r, E. auto.
        * cbn in Hl. destruct (Hall i r Hl) as (pd' & H1 & H2 & H3).
          exists pd'. replace (k + S i)%nat with (S k + i)%nat by lia. auto. }
  destruct (Hgen 0%nat) as (rs & H1 & H2 & H3). exists rs. auto.
Qed.

End BatchCollect.

Section BatchRun.
Import BatchGenerator.

Lemma returned_imap (rs : list Result) (k : nat) :
  returned (imap (fun i r => ((k + i)%nat, Return r)) rs) = rs.
Proof.
  revert k. induction rs as [| r rs IH]; intros k; cbn; [reflexivity |].
  f_equal. rewrite <- (IH (S k)) at 2. f_equal. apply imap_ext.
  intros i x _. cbn. f_equal. lia.
Qed.

Lemma no_diverge_imap (rs : list Result) (k : nat) :
  Forall (fun f : nat * future => snd f <> Diverge)
         (imap (fun i r => ((k + i)%nat, Return r)) rs).
Proof.
  revert k. induction rs as [| r rs IH]; intros k; cbn; constructor.
  - cbn. discriminate.
  - erewrite imap_ext; [apply (IH (S k)) |]. intros i x _. cbn. f_equal. lia.
Qed.

Lemma indices_in_order (rs : list Result) (k : nat) :
  (forall i r, rs !! i = Some r -> index r = (k + i)%nat) ->
  map index rs = seq k (length rs).
Proof.
  revert k. induction rs as [| r rs IH]; intros k H; cbn; [reflexivity |].
  f_equal.
  - rewrite (H 0%nat r eq_refl). lia.
  - apply IH. intros i r' Hl. rewrite (H (S i) r' Hl). lia.
Qed.

(** What [run_batch] adds to a generator, whatever it held before: it needs a
    pool ([0 < max_workers]) and every future handed over once. *)
Lemma run_batch_adds (as_completed : list (nat * future) -> list (nat * future))
    (g : BatchGenerator) (b : batch) (prompts : list (string * option Z)) :
  (forall fs, Permutation (as_completed fs) fs) ->
  0 < max_workers (config g) ->
  exists g' new rs,
    run_batch as_completed g b prompts = (Return (results g'), g')
    /\ config g' = config g
    /\ results g' = results g ++ new
    /\ Permutation new rs
    /\ length rs = length prompts
    /\ (forall i r, rs !! i = Some r ->
          exists prompt_data,
            prompts !! i = Some prompt_data
            /\ fst (generate_single (config g) (jobs b i) prompt_data i (start (jobs b i)))
               = Return r
            /\ settled prompt_data i r)
    /\ total (stats g') = Z.of_nat (length prompts)
    /\ total_time (stats g') = batch_ended b - batch_started b
    /\ start_time (stats g') = Some (batch_started b)
    /\ end_time (stats g') = Some (batch_ended b)
    /\ successful (stats g') = successful (stats g) + success_count new
    /\ failed (stats g')
       = failed (stats g) + Z.of_nat (length prompts) - success_count new.
Proof.
  intros Hperm Hpool.
  destruct (submit_all_returned g b prompts) as (rs & Hsub & Hlen & Hall).
  unfold run_batch. rewrite Hsub.
  destruct (Z.leb_spec (max_workers (config g)) 0) as [Hle | _]; [lia |].
  set (fs := imap (fun i r => (i, Return r)) rs).
  destruct (collect_all_spec (announced g b prompts) (as_completed fs))
    as (g2 & E & Hc & Hr & Ht & Hst & Hsucc & Hsum).
  { eapply Permutation_Forall; [symmetry; apply Hperm |].
    apply (no_diverge_imap rs 0). }
  rewrite E. cbn in Hc, Hr, Ht, Hst, Hsucc, Hsum.
  assert (Hnew : Permutation (returned (as_completed fs)) rs).
  { etransitivity; [apply returned_perm, Hperm |].
    replace (returned fs) with rs by (symmetry; apply (returned_imap rs 0)).
    reflexivity. }
  assert (Hcount : length (as_completed fs) = length prompts).
  { rewrite (Permutation_length (Hperm fs)). unfold fs. now rewrite length_imap. }
  eexists _, (returned (as_completed fs)), rs. split; [reflexivity |]. cbn.
  split; [exact Hc |]. split; [exact Hr |]. split; [exact Hnew |].
  split; [exact Hlen |]. split; [exact Hall |].
  repeat split; auto; lia.
Qed.

(** Without a pool [run_batch] raises, having set [start_time] and [total]. *)
Lemma run_batch_without_pool (as_completed : list (nat * future) -> list (nat * future))
    (g : BatchGenerator) (b : batch) (prompts : list (string * option Z)) :
  max_workers (config g) <= 0 ->
  run_batch as_completed g b prompts = (Raised ValueError, announced g b prompts).
Proof.
  intros Hpool. unfold run_batch.
  destruct (Z.leb_spec (max_workers (config g)) 0) as [_ | Hlt]; [reflexivity | lia].
Qed.

(** The results one call adds: one for each job, each of its job and
    settled. *)
Lemma added_results (b : batch) (config : BatchConfig) (prompts : list (string * option Z))
    (new rs : list Result) :
  Permutation new rs ->
  length rs = length prompts ->
  (forall i r, rs !! i = Some r ->
     exists prompt_data,
       prompts !! i = Some prompt_data
       /\ fst (generate_single config (jobs b i) prompt_data i (start (jobs b i))) = Return r
       /\ settled prompt_data i r) ->
  Permutation (map index new) (seq 0 (length prompts))
  /\ Forall (fun r => success r = true /\ error r = None
                      \/ success r = false /\ exists e, error r = Some e) new.
Proof.
  intros Hnew Hlen Hall. split.
  - rewrite <- Hlen, <- (indices_in_order rs 0).
    + now apply Permutation_map.
    + intros i r Hl. destruct (Hall i r Hl) as (pd & _ & _ & [(Hi & _) _]). exact Hi.
  - eapply Permutation_Forall; [symmetry; exact Hnew |].
    apply Forall_lookup. intros i r Hl.
    destruct (Hall i r Hl) as (pd & _ & _ & [_ Hs]). exact Hs.
Qed.

End BatchRun.

(** ** C1 and C7: what [run_batch] leaves *)


(** A service that accepts the job under the handle [id] and has its image
    [name] ready at the first poll. *)
Definition smooth (id name : string) : script :=
  fun n =>
    {| latency := 100;
       reply := inr (match n with
                     | O => accepted id
                     | _ => history_of id [image name]
                     end) |}.

Definition two_prompts : list (string * option Z) :=
  [("A serene mountain landscape", Some 1001); ("A cyberpunk city", None)].

Definition batch_config : BatchGenerator.BatchConfig :=
  {| BatchGenerator.max_workers := 3; BatchGenerator.timeout := 120 |}.

(** A batch whose first job goes smoothly and whose other jobs never reach
    the service. *)
Definition mixed_batch : BatchGenerator.batch :=
  {| BatchGenerator.batch_started := 0;
     BatchGenerator.batch_ended := 500;
     BatchGenerator.jobs := fun i =>
       {| BatchGenerator.started := 0;
          BatchGenerator.file := Some sample_workflow;
          BatchGenerator.net := match i with
                                | O => smooth "abc" "out.png"
                                | _ => unreachable
                                end |} |}.

Lemma rev_completes (fs : list (nat * BatchGenerator.future)) : Permutation (rev fs) fs.
Proof. symmetry. apply Permutation_rev. Defined.



(** The generator after one and after two runs of [mixed_batch]. *)
Definition ran_once : BatchGenerator.BatchGenerator :=
  snd (BatchGenerator.run_batch (@rev _) (BatchGenerator.init batch_config)
         mixed_batch two_prompts).

Definition ran_twice : BatchGenerator.BatchGenerator :=
  snd (BatchGenerator.run_batch (@rev _) ran_once mixed_batch two_prompts).


(** C7.  An exception raised while a worker drives a job (in the [try] block
    of [generate_single]) does not leave the worker.  Whatever the generator
    held before, with a pool ([0 < max_workers]) [run_batch] returns: the
    job's result dict is among the new results with [success = False] and the
    text of the exception as its [error], every job of the batch has its one
    new result, and the failed ones are counted in [failed]. *)
Theorem worker_exception_is_recorded
    (as_completed : list (nat * BatchGenerator.future) -> list (nat * BatchGenerator.future))
    (g : BatchGenerator.BatchGenerator) (b : BatchGenerator.batch)
    (prompts : list (string * option Z))
    (i : nat) (prompt_data : string * option Z) (e : exn) (w' : world) :
  (forall fs, Permutation (as_completed fs) fs) ->
  0 < BatchGenerator.max_workers (BatchGenerator.config g) ->
  prompts !! i = Some prompt_data ->
  BatchGenerator.attempt (BatchGenerator.config g) (BatchGenerator.jobs b i) prompt_data i
    (BatchGenerator.started (BatchGenerator.jobs b i))
    (BatchGenerator.start (BatchGenerator.jobs b i)) = (Raised e, w') ->
  exists g' new,
    BatchGenerator.run_batch as_completed g b prompts
    = (Return (BatchGenerator.results g'), g')
    /\ BatchGenerator.results g' = BatchGenerator.results g ++ new
    /\ In (BatchGenerator.with_error prompt_data i (BatchGenerator.ExceptionText e)) new
    /\ Permutation (map BatchGenerator.index new) (seq 0 (length prompts))
    /\ BatchGenerator.successful (BatchGenerator.stats g')
       = BatchGenerator.successful (BatchGenerator.stats g)
         + Z.of_nat (length (List.filter BatchGenerator.success new))
    /\ BatchGenerator.failed (BatchGenerator.stats g')
       = BatchGenerator.failed (BatchGenerator.stats g)
         + Z.of_nat (length prompts)
         - Z.of_nat (length (List.filter BatchGenerator.success new)).
Proof.
  intros Hperm Hpool Hi Hraise.
  destruct (run_batch_adds as_completed g b prompts Hperm Hpool)
    as (g' & new & rs & E & _ & Hres & Hnew & Hlen & Hall & Ht & _ & _ & _ & Hsucc & Hfail).
  destruct (added_results b _ prompts new rs Hnew Hlen Hall) as [Hidx _].
  exists g', new. split; [exact E |]. split; [exact Hres |].
  split; [| split; [exact Hidx | split; [exact Hsucc | exact Hfail]]].
  assert (Hlt : (i < length rs)%nat).
  { rewrite Hlen. apply lookup_lt_Some in Hi. exact Hi. }
  destruct (lookup_lt_is_Some_2 rs i Hlt) as [r Hr].
  destruct (Hall i r Hr) as (pd & Hpd & Hgen & _).
  rewrite Hi in Hpd. inversion Hpd; subst pd.
  rewrite (generate_single_caught _ _ prompt_data i _ e w' Hraise) in Hgen.
  cbn in Hgen. inversion Hgen; subst r.
  apply list_elem_of_In. rewrite Hnew. apply list_elem_of_lookup. eauto.
Qed.

(** The second job of [mixed_batch] meets a transport error at submission. *)
Lemma worker_exception_is_recorded_witness :
  exists g,
    BatchGenerator.run_batch (@rev _) (BatchGenerator.init batch_config) mixed_batch
      two_prompts = (Return (BatchGenerator.results g), g)
    /\ In (BatchGenerator.with_error ("A cyberpunk city", None) 1
             (BatchGenerator.ExceptionText (RequestException "connection refused")))
          (BatchGenerator.results g)
    /\ length (BatchGenerator.results g) = 2%nat.
Proof.
  destruct (worker_exception_is_recorded (@rev _) (BatchGenerator.init batch_config)
              mixed_batch two_prompts
              1 ("A cyberpunk city", None) (RequestException "connection refused")
              (snd (BatchGenerator.attempt batch_config (BatchGenerator.jobs mixed_batch 1)
                      ("A cyberpunk city", None) 1 0
                      (BatchGenerator.start (BatchGenerator.jobs mixed_batch 1))))
              rev_completes eq_refl eq_refl eq_refl)
    as (g & new & E & Hres & Hin & Hp & _).
  exists g. split; [exact E |]. rewrite Hres. split; [exact Hin |].
  apply Permutation_length in Hp. rewrite length_map in Hp. exact Hp.
Defined.

(** ** C5: a transport error while polling *)

Section PollError.
Variable net : script.
Variable id : json.

(** The world after a status check that met a transport error: the call was
    made and nothing else, no sleep either. *)
Definition after_call (w : world) : world :=
  {| now := now w + Z.of_N (latency (net (calls w)));
     calls := S (calls w);
     trace := trace w ++ [Get (now w) id] |}.

Lemma api_poll_once_transport_error start_time w msg :
  reply (net (calls w)) = inl msg ->
  QwenImageAPI.poll_once net id start_time w = (Return Break, after_call w).
Proof.
  intros Hmsg. unfold QwenImageAPI.poll_once, catch, get, http, bind. cbv zeta.
  rewrite Hmsg. reflexivity.
Qed.

Lemma quick_poll_once_transport_error start_time w msg :
  reply (net (calls w)) = inl msg ->
  QwenImageGenerator.poll_once net id start_time w = (Return Break, after_call w).
Proof.
  intros Hmsg. unfold QwenImageGenerator.poll_once, catch, get, http, bind. cbv zeta.
  rewrite Hmsg. reflexivity.
Qed.

(** A turn of the loop, entered with time left, whose status check meets a
    transport error. *)
Lemma api_poll_transport_error api fuel start_time w msg :
  reply (net (calls w)) = inl msg ->
  now w - start_time < QwenImageAPI.timeout api * 1000 ->
  QwenImageAPI.poll api net (S fuel) id start_time w
  = (Return (QwenImageAPI.timed_out api id), after_call w).
Proof.
  intros Hmsg Ht. cbn [QwenImageAPI.poll]. unfold bind at 1, time_time.
  replace (now w - start_time <? QwenImageAPI.timeout api * 1000) with true
    by (symmetry; apply Z.ltb_lt; lia).
  unfold bind. now rewrite (api_poll_once_transport_error start_time w msg Hmsg).
Qed.

Lemma quick_poll_transport_error timeout fuel start_time w msg :
  reply (net (calls w)) = inl msg ->
  now w - start_time < timeout * 1000 ->
  QwenImageGenerator.poll timeout net (S fuel) id start_time w
  = (Return (QwenImageGenerator.timed_out timeout id), after_call w).
Proof.
  intros Hmsg Ht. cbn [QwenImageGenerator.poll]. unfold bind at 1, time_time.
  replace (now w - start_time <? timeout * 1000) with true
    by (symmetry; apply Z.ltb_lt; lia).
  unfold bind. now rewrite (quick_poll_once_transport_error start_time w msg Hmsg).
Qed.

(** In a whole run of the loop, a status check that meets a transport error
    is the last call of the run, and the run returns the timeout result. *)
Lemma api_poll_error_last api fuel start_time w r w' n msg :
  QwenImageAPI.poll api net fuel id start_time w = (r, w') ->
  (calls w <= n < calls w')%nat ->
  reply (net n) = inl msg ->
  calls w' = S n /\ r = Return (QwenImageAPI.timed_out api id).
Proof.
  revert w. induction fuel as [| fuel IH]; intros w H Hn Hmsg.
  - cbn in H. finish H. lia.
  - destruct (Z.ltb_spec (now w - start_time) (QwenImageAPI.timeout api * 1000))
      as [Hlt | Hge].
    + destruct (reply (net (calls w))) as [msg0 | response] eqn:Hreply.
      * rewrite (api_poll_transport_error api fuel start_time w msg0 Hreply Hlt) in H.
        finish H. split; [lia | reflexivity].
      * assert (Hlater : n <> calls w) by (intros ->; congruence).
        cbn [QwenImageAPI.poll] in H. unfold bind at 1, time_time in H.
        replace (now w - start_time <? QwenImageAPI.timeout api * 1000) with true in H
          by (symmetry; apply Z.ltb_lt; lia).
        unfold bind in H.
        destruct (QwenImageAPI.poll_once net id start_time w) as [c w1] eqn:E.
        apply api_poll_once_inv in E.
        destruct E as (tr1 & _ & _ & _ & Hcalls & _).
        destruct c as [[| | result] | e |].
        -- apply IH in H; [exact H | lia | exact Hmsg].
        -- finish H. lia.
        -- finish H. lia.
        -- finish H. lia.
        -- finish H. lia.
    + cbn [QwenImageAPI.poll] in H. unfold bind, time_time in H.
      replace (now w - start_time <? QwenImageAPI.timeout api * 1000) with false in H
        by (symmetry; apply Z.ltb_ge; lia).
      finish H. lia.
Qed.

Lemma quick_poll_error_last timeout fuel start_time w r w' n msg :
  QwenImageGenerator.poll timeout net fuel id start_time w = (r, w') ->
  (calls w <= n < calls w')%nat ->
  reply (net n) = inl msg ->
  calls w' = S n /\ r = Return (QwenImageGenerator.timed_out timeout id).
Proof.
  revert w. induction fuel as [| fuel IH]; intros w H Hn Hmsg.
  - cbn in H. finish H. lia.
  - destruct (Z.ltb_spec (now w - start_time) (timeout * 1000)) as [Hlt | Hge].
    + destruct (reply (net (calls w))) as [msg0 | response] eqn:Hreply.
      * rewrite (quick_poll_transport_error timeout fuel start_time w msg0 Hreply Hlt) in H.
        finish H. split; [lia | reflexivity].
      * assert (Hlater : n <> calls w) by (intros ->; congruence).
        cbn [QwenImageGenerator.poll] in H. unfold bind at 1, time_time in H.
        replace (now w - start_time <? timeout * 1000) with true in H
          by (symmetry; apply Z.ltb_lt; lia).
        unfold bind in H.
        destruct (QwenImageGenerator.poll_once net id start_time w) as [c w1] eqn:E.
        apply quick_poll_once_inv in E.
        destruct E as (tr1 & _ & _ & _ & Hcalls & _).
        destruct c as [[| | result] | e |].
        -- apply IH in H; [exact H | lia | exact Hmsg].
        -- finish H. lia.
        -- finish H. lia.
        -- finish H. lia.
        -- finish H. lia.
    + cbn [QwenImageGenerator.poll] in H. unfold bind, time_time in H.
      replace (now w - start_time <? timeout * 1000) with false in H
        by (symmetry; apply Z.ltb_ge; lia).
      finish H. lia.
Qed.

End PollError.

(** A service whose first answer is lost and which has the image ready from
    then on. *)
Definition flaky : script :=
  fun n =>
    {| latency := 100;
       reply := match n with
                | O => inl "connection reset"
                | _ => inr (history_of "abc" [image "out.png"])
                end |}.

(** A service that does not know the job at the first poll, whose second
    answer is lost, and which has the image ready from then on. *)
Definition stumbling : script :=
  fun n =>
    {| latency := 100;
       reply := match n with
                | O => inr empty_history
                | S O => inl "connection reset"
                | _ => inr (history_of "abc" [image "out.png"])
                end |}.

(** C5, as the code has it.  At whatever turn of the polling loop (entered
    with time left, at whatever clock reading and after whatever polls), a
    transport error while checking the status ends the wait at once: the loop
    of [wait_for_completion], in [api_integration.py] and in
    [quick_start.py], returns the failure result with error "timeout" right
    after that call, without a sleep or a further poll.  So in every run of
    [wait_for_completion] a status check that meets a transport error is the
    last call of the run, and the run returns that failure result. *)
Theorem poll_error_ends_the_wait
    (api : QwenImageAPI.QwenImageAPI) (timeout : Z) (net : script) (id : json)
    (fuel : nat) (start_time : Z) (w : world) (msg : string) :
  reply (net (calls w)) = inl msg ->
  now w - start_time < QwenImageAPI.timeout api * 1000 ->
  now w - start_time < timeout * 1000 ->
  QwenImageAPI.poll api net (S fuel) id start_time w
  = (Return (QwenImageAPI.timed_out api id), after_call net id w)
  /\ QwenImageGenerator.poll timeout net (S fuel) id start_time w
     = (Return (QwenImageGenerator.timed_out timeout id), after_call net id w)
  /\ gets (trace (after_call net id w)) = S (gets (trace w))
  /\ (forall w0 r w' n msg',
        QwenImageAPI.wait_for_completion api net id w0 = (r, w') ->
        (calls w0 <= n < calls w')%nat ->
        reply (net n) = inl msg' ->
        calls w' = S n /\ r = Return (QwenImageAPI.timed_out api id))
  /\ (forall w0 r w' n msg',
        QwenImageGenerator.wait_for_completion timeout net id w0 = (r, w') ->
        (calls w0 <= n < calls w')%nat ->
        reply (net n) = inl msg' ->
        calls w' = S n /\ r = Return (QwenImageGenerator.timed_out timeout id)).
Proof.
  intros Hmsg Ha Hq. split; [| split; [| split; [| split]]].
  - now apply api_poll_transport_error with (msg := msg).
  - now apply quick_poll_transport_error with (msg := msg).
  - unfold after_call. cbn. count. lia.
  - intros w0 r w' n msg' H Hn Hlost.
    unfold QwenImageAPI.wait_for_completion, bind, time_time in H.
    now apply (api_poll_error_last net id api _ _ _ _ _ n msg' H).
  - intros w0 r w' n msg' H Hn Hlost.
    unfold QwenImageGenerator.wait_for_completion, bind, time_time in H.
    now apply (quick_poll_error_last net id timeout _ _ _ _ _ n msg' H).
Qed.

(** The second poll of a wait meets the transport error, 1.1 seconds after
    the wait began. *)
Lemma poll_error_ends_the_wait_witness :
  QwenImageAPI.wait_for_completion QwenImageAPI.default_api stumbling (JStr "abc") dawn
  = (Return (QwenImageAPI.timed_out QwenImageAPI.default_api (JStr "abc")),
     {| now := 1200; calls := 2;
        trace := [Get 0 (JStr "abc"); Sleep 100 1000; Get 1100 (JStr "abc")] |})
  /\ QwenImageGenerator.wait_for_completion 60 stumbling (JStr "abc") dawn
     = (Return (QwenImageGenerator.timed_out 60 (JStr "abc")),
        {| now := 1200; calls := 2;
           trace := [Get 0 (JStr "abc"); Sleep 100 1000; Get 1100 (JStr "abc")] |}).
Proof.
  destruct (poll_error_ends_the_wait QwenImageAPI.default_api 60 stumbling (JStr "abc")
              59 0
              {| now := 1100; calls := 1; trace := [Get 0 (JStr "abc"); Sleep 100 1000] |}
              "connection reset" eq_refl) as (Ha & Hq & _).
  - cbn. lia.
  - cbn. lia.
  - split.
    + transitivity (QwenImageAPI.poll QwenImageAPI.default_api stumbling 60 (JStr "abc") 0
                      {| now := 1100; calls := 1;
                         trace := [Get 0 (JStr "abc"); Sleep 100 1000] |});
        [reflexivity | exact Ha].
    + transitivity (QwenImageGenerator.poll 60 stumbling 60 (JStr "abc") 0
                      {| now := 1100; calls := 1;
                         trace := [Get 0 (JStr "abc"); Sleep 100 1000] |});
        [reflexivity | exact Hq].
Defined.

(** C5 as stated fails: one lost answer makes the job fail, although the
    very next poll would have found the image. *)
Lemma poll_error_counterexample :
  fst (QwenImageAPI.wait_for_completion QwenImageAPI.default_api flaky (JStr "abc") dawn)
  = Return {| QwenImageAPI.success := false;
              QwenImageAPI.prompt_id := Some (JStr "abc");
              QwenImageAPI.generation_time := Some 60000;
              QwenImageAPI.images := None;
              QwenImageAPI.error := Some "timeout" |}
  /\ gets (trace (snd (QwenImageAPI.wait_for_completion QwenImageAPI.default_api flaky
                         (JStr "abc") dawn))) = 1%nat
  /\ fst (QwenImageGenerator.wait_for_completion 60 flaky (JStr "abc") dawn)
     = Return {| QwenImageGenerator.prompt_id := JStr "abc";
                 QwenImageGenerator.images := None;
                 QwenImageGenerator.generation_time := 60000;
                 QwenImageGenerator.success := false;
                 QwenImageGenerator.error := Some "timeout" |}
  /\ fst (QwenImageAPI.wait_for_completion QwenImageAPI.default_api flaky (JStr "abc")
            {| now := 100; calls := 1; trace := [] |})
     = Return {| QwenImageAPI.success := true;
                 QwenImageAPI.prompt_id := Some (JStr "abc");
                 QwenImageAPI.generation_time := Some 100;
                 QwenImageAPI.images := Some [image "out.png"];
                 QwenImageAPI.error := None |}.
Proof. repeat split. Qed.

(** ** C4: a history without the job *)

Section NotFound.
Variable net : script.
Variable id : json.
Variable w : world.
Variable response : response.
Variable history : json.
Hypothesis answered : reply (net (calls w)) = inr response.
Hypothesis status_ok : status_code response = 200.
Hypothesis decoded : body response = Some history.
Hypothesis not_found : contains id history = Ok false.

(** The world after the poll and the second of sleep that follows it. *)
Definition after_miss : world :=
  {| now := now w + Z.of_N (latency (net (calls w))) + 1000;
     calls := S (calls w);
     trace := trace w ++ [Get (now w) id;
                          Sleep (now w + Z.of_N (latency (net (calls w)))) 1000] |}.

Lemma quick_poll_not_found timeout fuel start_time :
  now w - start_time < timeout * 1000 ->
  QwenImageGenerator.poll timeout net (S fuel) id start_time w
  = QwenImageGenerator.poll timeout net fuel id start_time after_miss.
Proof.
  intros Ht. cbn [QwenImageGenerator.poll]. unfold bind at 1, time_time.
  replace (now w - start_time <? timeout * 1000) with true
    by (symmetry; apply Z.ltb_lt; lia).
  unfold bind at 1.
  unfold QwenImageGenerator.poll_once, catch, get, http, bind. cbv zeta.
  rewrite answered. cbv iota beta. rewrite status_ok. cbn [Z.eqb Pos.eqb].
  unfold lift, response_json. rewrite decoded.
  unfold QwenImageGenerator.read_history.
  cbn -[contains QwenImageGenerator.poll Z.add Z.of_N]. rewrite not_found.
  cbn. unfold after_miss. rewrite <- app_assoc. reflexivity.
Qed.

Lemma api_poll_not_found api fuel start_time :
  now w - start_time < QwenImageAPI.timeout api * 1000 ->
  QwenImageAPI.poll api net (S fuel) id start_time w
  = QwenImageAPI.poll api net fuel id start_time after_miss.
Proof.
  intros Ht. cbn [QwenImageAPI.poll]. unfold bind at 1, time_time.
  replace (now w - start_time <? QwenImageAPI.timeout api * 1000) with true
    by (symmetry; apply Z.ltb_lt; lia).
  unfold bind at 1.
  unfold QwenImageAPI.poll_once, catch, get, http, bind. cbv zeta.
  rewrite answered. cbv iota beta. rewrite status_ok. cbn [Z.eqb Pos.eqb].
  unfold lift, response_json. rewrite decoded.
  unfold QwenImageAPI.read_history.
  cbn -[contains QwenImageAPI.poll Z.add Z.of_N]. rewrite not_found.
  cbn. unfold after_miss. rewrite <- app_assoc. reflexivity.
Qed.

Lemma batch_poll_not_found config env prompt_data job_index fuel start_time generation_start :
  BatchGenerator.net env = net ->
  now w - generation_start < BatchGenerator.timeout config * 1000 ->
  BatchGenerator.poll config env prompt_data job_index (S fuel) id start_time
    generation_start w
  = BatchGenerator.poll config env prompt_data job_index fuel id start_time
      generation_start after_miss.
Proof.
  intros Hnet Ht. cbn [BatchGenerator.poll]. unfold bind at 1, time_time.
  replace (now w - generation_start <? BatchGenerator.timeout config * 1000) with true
    by (symmetry; apply Z.ltb_lt; lia).
  rewrite Hnet. unfold get, http, bind. cbv zeta.
  rewrite answered. cbv iota beta. rewrite status_ok. cbn [Z.eqb Pos.eqb].
  unfold lift, response_json. rewrite decoded.
  unfold BatchGenerator.read_history.
  cbn -[contains BatchGenerator.poll Z.add Z.of_N]. rewrite not_found.
  cbn. unfold after_miss. rewrite <- app_assoc. reflexivity.
Qed.

End NotFound.

(** A service whose history is still empty at the first poll and has the
    image at the second. *)
Definition late : script :=
  fun n =>
    {| latency := 100;
       reply := inr (match n with
                     | O => empty_history
                     | _ => history_of "abc" [image "out.png"]
                     end) |}.

(** The same service, asked to accept the job first. *)
Definition accepted_late : script :=
  fun n =>
    {| latency := 100;
       reply := inr (match n with
                     | O => accepted "abc"
                     | S n' => match n' with
                               | O => empty_history
                               | _ => history_of "abc" [image "out.png"]
                               end
                     end) |}.

Definition late_job : BatchGenerator.job :=
  {| BatchGenerator.started := 0;
     BatchGenerator.file := Some sample_workflow;
     BatchGenerator.net := late |}.

(** C4, as the code has it.  A poll answered with a history that does not
    contain the job's handle is taken as "not finished yet": the job is not
    failed, the loop sleeps one second and goes on polling as before, in
    [quick_start.py] and in [batch_generation.py] alike.  A result the loop
    returns after such a poll is a success or the timeout failure, and the
    timeout failure only once the timeout has passed or, in [quick_start.py],
    when a later call was broken (a transport error, or an answer that is
    not JSON). *)
Theorem missing_job_is_polled_again
    (timeout : Z) (config : BatchGenerator.BatchConfig) (env : BatchGenerator.job)
    (prompt_data : string * option Z) (job_index : nat)
    (fuel : nat) (start_time generation_start : Z)
    (id : json) (w : world) (response : response) (history : json) :
  reply (BatchGenerator.net env (calls w)) = inr response ->
  status_code response = 200 ->
  body response = Some history ->
  contains id history = Ok false ->
  now w - start_time < timeout * 1000 ->
  now w - generation_start < BatchGenerator.timeout config * 1000 ->
  QwenImageGenerator.poll timeout (BatchGenerator.net env) (S fuel) id start_time w
  = QwenImageGenerator.poll timeout (BatchGenerator.net env) fuel id start_time
      (after_miss (BatchGenerator.net env) id w)
  /\ BatchGenerator.poll config env prompt_data job_index (S fuel) id start_time
       generation_start w
     = BatchGenerator.poll config env prompt_data job_index fuel id start_time
         generation_start (after_miss (BatchGenerator.net env) id w)
  /\ (forall result w',
        QwenImageGenerator.poll timeout (BatchGenerator.net env) (S fuel) id start_time w
        = (Return result, w') ->
        QwenImageGenerator.success result = true
        \/ (result = QwenImageGenerator.timed_out timeout id
            /\ (timeout * 1000 <= now w' - start_time
                \/ exists n, (calls w < n < calls w')%nat
                             /\ broken (BatchGenerator.net env n))))
  /\ (forall result w',
        BatchGenerator.poll config env prompt_data job_index (S fuel) id start_time
          generation_start w = (Return result, w') ->
        (BatchGenerator.success result = true /\ BatchGenerator.error result = None)
        \/ (result = BatchGenerator.with_error prompt_data job_index
                       BatchGenerator.GenerationTimeout
            /\ BatchGenerator.timeout config * 1000 <= now w' - generation_start)).
Proof.
  intros Hr Hs Hb Hc Hq Hg.
  assert (Equick := quick_poll_not_found (BatchGenerator.net env) id w response history
                      Hr Hs Hb Hc timeout fuel start_time Hq).
  assert (Ebatch := batch_poll_not_found (BatchGenerator.net env) id w response history
                      Hr Hs Hb Hc config env prompt_data job_index fuel start_time
                      generation_start eq_refl Hg).
  split; [exact Equick |]. split; [exact Ebatch |]. split.
  - intros result w' H. rewrite Equick in H. apply quick_poll_inv in H.
    destruct H as (tr & _ & _ & _ & _ & _ & Hres & _).
    destruct (Hres result eq_refl) as [Hok | [Hto [Hlate | (n & Hn & Hbroken)]]].
    + now left.
    + right. split; [exact Hto | now left].
    + right. split; [exact Hto |]. right. exists n. split; [| exact Hbroken].
      cbn in Hn. lia.
  - intros result w' H. rewrite Ebatch in H. apply batch_poll_inv in H.
    destruct H as (tr & _ & _ & _ & _ & Hres & _).
    destruct (Hres result eq_refl) as [(Hok & Herr & _) | [Hto Hlate]].
    + left. now split.
    + right. now split.
Qed.

Lemma missing_job_is_polled_again_witness :
  QwenImageGenerator.poll 60 late 61 (JStr "abc") 0 dawn
  = QwenImageGenerator.poll 60 late 60 (JStr "abc") 0
      {| now := 1100; calls := 1;
         trace := [Get 0 (JStr "abc"); Sleep 100 1000] |}
  /\ BatchGenerator.poll batch_config late_job ("A cyberpunk city", None) 0 61
       (JStr "abc") 0 0 dawn
     = BatchGenerator.poll batch_config late_job ("A cyberpunk city", None) 0 60
         (JStr "abc") 0 0
         {| now := 1100; calls := 1;
            trace := [Get 0 (JStr "abc"); Sleep 100 1000] |}.
Proof.
  destruct (missing_job_is_polled_again 60 batch_config late_job ("A cyberpunk city", None)
              0 60 0 0 (JStr "abc") dawn empty_history (JObj []))
    as (Hquick & Hbatch & _).
  - reflexivity.
  - reflexivity.
  - reflexivity.
  - reflexivity.
  - cbn. lia.
  - cbn. lia.
  - split; [exact Hquick | exact Hbatch].
Defined.

(** C4 as stated fails: the first poll does not find the job, and the job
    still succeeds at the second poll. *)
Lemma missing_job_counterexample :
  QwenImageGenerator.wait_for_completion 60 late (JStr "abc") dawn
  = (Return {| QwenImageGenerator.prompt_id := JStr "abc";
               QwenImageGenerator.images := Some (JList [image "out.png"]);
               QwenImageGenerator.generation_time := 1200;
               QwenImageGenerator.success := true;
               QwenImageGenerator.error := None |},
     {| now := 1200; calls := 2;
        trace := [Get 0 (JStr "abc"); Sleep 100 1000; Get 1100 (JStr "abc")] |})
  /\ contains (JStr "abc") (JObj []) = Ok false
  /\ fst (BatchGenerator.generate_single batch_config
            {| BatchGenerator.started := 0;
               BatchGenerator.file := Some sample_workflow;
               BatchGenerator.net := accepted_late |}
            ("A cyberpunk city", None) 0 dawn)
     = Return {| BatchGenerator.index := 0;
                 BatchGenerator.prompt := "A cyberpunk city";
                 BatchGenerator.seed := None;
                 BatchGenerator.success := true;
                 BatchGenerator.filename := Some (JStr "out.png");
                 BatchGenerator.generation_time := 1300;
                 BatchGenerator.error := None;
                 BatchGenerator.prompt_id := Some (JStr "abc") |}.
Proof. repeat split. Qed.

(** ** C3: where the time budget starts *)


Section ApiBudget.
Import QwenImageAPI.
Variable api : QwenImageAPI.
Variable net : script.


End ApiBudget.

Section BatchBudget.
Import BatchGenerator.
Variable config : BatchConfig.
Variable env : job.
Variable prompt_data : string * option Z.
Variable job_index : nat.

(** The clock when the answer to the submission is in. *)
Definition accepted_at (w : world) : Z :=
  now w + Z.of_N (latency (net env (calls w))).

Opaque poll.


Transparent poll.


End BatchBudget.





(** The document [generate_image] submits for the sample request. *)
Definition sample_payload : res json :=
  match payload_of (Some sample_workflow) sample_request 0 with
  | Some payload => payload
  | None => Raise ValueError
  end.





(** ** C8: the summaries of a batch without a success *)

Lemma truediv_nonzero (a : Q) (n : Z) :
  n <> 0 -> Statistics.truediv a (inject_Z n) = Ok (Qdiv a (inject_Z n)).
Proof.
  intros Hn. unfold Statistics.truediv.
  destruct (Qeq_bool (inject_Z n) (inject_Z 0)) eqn:E; [| reflexivity].
  apply Qeq_bool_eq in E. unfold Qeq in E. cbn in E. lia.
Qed.

Lemma collect_all_keeps g fs g' :
  BatchGenerator.collect_all g fs = Some g' ->
  BatchGenerator.total (BatchGenerator.stats g') = BatchGenerator.total (BatchGenerator.stats g)
  /\ BatchGenerator.start_time (BatchGenerator.stats g')
     = BatchGenerator.start_time (BatchGenerator.stats g).
Proof.
  revert g. induction fs as [| [i f] rest IH]; intros g H; cbn in H.
  - inversion H; subst. auto.
  - unfold BatchGenerator.collect in H. cbn [snd] in H.
    destruct f as [result | e |]; [| | discriminate];
      apply IH in H; cbn in H; exact H.
Qed.

Lemma usage_nonempty (xs : list Q) :
  PerformanceBenchmark.nonempty xs = true ->
  exists u, PerformanceBenchmark.usage xs = Ok u.
Proof.
  destruct xs as [| x rest]; [discriminate |]. intros _.
  unfold PerformanceBenchmark.usage. cbn. eauto.
Qed.

Lemma sum_times_failed (rs : list QwenImageAPI.GenerationResult) :
  Forall (fun x => QwenImageAPI.success x = false) rs ->
  QwenImageAPI.sum_times rs = Ok 0
  /\ List.filter QwenImageAPI.success rs = [].
Proof.
  induction 1 as [| x rest Hx _ [IH1 IH2]]; cbn; [auto |].
  rewrite Hx. auto.
Qed.

(** C8.  For a batch that [run_batch] has completed (the call returned, on
    whatever generator), with at least one job and no success counted,
    [print_summary] raises nothing: the success rate is 0
    and the block of generation times is left out.  The same holds for the
    batch summary of [api_integration.py] (the average is N/A) and for
    [calculate_statistics] of the benchmark (no time statistics). *)
Theorem summary_without_success
    (as_completed : list (nat * BatchGenerator.future) -> list (nat * BatchGenerator.future))
    (g0 : BatchGenerator.BatchGenerator) (b : BatchGenerator.batch)
    (prompts : list (string * option Z))
    (returned_results : list BatchGenerator.Result) (g : BatchGenerator.BatchGenerator)
    (batch_results : list QwenImageAPI.GenerationResult)
    (r : PerformanceBenchmark.Results) :
  BatchGenerator.run_batch as_completed g0 b prompts = (Return returned_results, g) ->
  prompts <> [] ->
  BatchGenerator.successful (BatchGenerator.stats g) = 0 ->
  Forall (fun x => QwenImageAPI.success x = false) batch_results ->
  1 <= PerformanceBenchmark.total_requests r ->
  PerformanceBenchmark.generation_times r = [] ->
  (exists s,
     BatchGenerator.print_summary g = Ok s
     /\ BatchGenerator.generation_times s = None
     /\ Qeq (BatchGenerator.success_rate s) (inject_Z 0))
  /\ (exists s,
        QwenImageAPI.batch_summary batch_results = Ok s
        /\ QwenImageAPI.average_time s = None
        /\ QwenImageAPI.successful s = 0%nat)
  /\ (exists report,
        PerformanceBenchmark.calculate_statistics r = Ok report
        /\ PerformanceBenchmark.times report = None
        /\ PerformanceBenchmark.grades (PerformanceBenchmark.assessment report) = None).
Proof.
  intros Hrun Hne Hzero Hfailed Htotal Hnone. split; [| split].
  - unfold BatchGenerator.run_batch in Hrun.
    destruct (BatchGenerator.max_workers (BatchGenerator.config g0) <=? 0);
      [discriminate |].
    destruct (BatchGenerator.collect_all _ _) as [g2 |] eqn:E; [| discriminate].
    apply collect_all_keeps in E. cbn in E. destruct E as (Ht & Hs).
    inversion Hrun; subst g returned_results. cbn in Hzero.
    assert (Hlen : Z.of_nat (length prompts) <> 0).
    { destruct prompts; [now contradiction Hne | cbn; lia]. }
    unfold BatchGenerator.print_summary. cbn.
    rewrite Ht, Hs, Hzero, !truediv_nonzero by exact Hlen. cbn.
    eexists. split; [reflexivity |]. split; [reflexivity |]. cbn.
    unfold Qeq. cbn. lia.
  - destruct (sum_times_failed batch_results Hfailed) as [Hsum Hfil].
    unfold QwenImageAPI.batch_summary. rewrite Hsum, Hfil. cbn.
    eexists. repeat split.
  - unfold PerformanceBenchmark.calculate_statistics.
    replace (0 <? PerformanceBenchmark.total_requests r) with true
      by (symmetry; apply Z.ltb_lt; lia).
    rewrite truediv_nonzero by lia. cbn. rewrite Hnone. cbn.
    unfold PerformanceBenchmark.assess_performance. cbn.
    destruct (PerformanceBenchmark.nonempty (PerformanceBenchmark.memory_usage r)) eqn:Em;
      [destruct (usage_nonempty _ Em) as [um ->] |];
      (destruct (PerformanceBenchmark.nonempty (PerformanceBenchmark.gpu_usage r)) eqn:Eg;
       [destruct (usage_nonempty _ Eg) as [ug ->] |]);
      cbn; eexists; repeat split.
Qed.

Definition failed_batch : BatchGenerator.batch :=
  {| BatchGenerator.batch_started := 0;
     BatchGenerator.batch_ended := 500;
     BatchGenerator.jobs := fun _ =>
       {| BatchGenerator.started := 0;
          BatchGenerator.file := Some sample_workflow;
          BatchGenerator.net := unreachable |} |}.

(** What [run_batch] leaves of [failed_batch]. *)
Definition failed_generator : BatchGenerator.BatchGenerator :=
  snd (BatchGenerator.run_batch (@rev _) (BatchGenerator.init batch_config) failed_batch
         two_prompts).

Definition failed_benchmark : PerformanceBenchmark.Results :=
  {| PerformanceBenchmark.generation_times := [];
     PerformanceBenchmark.memory_usage := [];
     PerformanceBenchmark.gpu_usage := [];
     PerformanceBenchmark.success_rate := inject_Z 0;
     PerformanceBenchmark.total_requests := 2;
     PerformanceBenchmark.failed_requests := 2 |}.

Lemma summary_without_success_witness :
  (exists s,
     BatchGenerator.print_summary failed_generator = Ok s
     /\ BatchGenerator.generation_times s = None
     /\ BatchGenerator.failures s = 2)
  /\ (exists s,
        QwenImageAPI.batch_summary [QwenImageAPI.failure "Failed to load workflow"] = Ok s
        /\ QwenImageAPI.average_time s = None)
  /\ (exists report,
        PerformanceBenchmark.calculate_statistics failed_benchmark = Ok report
        /\ PerformanceBenchmark.times report = None).
Proof.
  destruct (summary_without_success (@rev _) (BatchGenerator.init batch_config)
              failed_batch two_prompts
              (BatchGenerator.results failed_generator) failed_generator
              [QwenImageAPI.failure "Failed to load workflow"]
              failed_benchmark)
    as [(s & Hs & Hnone & _) [(s' & Hs' & Havg & _) (report & Hr & Ht & _)]].
  - reflexivity.
  - discriminate.
  - reflexivity.
  - repeat constructor.
  - cbn. lia.
  - reflexivity.
  - split; [| split].
    + exists s. split; [exact Hs |]. split; [exact Hnone |].
      revert Hs. vm_compute. intros Hs. inversion Hs. reflexivity.
    + exists s'. split; [exact Hs' | exact Havg].
    + exists report. split; [exact Hr | exact Ht].
Defined.

(** ** C10: [prepare_workflow] and the objects of its caller *)

Section JsonInduction.
Variable P : json -> Prop.
Hypothesis HNull : P JNull.
Hypothesis HBool : forall b, P (JBool b).
Hypothesis HInt : forall n, P (JInt n).
Hypothesis HFloat : forall q, P (JFloat q).
Hypothesis HStr : forall s, P (JStr s).
Hypothesis HList : forall xs, Forall P xs -> P (JList xs).
Hypothesis HObj : forall kvs, Forall (fun kv => P (snd kv)) kvs -> P (JObj kvs).

(** Induction on documents, with the parts of a list or a dict. *)
Fixpoint json_parts_ind (j : json) : P j :=
  match j with
  | JNull => HNull
  | JBool b => HBool b
  | JInt n => HInt n
  | JFloat q => HFloat q
  | JStr s => HStr s
  | JList xs =>
      HList xs
        ((fix parts (xs : list json) : Forall P xs :=
            match xs with
            | [] => List.Forall_nil P
            | x :: rest => @List.Forall_cons _ P x rest (json_parts_ind x) (parts rest)
            end) xs)
  | JObj kvs =>
      HObj kvs
        ((fix parts (kvs : list (string * json)) : Forall (fun kv => P (snd kv)) kvs :=
            match kvs with
            | [] => List.Forall_nil _
            | kv :: rest =>
                @List.Forall_cons _ (fun kv => P (snd kv)) kv rest (json_parts_ind (snd kv)) (parts rest)
            end) kvs)
  end.

End JsonInduction.

Section Freshness.
Import Store.

(** A value that refers to no object older than the [n]-th. *)
Definition val_fresh (n : nat) (v : pyval) : Prop :=
  match v with
  | VRef l => (n <= l)%nat
  | _ => True
  end.

(** An object whose parts are such values. *)
Definition obj_fresh (n : nat) (o : pyobj) : Prop :=
  match o with
  | ODict kvs => Forall (fun kv => val_fresh n (snd kv)) kvs
  | OList xs => Forall (val_fresh n) xs
  end.

(** The store [h] still has the objects of [h0] as they were, and the
    objects added since refer to added objects only. *)
Definition separate (h0 h : heap) : Prop :=
  exists ext, h = h0 ++ ext /\ Forall (obj_fresh (length h0)) ext.

Lemma val_fresh_le n m v : (m <= n)%nat -> val_fresh n v -> val_fresh m v.
Proof. destruct v; cbn; auto. lia. Qed.

Lemma obj_fresh_le n m o : (m <= n)%nat -> obj_fresh n o -> obj_fresh m o.
Proof.
  intros Hle. destruct o as [kvs | xs]; cbn; intros H;
    eapply Forall_impl; try exact H; cbn; intros; eapply val_fresh_le; eauto.
Qed.

Lemma separate_refl h : separate h h.
Proof. exists []. split; [now rewrite app_nil_r | constructor]. Qed.

Lemma separate_old h0 h l o : separate h0 h -> h0 !! l = Some o -> h !! l = Some o.
Proof.
  unfold heap in *. intros (ext & -> & _) Hl. rewrite lookup_app_l; [exact Hl |].
  now apply lookup_lt_Some in Hl.
Qed.

Lemma separate_new h0 h l o :
  separate h0 h -> (length h0 <= l)%nat -> h !! l = Some o -> obj_fresh (length h0) o.
Proof.
  unfold heap in *. intros (ext & -> & HF) Hle Hl. rewrite lookup_app_r in Hl by exact Hle.
  rewrite Forall_lookup in HF. eapply HF. exact Hl.
Qed.

Lemma separate_insert h0 h l o :
  separate h0 h -> (length h0 <= l)%nat -> obj_fresh (length h0) o ->
  separate h0 (<[l := o]> h).
Proof.
  unfold heap in *. intros (ext & -> & HF) Hle Ho.
  exists (<[(l - length h0)%nat := o]> ext). split.
  - now apply insert_app_r_alt.
  - now apply Forall_insert.
Qed.

Lemma separate_length h0 h : separate h0 h -> (length h0 <= length h)%nat.
Proof. intros (ext & -> & _). rewrite length_app. lia. Qed.

Lemma assoc_Forall {A} (P : A -> Prop) k (kvs : list (string * A)) v :
  Forall (fun kv => P (snd kv)) kvs -> assoc k kvs = Some v -> P v.
Proof.
  induction 1 as [| [k' v'] rest Hx _ IH]; cbn; [discriminate |].
  destruct (String.eqb k k'); [intros E; inversion E; subst; exact Hx | exact IH].
Qed.

Lemma assoc_set_Forall {A} (P : A -> Prop) k v (kvs : list (string * A)) :
  Forall (fun kv => P (snd kv)) kvs -> P v ->
  Forall (fun kv => P (snd kv)) (assoc_set k v kvs).
Proof.
  intros HF Hv. induction HF as [| [k' v'] rest Hx Hrest IH]; cbn.
  - repeat constructor. exact Hv.
  - destruct (String.eqb k k'); constructor; auto.
Qed.

Lemma assoc_update_Forall {A} (P : A -> Prop) (items kvs : list (string * A)) :
  Forall (fun kv => P (snd kv)) kvs -> Forall (fun kv => P (snd kv)) items ->
  Forall (fun kv => P (snd kv)) (assoc_update items kvs).
Proof.
  intros HF HI. revert kvs HF. unfold assoc_update.
  induction HI as [| [k v] rest Hx _ IH]; intros kvs HF; cbn; [exact HF |].
  apply IH. now apply assoc_set_Forall.
Qed.

Lemma thread_separate {A B} (f : A -> heap -> heap * B) (Q : nat -> B -> Prop) xs :
  (forall n m b, (m <= n)%nat -> Q n b -> Q m b) ->
  Forall (fun x => forall h, separate h (fst (f x h)) /\ Q (length h) (snd (f x h))) xs ->
  forall h, separate h (fst (thread f xs h))
            /\ Forall (Q (length h)) (snd (thread f xs h)).
Proof.
  intros Hmono HF. induction HF as [| x rest Hx _ IH]; intros h; cbn.
  - split; [apply separate_refl | constructor].
  - destruct (Hx h) as [Hs1 Hv1]. destruct (f x h) as [h1 v]. cbn in Hs1, Hv1.
    destruct (IH h1) as [Hs2 Hv2]. destruct (thread f rest h1) as [h2 vs].
    cbn in Hs2, Hv2 |- *.
    pose proof (separate_length _ _ Hs1) as Hlen.
    unfold heap in *.
    destruct Hs1 as (e1 & -> & HF1). destruct Hs2 as (e2 & -> & HF2).
    split.
    + exists (e1 ++ e2). rewrite <- app_assoc. split; [reflexivity |].
      apply Forall_app. split; [exact HF1 |].
      eapply Forall_impl; [exact HF2 |]. intros o. now apply obj_fresh_le.
    + constructor; [exact Hv1 |].
      eapply Forall_impl; [exact Hv2 |]. intros v'. now apply Hmono.
Qed.

(** [json.loads] only adds objects, and they refer to added objects. *)
Lemma loads_separate j :
  forall h, separate h (fst (loads j h)) /\ val_fresh (length h) (snd (loads j h)).
Proof.
  induction j as [| b | n | q | s | xs IH | kvs IH] using json_parts_ind; intros h;
    try (cbn; split; [apply separate_refl | exact I]).
  - cbn [loads].
    destruct (thread_separate loads val_fresh xs val_fresh_le IH h) as [Hs Hv].
    destruct (thread loads xs h) as [h' vs]. cbn in Hs, Hv |- *.
    pose proof (separate_length _ _ Hs) as Hlen. unfold heap in *.
    destruct Hs as (e & -> & HF). split.
    + exists (e ++ [OList vs]). rewrite <- app_assoc. split; [reflexivity |].
      apply Forall_app. split; [exact HF |]. repeat constructor. exact Hv.
    + exact Hlen.
  - cbn [loads].
    match goal with |- context [thread ?f kvs h] =>
      destruct (thread_separate f (fun n kv => val_fresh n (snd kv)) kvs) with (h := h)
        as [Hs Hv]
    end.
    { intros n m b Hle. now apply val_fresh_le. }
    { eapply Forall_impl; [exact IH |]. intros [k x] Hx h0. cbn in Hx.
      destruct (Hx h0) as [H1 H2]. destruct (loads x h0) as [h1 v]. auto. }
    match goal with |- context [thread ?f kvs h] =>
      destruct (thread f kvs h) as [h' fs]
    end.
    cbn in Hs, Hv |- *.
    pose proof (separate_length _ _ Hs) as Hlen. unfold heap in *.
    destruct Hs as (e & -> & HF). split.
    + exists (e ++ [ODict fs]). rewrite <- app_assoc. split; [reflexivity |].
      apply Forall_app. split; [exact HF |]. repeat constructor. exact Hv.
    + exact Hlen.
Qed.

End Freshness.

Section StoreUpdates.
Import Store.

Lemma getitem_fresh h0 h v k v' :
  separate h0 h -> val_fresh (length h0) v -> getitem h v k = Ok v' ->
  val_fresh (length h0) v'.
Proof.
  intros Hs Hv. destruct v as [| | | | | l]; cbn; try discriminate.
  destruct (h !! l) as [[kvs | xs] |] eqn:Hl; try discriminate.
  destruct (assoc k kvs) as [x |] eqn:Ha; [| discriminate].
  intros E. inversion E; subst.
  pose proof (separate_new _ _ _ _ Hs Hv Hl) as Ho. cbn in Ho.
  exact (assoc_Forall _ _ _ _ Ho Ha).
Qed.

Lemma getpath_fresh h0 h ks : forall v v',
  separate h0 h -> val_fresh (length h0) v -> getpath h v ks = Ok v' ->
  val_fresh (length h0) v'.
Proof.
  induction ks as [| k ks IH]; intros v v' Hs Hv; cbn.
  - intros E. now inversion E; subst.
  - destruct (getitem h v k) as [x |] eqn:E; [| discriminate]. cbn.
    apply IH; auto. eapply getitem_fresh; eauto.
Qed.

Lemma part_fresh h0 h v s v' :
  separate h0 h -> val_fresh (length h0) v -> part h v s = Some v' ->
  val_fresh (length h0) v'.
Proof.
  intros Hs Hv. destruct v as [| | | | | l]; cbn; try discriminate.
  destruct (h !! l) as [[kvs | xs] |] eqn:Hl; try discriminate;
    pose proof (separate_new _ _ _ _ Hs Hv Hl) as Ho; cbn in Ho;
    destruct s as [k | i]; try discriminate; intros E.
  - exact (assoc_Forall _ _ _ _ Ho E).
  - rewrite Forall_lookup in Ho. exact (Ho _ _ E).
Qed.

Lemma reach_fresh h0 h p : forall v v',
  separate h0 h -> val_fresh (length h0) v -> reach h v p = Some v' ->
  val_fresh (length h0) v'.
Proof.
  induction p as [| s p IH]; intros v v' Hs Hv; cbn.
  - intros E. now inversion E; subst.
  - destruct (part h v s) as [x |] eqn:E; [| discriminate].
    apply IH; auto. eapply part_fresh; eauto.
Qed.

Lemma setitem_separate h0 h v k x h' :
  separate h0 h -> val_fresh (length h0) v -> val_fresh (length h0) x ->
  setitem h v k x = Ok h' -> separate h0 h'.
Proof.
  intros Hs Hv Hx. destruct v as [| | | | | l]; cbn; try discriminate.
  destruct (h !! l) as [[kvs | xs] |] eqn:Hl; try discriminate.
  intros E. inversion E; subst.
  pose proof (separate_new _ _ _ _ Hs Hv Hl) as Ho. cbn in Ho.
  apply separate_insert; auto. cbn. now apply assoc_set_Forall.
Qed.

Lemma update_separate h0 h v items h' :
  separate h0 h -> val_fresh (length h0) v ->
  Forall (fun kv => val_fresh (length h0) (snd kv)) items ->
  update h v items = Ok h' -> separate h0 h'.
Proof.
  intros Hs Hv Hx. destruct v as [| | | | | l]; cbn; try discriminate.
  destruct (h !! l) as [[kvs | xs] |] eqn:Hl; try discriminate.
  intros E. inversion E; subst.
  pose proof (separate_new _ _ _ _ Hs Hv Hl) as Ho. cbn in Ho.
  apply separate_insert; auto. cbn. now apply assoc_update_Forall.
Qed.

(** The value [items] gives the key [k], if any: the last one. *)
Definition binding {A} (k : string) (items : list (string * A)) (before : option A)
  : option A :=
  fold_left (fun acc kv => if String.eqb k (fst kv) then Some (snd kv) else acc)
            items before.

Lemma assoc_assoc_set {A} k k' (x : A) kvs :
  assoc k (assoc_set k' x kvs) = if String.eqb k k' then Some x else assoc k kvs.
Proof.
  induction kvs as [| [k0 v0] rest IH]; cbn.
  - reflexivity.
  - destruct (String.eqb k' k0) eqn:E0; cbn.
    + apply String.eqb_eq in E0. subst k0. now destruct (String.eqb k k').
    + destruct (String.eqb k k0) eqn:E1; [| exact IH].
      destruct (String.eqb k k') eqn:E2; [| reflexivity].
      apply String.eqb_eq in E1, E2. subst. rewrite String.eqb_refl in E0. discriminate.
Qed.

Lemma assoc_assoc_update {A} k (items kvs : list (string * A)) :
  assoc k (assoc_update items kvs) = binding k items (assoc k kvs).
Proof.
  unfold assoc_update, binding. revert kvs.
  induction items as [| [k' x] rest IH]; intros kvs; cbn; [reflexivity |].
  now rewrite IH, assoc_assoc_set.
Qed.

Lemma binding_from {A} k (items : list (string * A)) (a : option A) :
  binding k items a = match binding k items None with
                      | Some x => Some x
                      | None => a
                      end.
Proof.
  unfold binding. revert a.
  induction items as [| [k' x] rest IH]; intros a; cbn; [reflexivity |].
  rewrite (IH (if String.eqb k k' then Some x else a)),
          (IH (if String.eqb k k' then Some x else None)).
  destruct (fold_left _ rest None); [reflexivity |].
  now destruct (String.eqb k k').
Qed.

(** After [d.update(items)], what [v[k]] gives. *)
Lemma getitem_update h d items h' :
  update h d items = Ok h' ->
  (forall v k, binding k items None = None -> getitem h' v k = getitem h v k)
  /\ (forall k x, binding k items None = Some x -> getitem h' d k = Ok x).
Proof.
  destruct d as [| | | | | l]; cbn; try discriminate.
  destruct (h !! l) as [[kvs | xs] |] eqn:Hl; try discriminate.
  intros E. inversion E; subst. unfold heap, loc in *.
  assert (Hlt : (l < length h)%nat) by (now apply lookup_lt_Some in Hl).
  assert (Hbind : forall k, binding k items (assoc k kvs)
                            = match binding k items None with
                              | Some x => Some x
                              | None => assoc k kvs
                              end) by (intros k; apply binding_from).
  split.
  - intros v k Hk. destruct v as [| | | | | l']; cbn; try reflexivity.
    unfold heap, loc in *.
    destruct (Nat.eq_dec l l') as [-> | Hne].
    + rewrite list_lookup_insert_eq by exact Hlt. rewrite Hl.
      now rewrite assoc_assoc_update, Hbind, Hk.
    + now rewrite list_lookup_insert_ne.
  - intros k x Hk. cbn. unfold heap, loc in *.
    rewrite list_lookup_insert_eq by exact Hlt.
    now rewrite assoc_assoc_update, Hbind, Hk.
Qed.

(** After [d[key] = x], what [v[k]] gives. *)
Lemma getitem_setitem h d key x h' :
  setitem h d key x = Ok h' ->
  (forall v k, String.eqb k key = false -> getitem h' v k = getitem h v k)
  /\ getitem h' d key = Ok x.
Proof.
  intros E.
  assert (Hu : update h d [(key, x)] = Ok h').
  { destruct d as [| | | | | l]; cbn in *; try discriminate.
    destruct (h !! l) as [[kvs | xs] |]; try discriminate. exact E. }
  destruct (getitem_update _ _ _ _ Hu) as [H1 H2]. split.
  - intros v k Hk. apply H1. unfold binding. cbn. now rewrite Hk.
  - apply H2. unfold binding. cbn. now rewrite String.eqb_refl.
Qed.

(** An assignment or update changes the one object it is made on. *)
Lemma setitem_elsewhere h d key x h' (l : nat) :
  setitem h d key x = Ok h' -> VRef l <> d -> h' !! l = h !! l.
Proof.
  destruct d as [| | | | | l0]; cbn; try discriminate.
  destruct (h !! l0) as [[kvs | xs] |]; try discriminate.
  intros E Hne. inversion E; subst. unfold heap, loc in *.
  apply list_lookup_insert_ne. congruence.
Qed.

Lemma update_elsewhere h d items h' (l : nat) :
  update h d items = Ok h' -> VRef l <> d -> h' !! l = h !! l.
Proof.
  destruct d as [| | | | | l0]; cbn; try discriminate.
  destruct (h !! l0) as [[kvs | xs] |]; try discriminate.
  intros E Hne. inversion E; subst. unfold heap, loc in *.
  apply list_lookup_insert_ne. congruence.
Qed.

Lemma getpath_same h h' ks : forall v,
  (forall v k, In k ks -> getitem h' v k = getitem h v k) ->
  getpath h' v ks = getpath h v ks.
Proof.
  induction ks as [| k ks IH]; intros v H; cbn; [reflexivity |].
  rewrite H by now left. destruct (getitem h v k); cbn; [| reflexivity].
  apply IH. intros v' k' Hk. apply H. now right.
Qed.

Lemma getpath_app h v ks k :
  getpath h v (ks ++ [k]) = rbind (getpath h v ks) (fun d => getitem h d k).
Proof.
  revert v. induction ks as [| k1 ks IH]; intros v; cbn.
  - now destruct (getitem h v k).
  - destruct (getitem h v k1); cbn; [apply IH | reflexivity].
Qed.

End StoreUpdates.

(** ** The copy [json.loads(json.dumps(x))] *)

Section Roundtrip.
Import Store.

(** Nesting depth of a document: the fuel its encoding takes. *)
Fixpoint depth (j : json) : nat :=
  match j with
  | JList xs => S (list_max (map depth xs))
  | JObj kvs => S (list_max (map (fun kv => depth (snd kv)) kvs))
  | _ => O
  end.

Lemma traverse_impl {A B} (f g : A -> res B) xs ys :
  Forall (fun x => forall y, f x = Ok y -> g x = Ok y) xs ->
  traverse f xs = Ok ys -> traverse g xs = Ok ys.
Proof.
  intros HF. revert ys. induction HF as [| x rest Hx _ IH]; intros ys; cbn; [auto |].
  destruct (f x) as [y |] eqn:E; [| discriminate]. rewrite (Hx y eq_refl). cbn.
  destruct (traverse f rest) as [ys' |]; [| discriminate]. cbn.
  rewrite (IH ys' eq_refl). auto.
Qed.

Lemma dumps_more fuel : forall h v j fuel' ext,
  dumps fuel h v = Ok j -> (fuel <= fuel')%nat -> dumps fuel' (h ++ ext) v = Ok j.
Proof.
  induction fuel as [| fuel IH]; intros h v j fuel' ext H Hle.
  - destruct v; cbn in H; try discriminate; destruct fuel'; exact H.
  - destruct fuel' as [| fuel']; [lia |].
    destruct v as [| | | | | l]; try exact H.
    cbn [dumps] in H |- *. unfold heap, loc in *.
    destruct (h !! l) as [[kvs | xs] |] eqn:Hl; [| | discriminate];
      rewrite (lookup_app_l_Some _ _ _ _ Hl).
    + destruct (traverse _ kvs) as [js |] eqn:E; [| discriminate].
      erewrite traverse_impl; [exact H | | exact E].
      apply List.Forall_forall. intros [k x] _ [k' j'] Hx. cbn in Hx |- *.
      destruct (dumps fuel h x) as [jx |] eqn:Ex; [| discriminate].
      rewrite (IH h x jx fuel' ext Ex) by lia. exact Hx.
    + destruct (traverse _ xs) as [js |] eqn:E; [| discriminate].
      erewrite traverse_impl; [exact H | | exact E].
      apply List.Forall_forall. intros x _ j' Hx.
      apply IH; [exact Hx | lia].
Qed.

Lemma list_max_le_app (a b : list nat) n :
  (list_max a <= n)%nat -> (list_max b <= n)%nat -> (list_max (a ++ b) <= n)%nat.
Proof. rewrite list_max_app. lia. Qed.

(** The values [thread] builds encode back to the elements, and the store has
    grown by at least their depth. *)
Lemma thread_roundtrip {A B} (f : A -> heap -> heap * B)
    (d : A -> nat) (enc : nat -> heap -> B -> res A) xs :
  (forall fuel h b a fuel' ext, enc fuel h b = Ok a -> (fuel <= fuel')%nat ->
                                enc fuel' (h ++ ext) b = Ok a) ->
  Forall (fun x => forall h,
            enc (d x) (fst (f x h)) (snd (f x h)) = Ok x
            /\ (length h + d x <= length (fst (f x h)))%nat
            /\ exists ext, fst (f x h) = h ++ ext) xs ->
  forall h,
    traverse (enc (list_max (map d xs)) (fst (thread f xs h))) (snd (thread f xs h)) = Ok xs
    /\ (length h + list_max (map d xs) <= length (fst (thread f xs h)))%nat
    /\ exists ext, fst (thread f xs h) = h ++ ext.
Proof.
  intros Hmore HF. induction HF as [| x rest Hx _ IH]; intros h.
  - cbn. split; [reflexivity |]. split; [lia |]. exists []. now rewrite app_nil_r.
  - cbn [map].
    change (list_max (d x :: map d rest)) with (Nat.max (d x) (list_max (map d rest))).
    set (m := list_max (map d rest)) in *. cbn [thread].
    destruct (Hx h) as (E1 & L1 & e1 & X1). destruct (f x h) as [h1 v]. cbn in E1, L1, X1.
    destruct (IH h1) as (E2 & L2 & e2 & X2). destruct (thread f rest h1) as [h2 vs].
    cbn [fst snd] in E2, L2, X2 |- *. subst h1 h2. cbn [traverse].
    rewrite (Hmore _ _ _ _ (Nat.max (d x) m) e2 E1) by lia. cbn [rbind].
    erewrite traverse_impl; [| | exact E2].
    + split; [reflexivity |]. split; [| exists (e1 ++ e2); now rewrite app_assoc].
      rewrite !length_app in *. lia.
    + apply List.Forall_forall. intros b _ a Hb.
      rewrite <- (app_nil_r ((h ++ e1) ++ e2)).
      apply Hmore with (fuel := m); [exact Hb | lia].
Qed.

Lemma loads_roundtrip j : forall h,
  dumps (depth j) (fst (loads j h)) (snd (loads j h)) = Ok j
  /\ (length h + depth j <= length (fst (loads j h)))%nat
  /\ exists ext, fst (loads j h) = h ++ ext.
Proof.
  induction j as [| b | n | q | s | xs IH | kvs IH] using json_parts_ind; intros h;
    try (cbn; split; [reflexivity |]; split; [lia |]; exists []; now rewrite app_nil_r).
  - cbn [loads depth].
    destruct (thread_roundtrip loads depth dumps xs dumps_more IH h) as (E & L & e & X).
    destruct (thread loads xs h) as [h' vs]. cbn [fst snd] in E, L, X. subst h'.
    set (m := list_max (map depth xs)) in *.
    unfold alloc. cbn [fst snd dumps]. unfold heap, loc in *.
    rewrite list_lookup_middle by reflexivity. cbn [rbind].
    erewrite traverse_impl; [| | exact E].
    + split; [reflexivity |]. split; [rewrite !length_app in *; cbn; lia |].
      exists (e ++ [OList vs]). now rewrite app_assoc.
    + apply List.Forall_forall. intros v _ j' Hv.
      apply dumps_more with (fuel := m); [exact Hv | lia].
  - cbn [loads depth].
    set (f := fun (kv : string * json) (h : heap) =>
                match kv with (k, x) => let '(h1, v) := loads x h in (h1, (k, v)) end).
    set (enc := fun fuel h (kv : string * pyval) =>
                  rbind (dumps fuel h (snd kv)) (fun j => Ok (fst kv, j))).
    destruct (thread_roundtrip f (fun kv => depth (snd kv)) enc kvs) with (h := h)
      as (E & L & e & X).
    { intros fuel h0 [k v] [k' j'] fuel' ext Hb Hle. unfold enc in *. cbn in *.
      destruct (dumps fuel h0 v) as [jv |] eqn:Ev; [| discriminate].
      now rewrite (dumps_more _ _ _ _ fuel' ext Ev Hle). }
    { eapply Forall_impl; [exact IH |]. intros [k x] Hx h0. cbn in Hx. unfold f, enc.
      destruct (Hx h0) as (E1 & L1 & X1). destruct (loads x h0) as [h1 v].
      cbn [fst snd] in *. rewrite E1. auto. }
    destruct (thread f kvs h) as [h' fs]. cbn [fst snd] in E, L, X. subst h'.
    set (m := list_max (map (fun kv => depth (snd kv)) kvs)) in *.
    unfold alloc. cbn [fst snd dumps]. unfold heap, loc in *.
    rewrite list_lookup_middle by reflexivity. cbn [rbind].
    erewrite traverse_impl; [| | exact E].
    + split; [reflexivity |]. split; [rewrite !length_app in *; cbn; lia |].
      exists (e ++ [ODict fs]). now rewrite app_assoc.
    + apply List.Forall_forall. intros [k v] _ [k' j'] Hv. unfold enc in Hv.
      cbn [fst snd] in Hv |- *.
      destruct (dumps m (h ++ e) v) as [jv |] eqn:Ev; [| discriminate].
      rewrite (dumps_more _ _ _ _ m [ODict fs] Ev) by lia.
      exact Hv.
Qed.

(** The copy encodes to the document it was decoded from. *)
Lemma copy_roundtrip j h :
  json_dumps (fst (loads j h)) (snd (loads j h)) = Ok j.
Proof.
  destruct (loads_roundtrip j h) as (E & L & _). unfold json_dumps.
  rewrite <- (app_nil_r (fst (loads j h))).
  apply dumps_more with (fuel := depth j); [exact E |].
  rewrite app_nil_r. lia.
Qed.

End Roundtrip.

(** ** When [prepare_workflow] returns *)

Section Returns.
Import Store.

(** [j[k1]...[kn]] on a document. *)
Fixpoint document_path (j : json) (ks : list string) : res json :=
  match ks with
  | [] => Ok j
  | k :: ks' => rbind (Py.getitem j (JStr k)) (fun j' => document_path j' ks')
  end.

(** The document has the dict of inputs of the node. *)
Definition has_inputs (document : json) (node : string) : Prop :=
  exists kvs, document_path document (QwenImageAPI.node_inputs node) = Ok (JObj kvs).

Lemma traverse_assoc fuel h kvs : forall js k,
  traverse (fun kv => rbind (dumps fuel h (snd kv)) (fun j => Ok (fst kv, j))) kvs = Ok js ->
  match assoc k kvs with
  | Some v => exists j, assoc k js = Some j /\ dumps fuel h v = Ok j
  | None => assoc k js = None
  end.
Proof.
  induction kvs as [| [k0 v0] rest IH]; intros js k; cbn.
  - intros E. inversion E; subst. reflexivity.
  - destruct (dumps fuel h v0) as [j0 |] eqn:E0; [| discriminate]. cbn.
    destruct (traverse _ rest) as [js' |] eqn:E'; [| discriminate]. cbn.
    intros E. inversion E; subst. cbn.
    destruct (String.eqb k k0); [eauto |]. now apply IH.
Qed.

Lemma dumps_dict fuel h v js :
  dumps fuel h v = Ok (JObj js) ->
  exists (l : nat) kvs, v = VRef l /\ h !! l = Some (ODict kvs).
Proof.
  destruct fuel as [| fuel]; destruct v as [| | | | | l]; cbn; try discriminate.
  destruct (h !! l) as [[kvs | xs] |] eqn:Hl; try discriminate.
  - intros _. eauto.
  - destruct (traverse _ xs); discriminate.
Qed.

Lemma dumps_getitem fuel h v j k j' :
  dumps fuel h v = Ok j -> Py.getitem j (JStr k) = Ok j' ->
  exists v' fuel', getitem h v k = Ok v' /\ dumps fuel' h v' = Ok j'.
Proof.
  destruct fuel as [| fuel]; destruct v as [| | | | | l]; cbn;
    try (intros E; inversion E; subst; cbn; discriminate).
  destruct (h !! l) as [[kvs | xs] |] eqn:Hl; try discriminate.
  - destruct (traverse _ kvs) as [js |] eqn:E; [| discriminate]. cbn.
    intros Ej. inversion Ej; subst. cbn.
    pose proof (traverse_assoc _ _ _ _ k E) as Ha.
    destruct (assoc k kvs) as [v' |].
    + destruct Ha as (j0 & Hj0 & Hd). rewrite Hj0. intros Ej'. inversion Ej'; subst.
      eauto.
    + rewrite Ha. discriminate.
  - destruct (traverse _ xs) as [js |]; [| discriminate]. cbn.
    intros Ej. inversion Ej; subst. cbn. discriminate.
Qed.

Lemma dumps_getpath ks : forall fuel h v j j',
  dumps fuel h v = Ok j -> document_path j ks = Ok j' ->
  exists v' fuel', getpath h v ks = Ok v' /\ dumps fuel' h v' = Ok j'.
Proof.
  induction ks as [| k ks IH]; intros fuel h v j j' Hd; cbn.
  - intros E. inversion E; subst. eauto.
  - destruct (Py.getitem j (JStr k)) as [j1 |] eqn:E1; [| discriminate]. cbn.
    intros Hp. destruct (dumps_getitem _ _ _ _ _ _ Hd E1) as (v1 & f1 & Hg & Hd1).
    rewrite Hg. cbn. eapply IH; eauto.
Qed.

(** A value that refers to a dict. *)
Definition is_dict (h : heap) (v : pyval) : Prop :=
  exists (l : nat) kvs, v = VRef l /\ h !! l = Some (ODict kvs).

Lemma has_inputs_dict h v document node :
  json_dumps h v = Ok document -> has_inputs document node ->
  exists d, getpath h v (QwenImageAPI.node_inputs node) = Ok d /\ is_dict h d.
Proof.
  intros Hd [kvs Hp].
  destruct (dumps_getpath _ _ _ _ _ _ Hd Hp) as (d & f & Hg & Hdd).
  exists d. split; [exact Hg |]. exact (dumps_dict _ _ _ _ Hdd).
Qed.

Lemma update_is_dict h d items h' v :
  update h d items = Ok h' -> is_dict h v -> is_dict h' v.
Proof.
  destruct d as [| | | | | l0]; cbn; try discriminate.
  destruct (h !! l0) as [[kvs0 | xs] |] eqn:Hl0; try discriminate.
  intros E (l & kvs & -> & Hl). inversion E; subst. unfold heap, loc in *.
  destruct (Nat.eq_dec l0 l) as [-> | Hne].
  - exists l, (assoc_update items kvs0). split; [reflexivity |].
    unfold heap, loc in *.
    apply list_lookup_insert_eq. now apply lookup_lt_Some in Hl.
  - exists l, kvs. split; [reflexivity |]. unfold heap, loc in *.
    now rewrite list_lookup_insert_ne.
Qed.

Lemma update_dict h d items : is_dict h d -> exists h', update h d items = Ok h'.
Proof.
  intros (l & kvs & -> & Hl). cbn. unfold heap, loc in *. rewrite Hl. eauto.
Qed.

Lemma setitem_dict h d k x :
  is_dict h d -> setitem h d k x = update h d [(k, x)].
Proof.
  intros (l & kvs & -> & Hl). cbn. unfold heap, loc in *. now rewrite Hl.
Qed.

End Returns.

(** The keys of a path are not among those an update gives a value. *)
Ltac off_path H :=
  apply getpath_same;
  let v := fresh "v" in
  let k := fresh "k" in
  let Hk := fresh "Hk" in
  intros v k Hk; apply H; cbn in Hk;
  repeat (destruct Hk as [<- | Hk]; [reflexivity |]); contradiction.

(** [prepare_workflow] returns for every base workflow that can be encoded
    and has the inputs of the three nodes it sets. *)
Lemma prepare_workflow_returns h base_workflow request now document :
  Store.json_dumps h base_workflow = Ok document ->
  has_inputs document "6" -> has_inputs document "3" -> has_inputs document "58" ->
  exists h' workflow,
    QwenImageAPI.prepare_workflow h base_workflow request now = (h', Ok workflow).
Proof.
  intros Hd H6 H3 H58. unfold QwenImageAPI.prepare_workflow. rewrite Hd.
  pose proof (copy_roundtrip document h) as Hcopy.
  destruct (Store.loads document h) as [h1 workflow]. cbn [fst snd] in Hcopy.
  destruct (has_inputs_dict _ _ _ _ Hcopy H6) as (d6 & E6 & D6).
  destruct (has_inputs_dict _ _ _ _ Hcopy H3) as (d3 & E3 & D3).
  destruct (has_inputs_dict _ _ _ _ Hcopy H58) as (d58 & E58 & D58).
  rewrite E6. cbn [rbind].
  destruct (update_dict h1 d6 [("text", Store.VStr (QwenImageAPI.prompt request))] D6)
    as [h2 U6].
  pose proof U6 as S6. rewrite <- (setitem_dict _ _ _ _ D6) in S6. rewrite S6.
  destruct (getitem_setitem _ _ _ _ _ S6) as [S6o _].
  assert (E3' : Store.getpath h2 workflow (QwenImageAPI.node_inputs "3") = Ok d3).
  { rewrite <- E3. off_path S6o. }
  rewrite E3'. cbn [rbind].
  pose proof (update_is_dict _ _ _ _ _ U6 D3) as D3'.
  match goal with |- context [Store.update h2 d3 ?items] =>
    destruct (update_dict h2 d3 items D3') as [h3 U3]
  end.
  rewrite U3.
  destruct (getitem_update _ _ _ _ U3) as [U3o _].
  assert (E58' : Store.getpath h3 workflow (QwenImageAPI.node_inputs "58") = Ok d58).
  { rewrite <- E58.
    transitivity (Store.getpath h2 workflow (QwenImageAPI.node_inputs "58"));
      [off_path U3o | off_path S6o]. }
  rewrite E58'. cbn [rbind].
  pose proof (update_is_dict _ _ _ _ _ U3 (update_is_dict _ _ _ _ _ U6 D58)) as D58'.
  match goal with |- context [Store.update h3 d58 ?items] =>
    destruct (update_dict h3 d58 items D58') as [h4 U58]
  end.
  rewrite U58. eauto.
Qed.

(** The keys [prepare_workflow] assigns. *)
Definition request_keys : list string :=
  ["text"; "seed"; "steps"; "cfg"; "width"; "height"; "batch_size"].

(** The workflow returned is the copy of the base workflow, but for what the
    request sets: there is a store [h1], the one right after the copy was
    made, in which the workflow encodes to the same document as the base
    workflow; and the store at the end differs from [h1] only in the three
    [inputs] dicts of the nodes 6, 3 and 58, and there only under the keys
    of [request_keys]. *)
Definition copied_but_for_request (h : Store.heap) (base_workflow : Store.pyval)
    (h' : Store.heap) (workflow : Store.pyval) : Prop :=
  exists text h1 d6 d3 d58,
    Store.json_dumps h base_workflow = Ok text
    /\ Store.json_dumps h1 workflow = Ok text
    /\ Store.getpath h1 workflow (QwenImageAPI.node_inputs "6") = Ok d6
    /\ Store.getpath h1 workflow (QwenImageAPI.node_inputs "3") = Ok d3
    /\ Store.getpath h1 workflow (QwenImageAPI.node_inputs "58") = Ok d58
    /\ (forall l : nat, Store.VRef l <> d6 -> Store.VRef l <> d3 -> Store.VRef l <> d58 ->
                        h' !! l = h1 !! l)
    /\ (forall v k, ~ In k request_keys -> Store.getitem h' v k = Store.getitem h1 v k).

(** C10, as the code has it.  Whatever [prepare_workflow] does, the objects
    that existed before the call are unchanged afterwards, its argument
    among them.  It returns for every base workflow that can be encoded and
    has the inputs of the nodes 6, 3 and 58.  When it returns, the workflow
    returned is a new object, no object reached from it existed before the
    call (a deep copy), and it holds the request's prompt, steps,
    cfg_scale, width, height and batch_size, and as seed the request's seed
    when that is a number other than zero and the clock reading in
    milliseconds modulo [2^32] when the request has no seed; everything
    else in it is as in the base workflow. *)
Theorem prepare_workflow_copies
    (h : Store.heap) (base_workflow : Store.pyval)
    (request : QwenImageAPI.GenerationRequest) (now : Z)
    (h' : Store.heap) (r : res Store.pyval) :
  QwenImageAPI.prepare_workflow h base_workflow request now = (h', r) ->
  (forall (l : nat) o, h !! l = Some o -> h' !! l = Some o)
  /\ (forall document,
        Store.json_dumps h base_workflow = Ok document ->
        has_inputs document "6" -> has_inputs document "3" -> has_inputs document "58" ->
        exists workflow, r = Ok workflow)
  /\ (forall workflow, r = Ok workflow ->
        (exists l, workflow = Store.VRef l /\ (length h <= l)%nat)
        /\ (forall p v, Store.reach h' workflow p = Some v -> val_fresh (length h) v)
        /\ Store.getpath h' workflow ["input"; "workflow"; "6"; "inputs"; "text"]
           = Ok (Store.VStr (QwenImageAPI.prompt request))
        /\ Store.getpath h' workflow ["input"; "workflow"; "3"; "inputs"; "seed"]
           = Ok (Store.VInt (QwenImageAPI.seed_of request now))
        /\ Store.getpath h' workflow ["input"; "workflow"; "3"; "inputs"; "steps"]
           = Ok (Store.VInt (QwenImageAPI.steps request))
        /\ Store.getpath h' workflow ["input"; "workflow"; "3"; "inputs"; "cfg"]
           = Ok (Store.VFloat (QwenImageAPI.cfg_scale request))
        /\ Store.getpath h' workflow ["input"; "workflow"; "58"; "inputs"; "width"]
           = Ok (Store.VInt (QwenImageAPI.width request))
        /\ Store.getpath h' workflow ["input"; "workflow"; "58"; "inputs"; "height"]
           = Ok (Store.VInt (QwenImageAPI.height request))
        /\ Store.getpath h' workflow ["input"; "workflow"; "58"; "inputs"; "batch_size"]
           = Ok (Store.VInt (QwenImageAPI.batch_size request))
        /\ (forall s, QwenImageAPI.seed request = Some s -> s <> 0 ->
                      QwenImageAPI.seed_of request now = s)
        /\ (QwenImageAPI.seed request = None ->
            QwenImageAPI.seed_of request now = now mod 2 ^ 32)
        /\ copied_but_for_request h base_workflow h' workflow).
Proof.
  intros H.
  assert (Hreturns : forall document,
             Store.json_dumps h base_workflow = Ok document ->
             has_inputs document "6" -> has_inputs document "3" ->
             has_inputs document "58" -> exists workflow, r = Ok workflow).
  { intros document Hd H6 H3 H58.
    destruct (prepare_workflow_returns h base_workflow request now document Hd H6 H3 H58)
      as (h'' & workflow & E).
    rewrite E in H. inversion H; subst. eauto. }
  revert H. unfold QwenImageAPI.prepare_workflow. intros H.
  destruct (Store.json_dumps h base_workflow) as [text | e0] eqn:Etext.
  2: { inversion H; subst. split; [auto |]. split; [exact Hreturns |].
       intros workflow Hr; discriminate. }
  destruct (loads_separate text h) as [Hs1 Hw].
  pose proof (copy_roundtrip text h) as Hcopy.
  destruct (Store.loads text h) as [h1 workflow]. cbn [fst snd] in Hs1, Hw, Hcopy.
  destruct (Store.getpath h1 workflow (QwenImageAPI.node_inputs "6")) as [d6 | e] eqn:E6;
    cbn [rbind] in H.
  2: { inversion H; subst. split; [intros l o; now apply separate_old |].
       split; [exact Hreturns |]. intros wf Hr; discriminate. }
  pose proof (getpath_fresh _ _ _ _ _ Hs1 Hw E6) as Hd6.
  destruct (Store.setitem h1 d6 "text" _) as [h2 | e] eqn:S6.
  2: { inversion H; subst. split; [intros l o; now apply separate_old |].
       split; [exact Hreturns |]. intros wf Hr; discriminate. }
  assert (Hs2 : separate h h2)
    by exact (setitem_separate _ _ _ _ (Store.VStr _) _ Hs1 Hd6 I S6).
  destruct (Store.getpath h2 workflow (QwenImageAPI.node_inputs "3")) as [d3 | e] eqn:E3;
    cbn [rbind] in H.
  2: { inversion H; subst. split; [intros l o; now apply separate_old |].
       split; [exact Hreturns |]. intros wf Hr; discriminate. }
  pose proof (getpath_fresh _ _ _ _ _ Hs2 Hw E3) as Hd3.
  destruct (Store.update h2 d3 _) as [h3 | e] eqn:U3.
  2: { inversion H; subst. split; [intros l o; now apply separate_old |].
       split; [exact Hreturns |]. intros wf Hr; discriminate. }
  assert (Hs3 : separate h h3).
  { refine (update_separate _ _ _ _ _ Hs2 Hd3 _ U3). repeat constructor. }
  destruct (Store.getpath h3 workflow (QwenImageAPI.node_inputs "58")) as [d58 | e] eqn:E58;
    cbn [rbind] in H.
  2: { inversion H; subst. split; [intros l o; now apply separate_old |].
       split; [exact Hreturns |]. intros wf Hr; discriminate. }
  pose proof (getpath_fresh _ _ _ _ _ Hs3 Hw E58) as Hd58.
  destruct (Store.update h3 d58 _) as [h4 | e] eqn:U58.
  2: { inversion H; subst. split; [intros l o; now apply separate_old |].
       split; [exact Hreturns |]. intros wf Hr; discriminate. }
  assert (Hs4 : separate h h4).
  { refine (update_separate _ _ _ _ _ Hs3 Hd58 _ U58). repeat constructor. }
  inversion H; subst h' r. clear H.
  split; [intros l o; now apply separate_old |].
  split; [exact Hreturns |].
  intros wf Hr. inversion Hr; subst wf. clear Hr.
  destruct (getitem_setitem _ _ _ _ _ S6) as [S6o S6s].
  destruct (getitem_update _ _ _ _ U3) as [U3o U3s].
  destruct (getitem_update _ _ _ _ U58) as [U58o U58s].
  assert (P6 : Store.getpath h4 workflow (QwenImageAPI.node_inputs "6") = Ok d6).
  { rewrite <- E6.
    transitivity (Store.getpath h3 workflow (QwenImageAPI.node_inputs "6"));
      [off_path U58o |].
    transitivity (Store.getpath h2 workflow (QwenImageAPI.node_inputs "6"));
      [off_path U3o | off_path S6o]. }
  assert (P3 : Store.getpath h4 workflow (QwenImageAPI.node_inputs "3") = Ok d3).
  { rewrite <- E3.
    transitivity (Store.getpath h3 workflow (QwenImageAPI.node_inputs "3"));
      [off_path U58o | off_path U3o]. }
  assert (P58 : Store.getpath h4 workflow (QwenImageAPI.node_inputs "58") = Ok d58).
  { rewrite <- E58. off_path U58o. }
  split; [| split; [| split; [| split; [| split; [| split; [| split; [| split;
    [| split; [| split; [| split]]]]]]]]]].
  - destruct workflow as [| | | | | l]; try (cbn in E6; discriminate).
    exists l. split; [reflexivity | exact Hw].
  - intros p v Hp. exact (reach_fresh _ _ _ _ _ Hs4 Hw Hp).
  - change ["input"; "workflow"; "6"; "inputs"; "text"]
      with (QwenImageAPI.node_inputs "6" ++ ["text"]).
    rewrite getpath_app, P6. cbn [rbind].
    rewrite U58o, U3o by reflexivity. exact S6s.
  - change ["input"; "workflow"; "3"; "inputs"; "seed"]
      with (QwenImageAPI.node_inputs "3" ++ ["seed"]).
    rewrite getpath_app, P3. cbn [rbind].
    rewrite U58o by reflexivity. now apply U3s.
  - change ["input"; "workflow"; "3"; "inputs"; "steps"]
      with (QwenImageAPI.node_inputs "3" ++ ["steps"]).
    rewrite getpath_app, P3. cbn [rbind].
    rewrite U58o by reflexivity. now apply U3s.
  - change ["input"; "workflow"; "3"; "inputs"; "cfg"]
      with (QwenImageAPI.node_inputs "3" ++ ["cfg"]).
    rewrite getpath_app, P3. cbn [rbind].
    rewrite U58o by reflexivity. now apply U3s.
  - change ["input"; "workflow"; "58"; "inputs"; "width"]
      with (QwenImageAPI.node_inputs "58" ++ ["width"]).
    rewrite getpath_app, P58. cbn [rbind]. now apply U58s.
  - change ["input"; "workflow"; "58"; "inputs"; "height"]
      with (QwenImageAPI.node_inputs "58" ++ ["height"]).
    rewrite getpath_app, P58. cbn [rbind]. now apply U58s.
  - change ["input"; "workflow"; "58"; "inputs"; "batch_size"]
      with (QwenImageAPI.node_inputs "58" ++ ["batch_size"]).
    rewrite getpath_app, P58. cbn [rbind]. now apply U58s.
  - intros s Hseed Hnz. unfold QwenImageAPI.seed_of. rewrite Hseed.
    destruct (Z.eqb_spec s 0); [contradiction | reflexivity].
  - intros Hseed. unfold QwenImageAPI.seed_of. now rewrite Hseed.
  - exists text, h1, d6, d3, d58.
    split; [exact Etext |]. split; [exact Hcopy |]. split; [exact E6 |].
    split; [| split; [| split]].
    + rewrite <- E3. symmetry. off_path S6o.
    + rewrite <- E58. symmetry.
      transitivity (Store.getpath h2 workflow (QwenImageAPI.node_inputs "58"));
        [off_path U3o | off_path S6o].
    + intros l H6 H3 H58.
      rewrite (update_elsewhere _ _ _ _ _ U58 H58), (update_elsewhere _ _ _ _ _ U3 H3).
      exact (setitem_elsewhere _ _ _ _ _ _ S6 H6).
    + intros v k Hk.
      assert (Hneq : forall k', In k' request_keys -> String.eqb k k' = false).
      { intros k' Hin. apply String.eqb_neq. intros ->. now apply Hk. }
      rewrite U58o, U3o, S6o; try reflexivity.
      * apply Hneq. cbn. auto.
      * unfold binding. cbn. rewrite !Hneq by (cbn; auto 10). reflexivity.
      * unfold binding. cbn. rewrite !Hneq by (cbn; auto 10). reflexivity.
Qed.

(** The store of a caller that has loaded the sample workflow, and the
    workflow in it. *)
Definition caller_store : Store.heap := fst (Store.loads sample_workflow []).
Definition caller_workflow : Store.pyval := snd (Store.loads sample_workflow []).

(** What a run of [prepare_workflow] left under a path of the workflow it
    returned. *)
Definition field_of (run : Store.heap * res Store.pyval) (path : list string)
  : res Store.pyval :=
  match snd run with
  | Ok workflow => Store.getpath (fst run) workflow path
  | Raise e => Raise e
  end.

Lemma prepare_workflow_copies_witness :
  (forall (l : nat) o,
     caller_store !! l = Some o ->
     fst (QwenImageAPI.prepare_workflow caller_store caller_workflow sample_request 99) !! l
     = Some o)
  /\ field_of (QwenImageAPI.prepare_workflow caller_store caller_workflow sample_request 99)
       ["input"; "workflow"; "6"; "inputs"; "text"]
     = Ok (Store.VStr "A majestic dragon")
  /\ field_of (QwenImageAPI.prepare_workflow caller_store caller_workflow sample_request 99)
       ["input"; "workflow"; "3"; "inputs"; "seed"]
     = Ok (Store.VInt 12345).
Proof.
  destruct (QwenImageAPI.prepare_workflow caller_store caller_workflow sample_request 99)
    as [h' r] eqn:E.
  destruct (prepare_workflow_copies _ _ _ _ _ _ E) as (Hframe & _ & Hret).
  assert (Hr : r = Ok (match r with Ok v => v | Raise _ => Store.VNone end)).
  { revert E. vm_compute. intros E. inversion E. reflexivity. }
  destruct (Hret _ Hr) as (_ & _ & Htext & Hseed & _).
  split; [exact Hframe |]. unfold field_of. cbn [fst snd]. rewrite Hr.
  split; [exact Htext | exact Hseed].
Defined.

(** The sample request without a seed. *)
Definition unseeded_request : QwenImageAPI.GenerationRequest :=
  {| QwenImageAPI.prompt := "A majestic dragon";
     QwenImageAPI.seed := None;
     QwenImageAPI.width := 1024;
     QwenImageAPI.height := 1024;
     QwenImageAPI.steps := 8;
     QwenImageAPI.cfg_scale := inject_Z 1;
     QwenImageAPI.batch_size := 1 |}.

(** A workflow without the node 58. *)
Definition partial_workflow : json :=
  JObj [("input",
         JObj [("workflow",
                JObj [("3", JObj [("inputs", JObj [("seed", JInt 7)])]);
                      ("6", JObj [("inputs", JObj [("text", JStr "a placeholder")])])])])].

(** C10 as stated fails.  For a request without a seed the workflow returned
    has a seed all the same, taken from the clock; and for a base workflow
    without the node 58 [prepare_workflow] returns nothing: it raises
    [KeyError]. *)
Lemma prepare_workflow_counterexample :
  QwenImageAPI.seed unseeded_request = None
  /\ field_of (QwenImageAPI.prepare_workflow caller_store caller_workflow
                 unseeded_request 5000000000000)
       ["input"; "workflow"; "3"; "inputs"; "seed"]
     = Ok (Store.VInt 658067456)
  /\ snd (QwenImageAPI.prepare_workflow
            (fst (Store.loads partial_workflow [])) (snd (Store.loads partial_workflow []))
            sample_request 99)
     = Raise (KeyError (JStr "58")).
Proof. repeat split. Qed.

(** * Further properties of the clients *)
(** ** The outcomes of [generate_image] in [api_integration.py] *)

Section ApiOutcomes.
Import QwenImageAPI.
Variable api : QwenImageAPI.
Variable net : script.

(** The answer that gives a job its handle: status 200 and a JSON body with
    the key [prompt_id]. *)
Definition accepts (a : answer) (id : json) : Prop :=
  exists response document,
    reply a = inr response
    /\ status_code response = 200
    /\ body response = Some document
    /\ getitem document (JStr "prompt_id") = Ok id.

Lemma submit_attempt_returns workflow attempt w c w' :
  submit_attempt api net workflow attempt w = (c, w') ->
  (forall id, c = Return (Returns id) ->
     accepts (net (calls w)) id /\ posts (trace w') = S (posts (trace w))
     /\ gets (trace w') = gets (trace w))
  /\ (forall e, c = Raised e -> is_RequestException e = false).
Proof.
  intros H. unfold submit_attempt, catch, bind, post, lift, ret, raise in H.
  run H.
  all: finish H.
  all: split; [intros id Hid; try discriminate | intros e' He; try discriminate].
  all: try (inversion Hid; subst; split; [| count; split; lia]).
  all: try (inversion He; subst; first [reflexivity | assumption]).
  all: unfold accepts.
  all: repeat match goal with
         | E : (_ =? _) = true |- _ => apply Z.eqb_eq in E
         end.
  all: unfold response_json in *.
  all: match goal with
       | E : match body ?r with _ => _ end = _ |- _ =>
           destruct (body r) eqn:Eb; inversion E; subst
       end.
  all: eauto 10.
Qed.

Lemma submit_attempts_returns workflow attempts w r w' :
  submit_attempts api net workflow attempts w = (r, w') ->
  (forall id, r = Return id ->
     id = JNull
     \/ ((posts (trace w) < posts (trace w'))%nat /\ exists n, accepts (net n) id))
  /\ (forall e, r = Raised e -> is_RequestException e = false).
Proof.
  revert w r w'. induction attempts as [| attempt rest IH]; intros w r w' H.
  - cbn in H. finish H. split; [intros id Hid; inversion Hid; auto | discriminate].
  - cbn [submit_attempts] in H. unfold bind in H.
    destruct (submit_attempt api net workflow attempt w) as [c w1] eqn:E.
    destruct (submit_attempt_returns _ _ _ _ _ E) as [Hret Hraise].
    apply submit_attempt_inv in E. destruct E as (tr1 & Ht & _).
    destruct c as [[| | id] | e |].
    1, 2: apply IH in H; destruct H as [Hret' Hraise']; split; [| exact Hraise'];
          intros id Hid; destruct (Hret' id Hid) as [-> | [Hp Hn]]; [now left | right];
          split; [rewrite Ht in Hp; revert Hp; count; lia | exact Hn].
    + unfold ret in H. finish H. destruct (Hret id eq_refl) as (Ha & Hp & _).
      split; [| discriminate]. intros id' Hid. inversion Hid; subst. right.
      split; [lia | eauto].
    + finish H. split; [discriminate |]. intros e' He. inversion He; subst. auto.
    + finish H. split; discriminate.
Qed.

(** The result of a poll that found the job. *)
Definition found_at (id : json) (t : Z) (found : list json) : GenerationResult :=
  {| success := true;
     prompt_id := Some id;
     generation_time := Some t;
     images := Some found;
     error := None |}.

Lemma api_poll_once_returns id start_time w c w' :
  poll_once net id start_time w = (c, w') ->
  (forall result, c = Return (Returns result) ->
     exists found, result = found_at id (now w' - start_time) found)
  /\ (forall e, c = Raised e -> is_RequestException e = false).
Proof.
  intros H. unfold poll_once, catch, get, bind, lift, ret, raise, time_time in H.
  run H.
  all: finish H.
  all: split; [intros result Hr; try discriminate | intros e' He; try discriminate].
  all: try (inversion Hr; subst; eexists; reflexivity).
  all: try (inversion He; subst; first [reflexivity | assumption]).
Qed.

Lemma api_poll_returns fuel id start_time w r w' :
  poll api net fuel id start_time w = (r, w') ->
  (forall result, r = Return result -> success result = true ->
     (exists found, result = found_at id (now w' - start_time) found)
     /\ (gets (trace w) < gets (trace w'))%nat)
  /\ (forall e, r = Raised e -> is_RequestException e = false).
Proof.
  revert w r w'. induction fuel as [| fuel IH]; intros w r w' H.
  - cbn in H. finish H. split; discriminate.
  - cbn [poll] in H. unfold bind, time_time in H.
    destruct (now w - start_time <? timeout api * 1000).
    + destruct (poll_once net id start_time w) as [c w1] eqn:E.
      destruct (api_poll_once_returns _ _ _ _ _ E) as [Hret Hraise].
      apply api_poll_once_inv in E. destruct E as (tr1 & Ht & _ & Hg & _).
      destruct c as [[| | result] | e |].
      * apply IH in H. destruct H as [Hret' Hraise']. split; [| exact Hraise'].
        intros result Hr Hs. destruct (Hret' result Hr Hs) as [Hf Hgets].
        split; [exact Hf |]. rewrite Ht in Hgets. revert Hgets. count. lia.
      * finish H. split; [| discriminate]. intros result Hr Hs.
        inversion Hr; subst. discriminate.
      * finish H. split; [| discriminate]. intros result' Hr Hs.
        inversion Hr; subst. split; [now apply Hret |]. rewrite Ht. count. lia.
      * finish H. split; [discriminate |]. intros e' He. inversion He; subst. auto.
      * finish H. split; discriminate.
    + finish H. split; [| discriminate]. intros result Hr Hs.
      inversion Hr; subst. discriminate.
Qed.

Lemma api_poll_returns_wait id w result w' :
  wait_for_completion api net id w = (Return result, w') ->
  success result = true ->
  (exists found, result = found_at id (now w' - now w) found)
  /\ (gets (trace w) < gets (trace w'))%nat.
Proof.
  unfold wait_for_completion, bind, time_time. intros H Hs.
  apply api_poll_returns in H. destruct H as [Hret _]. now apply Hret.
Qed.

End ApiOutcomes.

(** ** What [prepare_workflow] can raise *)

Section StoreRaises.

Lemma traverse_raise {A B} (f : A -> res B) xs e :
  Store.traverse f xs = Raise e -> exists x, In x xs /\ f x = Raise e.
Proof.
  induction xs as [| x rest IH]; cbn; [discriminate |].
  destruct (f x) as [y | e'] eqn:E; cbn.
  - destruct (Store.traverse f rest) as [ys | e'']; cbn; [discriminate |].
    intros H. inversion H; subst. destruct (IH eq_refl) as (x' & Hin & Hx). eauto.
  - intros H. inversion H; subst. eauto.
Qed.

(** The encoder raises its [ValueError] and nothing else. *)
Lemma dumps_raise fuel : forall h v e, Store.dumps fuel h v = Raise e -> e = ValueError.
Proof.
  induction fuel as [| fuel IH]; intros h v e H.
  - destruct v; cbn in H; congruence.
  - destruct v; cbn in H; try discriminate.
    destruct (h !! l) as [[kvs | xs] |]; [| | congruence].
    + destruct (Store.traverse _ kvs) as [js | e'] eqn:E; cbn in H; [discriminate |].
      inversion H; subst. apply traverse_raise in E. destruct E as ([k x] & _ & Hx).
      cbn in Hx. destruct (Store.dumps fuel h x) eqn:Ed; cbn in Hx; [discriminate |].
      inversion Hx; subst. eapply IH; eauto.
    + destruct (Store.traverse _ xs) as [js | e'] eqn:E; cbn in H; [discriminate |].
      inversion H; subst. apply traverse_raise in E. destruct E as (x & _ & Hx).
      eapply IH; eauto.
Qed.

Lemma store_getitem_local h v k : local_raise (Store.getitem h v k).
Proof.
  intros e. unfold Store.getitem.
  destruct v; try (intros H; now inversion H).
  destruct (h !! l) as [[kvs | xs] |]; try (intros H; now inversion H).
  destruct (assoc k kvs); intros H; now inversion H.
Qed.

Lemma store_getpath_local h ks : forall v, local_raise (Store.getpath h v ks).
Proof.
  induction ks as [| k ks IH]; intros v; cbn; [apply local_Ok |].
  apply local_rbind; [apply store_getitem_local | intros v'; apply IH].
Qed.

Lemma store_setitem_local h v k x : local_raise (Store.setitem h v k x).
Proof.
  intros e. unfold Store.setitem.
  destruct v; try (intros H; now inversion H).
  destruct (h !! l) as [[kvs | xs] |]; intros H; now inversion H.
Qed.

Lemma store_update_local h v items : local_raise (Store.update h v items).
Proof.
  intros e. unfold Store.update.
  destruct v; try (intros H; now inversion H).
  destruct (h !! l) as [[kvs | xs] |]; intros H; now inversion H.
Qed.

Lemma prepare_workflow_local h base_workflow request now :
  local_raise (snd (QwenImageAPI.prepare_workflow h base_workflow request now)).
Proof.
  unfold QwenImageAPI.prepare_workflow.
  destruct (Store.json_dumps h base_workflow) as [text | e0] eqn:Etext.
  - destruct (Store.loads text h) as [h1 workflow].
    match goal with |- context [match ?r with Ok _ => _ | Raise _ => _ end] =>
      assert (L1 : local_raise r)
        by (apply local_rbind; [apply store_getpath_local | intros; apply store_setitem_local]);
      destruct r as [h2 | e1]; [| intros e H; inversion H; subst; now apply (L1 e)] end.
    match goal with |- context [match ?r with Ok _ => _ | Raise _ => _ end] =>
      assert (L2 : local_raise r)
        by (apply local_rbind; [apply store_getpath_local | intros; apply store_update_local]);
      destruct r as [h3 | e2]; [| intros e H; inversion H; subst; now apply (L2 e)] end.
    match goal with |- context [match ?r with Ok _ => _ | Raise _ => _ end] =>
      assert (L3 : local_raise r)
        by (apply local_rbind; [apply store_getpath_local | intros; apply store_update_local]);
      destruct r as [h4 | e3]; [| intros e H; inversion H; subst; now apply (L3 e)] end.
    apply local_Ok.
  - cbn. intros e H. inversion H; subst. apply dumps_raise in Etext. now subst.
Qed.

End StoreRaises.
(** The ways a run of [generate_image] that returns can end. *)
Lemma generate_image_ends
    (api : QwenImageAPI.QwenImageAPI) (net : script) (file : option json)
    (request : QwenImageAPI.GenerationRequest) (w : world)
    (result : QwenImageAPI.GenerationResult) (w' : world) :
  QwenImageAPI.generate_image api net file request w = (Return result, w') ->
  (result = QwenImageAPI.failure "Failed to load workflow" /\ w' = w)
  \/ (result = QwenImageAPI.failure "Failed to submit generation request"
      /\ gets (trace w') = gets (trace w))
  \/ (exists id payload w1,
        payload_of file request (now w) = Some payload
        /\ QwenImageAPI.submit_generation api net payload w = (Return id, w1)
        /\ QwenImageAPI.wait_for_completion api net id w1 = (Return result, w')
        /\ truthy id = true
        /\ (exists n, accepts (net n) id)
        /\ (posts (trace w) < posts (trace w'))%nat
        /\ now w <= now w1 <= now w'
        /\ (result = QwenImageAPI.timed_out api id
            \/ exists found,
                 result = found_at id (now w' - now w1) found
                 /\ (gets (trace w) < gets (trace w'))%nat)).
Proof.
  unfold QwenImageAPI.generate_image. intros H.
  destruct (QwenImageAPI.load_workflow file) as [document |] eqn:Eload;
    [| finish H; now left].
  destruct (truthy document) eqn:Edoc; cbn [negb] in H; [| finish H; now left].
  destruct (Store.loads document []) as [h0 workflow] eqn:Eloads.
  unfold bind, time_time in H.
  destruct (QwenImageAPI.prepare_workflow h0 workflow request (now w)) as [h1 prepared]
    eqn:Eprep.
  destruct prepared as [v | e]; cbn [lift] in H; [| discriminate].
  unfold ret in H.
  destruct (QwenImageAPI.submit_generation api net (Store.json_dumps h1 v) w)
    as [o w1] eqn:E.
  pose proof E as Esub.
  pose proof E as E'. unfold QwenImageAPI.submit_generation in E'.
  apply submit_attempts_returns in E'. destruct E' as [Hid _].
  apply submit_generation_inv in E. destruct E as (tr1 & Ht & _ & Hg & Hn & _).
  destruct o as [id | e |]; [| discriminate | discriminate].
  destruct (truthy id) eqn:Etruthy; cbn [negb] in H.
  - right. right. exists id, (Store.json_dumps h1 v), w1.
    destruct (Hid id eq_refl) as [-> | [Hp Hacc]]; [discriminate |].
    pose proof H as Hwait.
    pose proof (api_poll_returns_wait _ _ _ _ _ _ H) as H'.
    apply api_wait_for_completion_inv in H.
    destruct H as (tr2 & Ht' & Hp' & Hn' & _ & Hr & _).
    split. { unfold payload_of. now rewrite Eload, Edoc, Eloads, Eprep. }
    split; [exact Esub |]. split; [exact Hwait |].
    split; [exact Etruthy |]. split; [exact Hacc |]. split.
    { rewrite Ht'. count. lia. }
    split; [lia |].
    destruct (Hr result eq_refl) as [Hs | [-> _]]; [right | now left].
    destruct (H' Hs) as [(found & ->) Hgets].
    exists found. split; [reflexivity |].
    rewrite Ht', Ht in Hgets |- *. revert Hgets. count. lia.
  - finish H. right. left. split; [reflexivity |]. rewrite Ht. count. lia.
Qed.

(** X1.  A run of [generate_image] that returns ends in one of four ways.
    The workflow did not load: nothing was sent and no time passed.  No
    attempt got a handle: the job was never polled.  Otherwise
    [submit_generation] returned a handle that is not empty, which the
    service had given, and the result is that of [wait_for_completion] on it:
    either the timeout result for that handle or a success that carries the
    handle, the images found, no error, and as generation time the clock
    reading at the poll that found the job minus the reading when
    [submit_generation] returned: the time of the submission is not
    counted. *)
Theorem generate_image_outcomes
    (api : QwenImageAPI.QwenImageAPI) (net : script) (file : option json)
    (request : QwenImageAPI.GenerationRequest) (w : world)
    (result : QwenImageAPI.GenerationResult) (w' : world) :
  QwenImageAPI.generate_image api net file request w = (Return result, w') ->
  (result = QwenImageAPI.failure "Failed to load workflow" /\ w' = w)
  \/ (result = QwenImageAPI.failure "Failed to submit generation request"
      /\ gets (trace w') = gets (trace w))
  \/ (exists id payload w1,
        payload_of file request (now w) = Some payload
        /\ QwenImageAPI.submit_generation api net payload w = (Return id, w1)
        /\ QwenImageAPI.wait_for_completion api net id w1 = (Return result, w')
        /\ truthy id = true
        /\ (exists n, accepts (net n) id)
        /\ (posts (trace w) < posts (trace w'))%nat
        /\ now w <= now w1 <= now w'
        /\ (result = QwenImageAPI.timed_out api id
            \/ exists found,
                 result = found_at id (now w' - now w1) found
                 /\ (gets (trace w) < gets (trace w'))%nat)).
Proof. apply generate_image_ends. Qed.


(** The default client and a service that answers each call in 100 ms: the
    submission takes 100 ms, the poll finds the image 100 ms later. *)
Lemma generate_image_outcomes_witness :
  exists id found,
    fst (QwenImageAPI.generate_image QwenImageAPI.default_api (smooth "abc" "out.png")
           (Some sample_workflow) sample_request dawn)
    = Return (found_at id 100 found).
Proof.
  assert (E : exists x w',
             QwenImageAPI.generate_image QwenImageAPI.default_api (smooth "abc" "out.png")
               (Some sample_workflow) sample_request dawn = (Return x, w')
             /\ QwenImageAPI.success x = true /\ now w' = 200).
  { vm_compute. eexists. eexists. split; [reflexivity |]. split; reflexivity. }
  destruct E as (x & w' & E & Hx & Hnow).
  destruct (generate_image_outcomes _ _ _ _ _ _ _ E)
    as [[Hl _] | [[Hs _] | (id & payload & w1 & Hpay & Hsub & _ & _ & _ & _ & _ &
                            [Ht | (found & Hf & _)])]].
  - rewrite Hl in Hx. discriminate.
  - rewrite Hs in Hx. discriminate.
  - rewrite Ht in Hx. discriminate.
  - exists id, found. rewrite E. cbn [fst]. rewrite Hf, Hnow.
    assert (Hw1 : now w1 = 100).
    { revert Hpay Hsub. vm_compute. intros Hpay. inversion Hpay; subst payload.
      intros Hsub. inversion Hsub. reflexivity. }
    rewrite Hw1. reflexivity.
Defined.
(** A run of [generate_image] ends, and what it raises is none of
    [requests]. *)
Lemma generate_image_local
    (api : QwenImageAPI.QwenImageAPI) (net : script) (file : option json)
    (request : QwenImageAPI.GenerationRequest) (w : world)
    (r : outcome QwenImageAPI.GenerationResult) (w' : world) :
  QwenImageAPI.generate_image api net file request w = (r, w') ->
  r <> Diverge /\ forall e, r = Raised e -> is_RequestException e = false.
Proof.
  intros H. split; [now apply generate_image_posts in H |].
  intros e He. subst r. unfold QwenImageAPI.generate_image in H.
  destruct (QwenImageAPI.load_workflow file) as [document |]; [| discriminate].
  destruct (truthy document); cbn [negb] in H; [| discriminate].
  destruct (Store.loads document []) as [h0 workflow].
  unfold bind, time_time in H.
  pose proof (prepare_workflow_local h0 workflow request (now w)) as Hprep.
  destruct (QwenImageAPI.prepare_workflow h0 workflow request (now w)) as [h1 prepared].
  destruct prepared as [v | e0]; cbn [lift] in H;
    [| inversion H; subst; now apply Hprep].
  unfold ret in H.
  destruct (QwenImageAPI.submit_generation api net (Store.json_dumps h1 v) w)
    as [o w1] eqn:E.
  unfold QwenImageAPI.submit_generation in E.
  apply submit_attempts_returns in E. destruct E as [_ Hraise].
  destruct o as [id | e0 |]; [| inversion H; subst; now apply Hraise | discriminate].
  destruct (truthy id); cbn [negb] in H; [| discriminate].
  unfold QwenImageAPI.wait_for_completion, bind, time_time in H.
  apply api_poll_returns in H. destruct H as [_ Hraise']. now apply Hraise'.
Qed.

(** X2.  [generate_image] handles every transport error itself: it always
    ends, and an exception that leaves it is none of [requests] (it comes
    from the documents: a workflow without the expected nodes, an answer
    without [prompt_id], a history that is not a dict). *)
Theorem generate_image_handles_transport_errors
    (api : QwenImageAPI.QwenImageAPI) (net : script) (file : option json)
    (request : QwenImageAPI.GenerationRequest) (w : world)
    (r : outcome QwenImageAPI.GenerationResult) (w' : world) :
  QwenImageAPI.generate_image api net file request w = (r, w') ->
  r <> Diverge /\ forall e, r = Raised e -> is_RequestException e = false.
Proof. apply generate_image_local. Qed.


Lemma generate_image_handles_transport_errors_witness :
  fst (QwenImageAPI.generate_image QwenImageAPI.default_api unreachable
         (Some sample_workflow) sample_request dawn) <> Diverge.
Proof.
  destruct (QwenImageAPI.generate_image QwenImageAPI.default_api unreachable
              (Some sample_workflow) sample_request dawn) as [r w'] eqn:E.
  exact (proj1 (generate_image_handles_transport_errors _ _ _ _ _ _ _ E)).
Defined.

(** ** [batch_generate] and the summary of its results *)

Section ApiBatch.
Import QwenImageAPI.
Variable api : QwenImageAPI.
Variable net : script.
Variable file : option json.

Lemma generate_image_clock request w r w' :
  generate_image api net file request w = (r, w') -> now w <= now w'.
Proof.
  unfold generate_image. intros H.
  destruct (load_workflow file) as [document |]; [| finish H; lia].
  destruct (truthy document); cbn [negb] in H; [| finish H; lia].
  destruct (Store.loads document []) as [h0 workflow].
  unfold bind, time_time in H.
  destruct (prepare_workflow h0 workflow request (now w)) as [h1 prepared].
  destruct prepared as [v | e]; cbn [lift] in H; [| finish H; lia].
  unfold ret in H.
  destruct (submit_generation api net (Store.json_dumps h1 v) w) as [o w1] eqn:E.
  apply submit_generation_inv in E. destruct E as (tr1 & _ & _ & _ & Hn & _).
  destruct o as [id | e |]; [| finish H; lia | finish H; lia].
  destruct (truthy id); cbn [negb] in H; [| finish H; lia].
  apply api_wait_for_completion_inv in H. destruct H as (tr2 & _ & _ & Hn' & _). lia.
Qed.

(** The time a result counts in the summary. *)
Definition counted (result : GenerationResult) : Z :=
  if success result
  then match generation_time result with Some t => t | None => 0 end
  else 0.

Lemma generate_image_counted request w result w' :
  generate_image api net file request w = (Return result, w') ->
  (success result = true -> exists t, generation_time result = Some t)
  /\ 0 <= counted result <= now w' - now w.
Proof.
  intros H. pose proof (generate_image_clock _ _ _ _ H) as Hn.
  apply generate_image_ends in H. unfold counted.
  destruct H as [[-> _] | [[-> _] | (id & payload & w1 & _ & _ & _ & _ & _ & _ & Ht &
                                     [-> | (found & -> & _)])]];
    cbn; (split; [intros Hs; try discriminate; eauto | lia]).
Qed.

Lemma batch_generate_inv requests : forall w r w',
  batch_generate api net file requests w = (r, w') ->
  r <> Diverge
  /\ (forall e, r = Raised e -> is_RequestException e = false)
  /\ (posts (trace w')
      <= posts (trace w) + length requests * Z.to_nat (max_retries api))%nat
  /\ now w <= now w'
  /\ (forall results, r = Return results ->
        length results = length requests
        /\ exists s,
             sum_times results = Ok s
             /\ 0 <= s
             /\ s + 500 * Z.of_nat (length requests) <= now w' - now w).
Proof.
  induction requests as [| request rest IH]; intros w r w' H.
  - cbn in H. finish H. repeat split; try discriminate; try lia.
    + inversion H; subst. reflexivity.
    + inversion H; subst. exists 0. cbn. repeat split; lia.
  - cbn [batch_generate] in H. unfold bind in H.
    destruct (generate_image api net file request w) as [o w1] eqn:E.
    pose proof (generate_image_clock _ _ _ _ E) as Hn.
    pose proof (generate_image_posts _ _ _ _ _ _ _ E) as [Hp Hd].
    pose proof (generate_image_local _ _ _ _ _ _ _ E) as [_ Hraise].
    destruct o as [result | e |]; [| | now contradiction Hd].
    2: { finish H. repeat split; try discriminate; try lia.
         intros e' He. inversion He; subst. now apply Hraise. }
    apply generate_image_counted in E. destruct E as [Htime Hcount].
    unfold sleep in H. cbn in H.
    match type of H with context [batch_generate _ _ _ _ ?w2] =>
      destruct (batch_generate api net file rest w2) as [o2 w3] eqn:E2 end.
    apply IH in E2. cbn in E2. destruct E2 as (Hd2 & Hraise2 & Hp2 & Hn2 & Hres).
    revert Hp2. count. intros Hp2.
    destruct o2 as [results | e |]; [| | now contradiction Hd2].
    + unfold ret in H. finish H.
      destruct (Hres results eq_refl) as (Hlen & s & Hs & Hs0 & Hs1).
      repeat split; try discriminate; try lia.
      * inversion H; subst. cbn. now rewrite Hlen.
      * inversion H; subst. unfold counted in Hcount. cbn [sum_times].
        destruct (success result).
        -- destruct (Htime eq_refl) as [t Ht]. rewrite Ht in Hcount |- *.
           rewrite Hs. cbn. exists (t + s). repeat split; lia.
        -- exists s. repeat split; auto; lia.
    + finish H. repeat split; try discriminate; try lia.
      intros e' He. inversion He; subst. now apply Hraise2.
Qed.

End ApiBatch.

Lemma batch_generate_split api net file rs1 rs2 w :
  QwenImageAPI.batch_generate api net file (rs1 ++ rs2) w
  = match QwenImageAPI.batch_generate api net file rs1 w with
    | (Return a, w1) =>
        match QwenImageAPI.batch_generate api net file rs2 w1 with
        | (Return b, w2) => (Return (a ++ b), w2)
        | (Raised e, w2) => (Raised e, w2)
        | (Diverge, w2) => (Diverge, w2)
        end
    | (Raised e, w1) => (Raised e, w1)
    | (Diverge, w1) => (Diverge, w1)
    end.
Proof.
  revert w. induction rs1 as [| request rest IH]; intros w.
  - cbn. destruct (QwenImageAPI.batch_generate api net file rs2 w) as [[b | e |] w2];
      reflexivity.
  - cbn [app QwenImageAPI.batch_generate]. unfold bind.
    destruct (QwenImageAPI.generate_image api net file request w) as [[result | e |] w1];
      try reflexivity.
    destruct (sleep 500 w1) as [[[] | e |] w2]; try reflexivity.
    rewrite IH.
    destruct (QwenImageAPI.batch_generate api net file rest w2) as [[a | e |] w3];
      try reflexivity.
    unfold ret.
    destruct (QwenImageAPI.batch_generate api net file rs2 w3) as [[b | e |] w4];
      reflexivity.
Qed.

(** X3.  [batch_generate] always ends and no transport error leaves it.  It
    makes at most [max_retries] submission attempts for each request; when it
    returns, there is one result for each request, and at least half a
    second has passed for each request. *)
Theorem batch_generate_one_result_per_request
    (api : QwenImageAPI.QwenImageAPI) (net : script) (file : option json)
    (requests : list QwenImageAPI.GenerationRequest) (w : world)
    (r : outcome (list QwenImageAPI.GenerationResult)) (w' : world) :
  QwenImageAPI.batch_generate api net file requests w = (r, w') ->
  r <> Diverge
  /\ (forall e, r = Raised e -> is_RequestException e = false)
  /\ (posts (trace w')
      <= posts (trace w) + length requests * Z.to_nat (QwenImageAPI.max_retries api))%nat
  /\ (forall results, r = Return results ->
        length results = length requests
        /\ now w + 500 * Z.of_nat (length requests) <= now w').
Proof.
  intros H. apply batch_generate_inv in H.
  destruct H as (Hd & Hraise & Hp & _ & Hres).
  split; [exact Hd |]. split; [exact Hraise |]. split; [exact Hp |].
  intros results Hr. destruct (Hres results Hr) as (Hlen & s & _ & Hs0 & Hs1).
  split; [exact Hlen | lia].
Qed.

Lemma batch_generate_one_result_per_request_witness :
  exists results w',
    QwenImageAPI.batch_generate QwenImageAPI.default_api unreachable
      (Some sample_workflow) [sample_request; sample_request] dawn = (Return results, w')
    /\ length results = 2%nat
    /\ (posts (trace w') <= 6)%nat
    /\ 1000 <= now w'.
Proof.
  assert (E : exists results w',
             QwenImageAPI.batch_generate QwenImageAPI.default_api unreachable
               (Some sample_workflow) [sample_request; sample_request] dawn
             = (Return results, w')).
  { vm_compute. eexists. eexists. reflexivity. }
  destruct E as (results & w' & E). exists results, w'. split; [exact E |].
  destruct (batch_generate_one_result_per_request _ _ _ _ _ _ _ E) as (_ & _ & Hp & Hres).
  destruct (Hres results eq_refl) as [Hlen Hnow].
  split; [exact Hlen |]. split; [exact Hp | exact Hnow].
Defined.

(** X4.  A batch of requests is the batch of its first part followed by the
    batch of the rest, run in the world the first part leaves: the results
    are those of the two parts, one after the other. *)
Theorem batch_generate_app
    (api : QwenImageAPI.QwenImageAPI) (net : script) (file : option json)
    (first rest : list QwenImageAPI.GenerationRequest) (w : world) :
  QwenImageAPI.batch_generate api net file (first ++ rest) w
  = bind (QwenImageAPI.batch_generate api net file first) (fun a =>
    bind (QwenImageAPI.batch_generate api net file rest) (fun b =>
    ret (a ++ b))) w.
Proof.
  rewrite batch_generate_split. unfold bind, ret.
  destruct (QwenImageAPI.batch_generate api net file first w) as [[a | e |] w1];
    reflexivity.
Qed.

(** X5.  An exception that leaves [generate_image] for one request ends the
    whole batch: [batch_generate] raises it, the results of the requests
    before are not returned, and the requests after are not made. *)
Theorem batch_generate_stops_at_exception
    (api : QwenImageAPI.QwenImageAPI) (net : script) (file : option json)
    (done : list QwenImageAPI.GenerationRequest)
    (request : QwenImageAPI.GenerationRequest)
    (rest : list QwenImageAPI.GenerationRequest)
    (w : world) (results : list QwenImageAPI.GenerationResult) (w1 : world)
    (e : exn) (w2 : world) :
  QwenImageAPI.batch_generate api net file done w = (Return results, w1) ->
  QwenImageAPI.generate_image api net file request w1 = (Raised e, w2) ->
  QwenImageAPI.batch_generate api net file (done ++ request :: rest) w = (Raised e, w2).
Proof.
  intros Hdone Hraise. rewrite batch_generate_split, Hdone.
  cbn [QwenImageAPI.batch_generate]. unfold bind. now rewrite Hraise.
Qed.

(** The second request of the batch is answered with a history instead of a
    handle: a document without [prompt_id]. *)
Lemma batch_generate_stops_at_exception_witness :
  fst (QwenImageAPI.batch_generate QwenImageAPI.default_api (smooth "abc" "out.png")
         (Some sample_workflow) [sample_request; sample_request; sample_request] dawn)
  = Raised (KeyError (JStr "prompt_id"))
  /\ posts (trace (snd (QwenImageAPI.batch_generate QwenImageAPI.default_api
                          (smooth "abc" "out.png") (Some sample_workflow)
                          [sample_request; sample_request; sample_request] dawn)))
     = 2%nat.
Proof.
  assert (E1 : exists results w1 w2,
             QwenImageAPI.batch_generate QwenImageAPI.default_api (smooth "abc" "out.png")
               (Some sample_workflow) [sample_request] dawn = (Return results, w1)
             /\ QwenImageAPI.generate_image QwenImageAPI.default_api
                  (smooth "abc" "out.png") (Some sample_workflow) sample_request w1
                = (Raised (KeyError (JStr "prompt_id")), w2)
             /\ posts (trace w2) = 2%nat).
  { exists (match fst (QwenImageAPI.batch_generate QwenImageAPI.default_api
                          (smooth "abc" "out.png") (Some sample_workflow)
                          [sample_request] dawn)
            with Return results => results | _ => [] end),
           (snd (QwenImageAPI.batch_generate QwenImageAPI.default_api
                   (smooth "abc" "out.png") (Some sample_workflow) [sample_request] dawn)),
           (snd (QwenImageAPI.generate_image QwenImageAPI.default_api
                   (smooth "abc" "out.png") (Some sample_workflow) sample_request
                   (snd (QwenImageAPI.batch_generate QwenImageAPI.default_api
                           (smooth "abc" "out.png") (Some sample_workflow)
                           [sample_request] dawn)))).
    vm_compute. repeat split. }
  destruct E1 as (results & w1 & w2 & Hdone & Hraise & Hposts).
  pose proof (batch_generate_stops_at_exception _ _ _ [sample_request] sample_request
                [sample_request] _ _ _ _ _ Hdone Hraise) as Hbatch.
  cbn [app] in Hbatch. rewrite Hbatch.
  split; [reflexivity | exact Hposts].
Defined.

(** X6.  The batch summary of [main] never fails on what [batch_generate]
    returned: every success carries its generation time.  It counts one
    request for each request made; the total time is at most the time the
    batch took, less the half second slept after each request; and the
    average is the total over the number of successes, or N/A when there is
    none. *)
Theorem batch_summary_of_batch
    (api : QwenImageAPI.QwenImageAPI) (net : script) (file : option json)
    (requests : list QwenImageAPI.GenerationRequest) (w : world)
    (results : list QwenImageAPI.GenerationResult) (w' : world) :
  QwenImageAPI.batch_generate api net file requests w = (Return results, w') ->
  exists s,
    QwenImageAPI.batch_summary results = Ok s
    /\ QwenImageAPI.requested s = length requests
    /\ (QwenImageAPI.successful s <= QwenImageAPI.requested s)%nat
    /\ 0 <= QwenImageAPI.total_time s
    /\ QwenImageAPI.total_time s + 500 * Z.of_nat (length requests) <= now w' - now w
    /\ QwenImageAPI.average_time s
       = if (0 <? QwenImageAPI.successful s)%nat
         then Some (Qdiv (inject_Z (QwenImageAPI.total_time s))
                         (inject_Z (Z.of_nat (QwenImageAPI.successful s))))
         else None.
Proof.
  intros H. apply batch_generate_inv in H. destruct H as (_ & _ & _ & _ & Hres).
  destruct (Hres results eq_refl) as (Hlen & s & Hs & Hs0 & Hs1).
  unfold QwenImageAPI.batch_summary. rewrite Hs. cbn [rbind].
  pose proof (List.filter_length_le QwenImageAPI.success results) as Hle.
  destruct (length (List.filter QwenImageAPI.success results)) as [| k] eqn:Ek.
  - cbn. eexists. split; [reflexivity |]. cbn. repeat split; auto; lia.
  - change (0 <? S k)%nat with true. cbv iota.
    rewrite truediv_nonzero by lia. cbn [rbind]. eexists. split; [reflexivity |].
    cbn -[Z.of_nat]. repeat split; auto; lia.
Qed.

Lemma batch_summary_of_batch_witness :
  exists s,
    QwenImageAPI.batch_summary
      (match fst (QwenImageAPI.batch_generate QwenImageAPI.default_api
                    (smooth "abc" "out.png") (Some sample_workflow) [sample_request] dawn)
       with Return results => results | _ => [] end) = Ok s
    /\ QwenImageAPI.requested s = 1%nat
    /\ QwenImageAPI.total_time s + 500 <= 700.
Proof.
  assert (E : exists results w',
             QwenImageAPI.batch_generate QwenImageAPI.default_api (smooth "abc" "out.png")
               (Some sample_workflow) [sample_request] dawn = (Return results, w')
             /\ now w' = 700).
  { vm_compute. eexists. eexists. split; reflexivity. }
  destruct E as (results & w' & E & Hnow).
  destruct (batch_summary_of_batch _ _ _ _ _ _ _ E) as (s & Hs & Hreq & _ & _ & Htime & _).
  exists s. rewrite E. cbn [fst]. split; [exact Hs |]. split; [exact Hreq |].
  rewrite Hnow in Htime. exact Htime.
Defined.

(** ** What repeated failure costs [submit_generation] *)

(** The time slept in a run. *)
Definition slept (tr : list event) : Z :=
  fold_right (fun e s => match e with Sleep _ d => d + s | _ => s end) 0 tr.

Lemma slept_app (tr tr' : list event) : slept (tr ++ tr') = slept tr + slept tr'.
Proof.
  induction tr as [| e tr IH]; cbn; [reflexivity |].
  fold (slept (tr ++ tr')). fold (slept tr). destruct e; lia.
Qed.

Section SubmissionCost.
Import QwenImageAPI.
Variable api : QwenImageAPI.
Variable net : script.

(** The delays of the attempts of a list: all of them when the attempts are
    answered, and but for the last attempt the client can make when they
    are not. *)
Definition delays (answered : bool) (attempts : list Z) : Z :=
  fold_right (fun a s =>
                (if answered || (a <? max_retries api - 1) then backoff_delay api a else 0) + s)
             0 attempts.

Definition rate_limited (a : answer) : Prop :=
  exists response, reply a = inr response /\ status_code response = 429.

Definition lost (a : answer) : Prop := exists msg, reply a = inl msg.

Lemma submit_attempts_cost (answered : bool) document attempts : forall w,
  (forall n, if answered then rate_limited (net n) else lost (net n)) ->
  0 <= retry_delay api ->
  Forall (fun a => 0 <= a) attempts ->
  exists w',
    submit_attempts api net (Ok document) attempts w = (Return JNull, w')
    /\ posts (trace w') = (posts (trace w) + length attempts)%nat
    /\ gets (trace w') = gets (trace w)
    /\ slept (trace w') = slept (trace w) + delays answered attempts.
Proof.
  intros w Hnet Hdelay. revert w.
  induction attempts as [| attempt rest IH]; intros w Hpos.
  - exists w. cbn. repeat split; lia.
  - inversion Hpos as [| ? ? Ha Hrest]; subst.
    assert (Hb : 0 <= backoff_delay api attempt) by (unfold backoff_delay; nia).
    assert (Hs : (backoff_delay api attempt <? 0) = false) by (apply Z.ltb_ge; lia).
    specialize (Hnet (calls w)).
    cbn [submit_attempts delays fold_right]. fold (delays answered rest).
    unfold submit_attempt, catch, post, http, bind. cbv zeta.
    destruct answered.
    + destruct Hnet as (response & Hr & Hstatus). rewrite Hr. cbn.
      rewrite Hstatus. cbn. unfold sleep. rewrite Hs. cbn.
      match goal with |- context [submit_attempts _ _ _ _ ?w1] =>
        destruct (IH w1 Hrest) as (w' & E & Hp & Hg & Hsl) end.
      exists w'. rewrite E. cbn in Hp, Hg, Hsl. revert Hp Hg Hsl.
      rewrite !slept_app. count. cbn [length slept fold_right].
      repeat split; lia.
    + destruct Hnet as (msg & Hr). rewrite Hr. cbn.
      destruct (attempt <? max_retries api - 1).
      * unfold sleep. rewrite Hs. cbn.
        match goal with |- context [submit_attempts _ _ _ _ ?w1] =>
          destruct (IH w1 Hrest) as (w' & E & Hp & Hg & Hsl) end.
        exists w'. rewrite E. cbn in Hp, Hg, Hsl. revert Hp Hg Hsl.
        rewrite !slept_app. count. cbn [length slept fold_right].
        repeat split; lia.
      * cbn.
        match goal with |- context [submit_attempts _ _ _ _ ?w1] =>
          destruct (IH w1 Hrest) as (w' & E & Hp & Hg & Hsl) end.
        exists w'. rewrite E. cbn in Hp, Hg, Hsl. revert Hp Hg Hsl.
        rewrite !slept_app. count. cbn [length slept fold_right].
        repeat split; lia.
Qed.

Lemma delays_range (answered : bool) (n : nat) :
  Z.of_nat n <= max_retries api ->
  2 * delays answered (map Z.of_nat (seq 0 n))
  = if answered then retry_delay api * (Z.of_nat n * (Z.of_nat n + 1))
    else if Z.of_nat n <? max_retries api
         then retry_delay api * (Z.of_nat n * (Z.of_nat n + 1))
         else retry_delay api * (Z.of_nat n * (Z.of_nat n - 1)).
Proof.
  induction n as [| n IH]; intros Hn.
  - cbn [seq map]. unfold delays. cbn [fold_right]. change (Z.of_nat 0) with 0.
    destruct answered; [lia |]. destruct (0 <? max_retries api); lia.
  - rewrite seq_S, map_app. cbn [map].
    unfold delays in *. rewrite fold_right_app. cbn [fold_right Nat.add].
    assert (Hfold : forall (l : list Z) (x : Z),
               fold_right (fun a s =>
                 (if answered || (a <? max_retries api - 1) then backoff_delay api a else 0) + s)
                 x l
               = fold_right (fun a s =>
                 (if answered || (a <? max_retries api - 1) then backoff_delay api a else 0) + s)
                 0 l + x).
    { induction l as [| a l IHl]; intros x; cbn; [lia |]. rewrite IHl. lia. }
    rewrite Hfold. specialize (IH ltac:(lia)).
    rewrite Nat2Z.inj_succ in *. unfold Z.succ in *.
    match type of IH with 2 * ?F = _ => set (total := F) in * end.
    unfold backoff_delay.
    destruct answered; cbn [orb] in *.
    + nia.
    + destruct (Z.ltb_spec (Z.of_nat n) (max_retries api)); [| lia].
      destruct (Z.ltb_spec (Z.of_nat n) (max_retries api - 1));
        destruct (Z.ltb_spec (Z.of_nat n + 1) (max_retries api)); try lia; nia.
Qed.

End SubmissionCost.

(** X7.  When every attempt is answered 429, [submit_generation] makes all
    its [max_retries] attempts and sleeps after each of them, also after the
    last: [retry_delay * (1 + 2 + ... + max_retries)] in all.  When every
    attempt meets a transport error, it does not sleep after the last one:
    [retry_delay * (1 + 2 + ... + (max_retries - 1))] in all.  Either way it
    returns [None] and nothing was polled. *)
Theorem submission_failure_cost
    (api : QwenImageAPI.QwenImageAPI) (net : script) (document : json) (w : world)
    (answered : bool) :
  (forall n, if answered then rate_limited (net n) else lost (net n)) ->
  0 <= QwenImageAPI.retry_delay api ->
  0 <= QwenImageAPI.max_retries api ->
  exists w',
    QwenImageAPI.submit_generation api net (Ok document) w = (Return JNull, w')
    /\ Z.of_nat (posts (trace w')) = Z.of_nat (posts (trace w)) + QwenImageAPI.max_retries api
    /\ gets (trace w') = gets (trace w)
    /\ 2 * (slept (trace w') - slept (trace w))
       = QwenImageAPI.retry_delay api
         * (QwenImageAPI.max_retries api
            * (if answered then QwenImageAPI.max_retries api + 1
               else QwenImageAPI.max_retries api - 1)).
Proof.
  intros Hnet Hdelay Hmax. unfold QwenImageAPI.submit_generation, QwenImageAPI.range.
  destruct (submit_attempts_cost api net answered document
              (map Z.of_nat (seq 0 (Z.to_nat (QwenImageAPI.max_retries api)))) w Hnet Hdelay)
    as (w' & E & Hp & Hg & Hs).
  { apply List.Forall_forall. intros a Ha. apply in_map_iff in Ha.
    destruct Ha as (k & <- & _). lia. }
  exists w'. split; [exact E |].
  rewrite length_map, length_seq in Hp.
  split; [lia |]. split; [exact Hg |].
  pose proof (delays_range api answered (Z.to_nat (QwenImageAPI.max_retries api))
                ltac:(lia)) as Hd.
  rewrite Z2Nat.id in Hd by lia. rewrite Hs.
  destruct answered; [lia |].
  rewrite Z.ltb_irrefl in Hd. lia.
Qed.

Lemma submission_failure_cost_witness :
  exists w',
    QwenImageAPI.submit_generation QwenImageAPI.default_api (always 429)
      (Ok sample_workflow) dawn = (Return JNull, w')
    /\ slept (trace w') = 6000
    /\ exists w'',
         QwenImageAPI.submit_generation QwenImageAPI.default_api unreachable
           (Ok sample_workflow) dawn = (Return JNull, w'')
         /\ slept (trace w'') = 3000.
Proof.
  destruct (submission_failure_cost QwenImageAPI.default_api (always 429)
              sample_workflow dawn true) as (w' & E & _ & _ & Hs).
  { intros n. eexists. split; reflexivity. }
  { cbn. lia. }
  { cbn. lia. }
  destruct (submission_failure_cost QwenImageAPI.default_api unreachable
              sample_workflow dawn false) as (w'' & E' & _ & _ & Hs').
  { intros n. eexists. reflexivity. }
  { cbn. lia. }
  { cbn. lia. }
  exists w'. split; [exact E |]. split.
  - cbn in Hs. lia.
  - exists w''. split; [exact E' |]. cbn in Hs'. lia.
Defined.

(** X8.  An answer with status 200 that is JSON but has no [prompt_id] is
    not handled: the exception of the lookup leaves [submit_generation] at
    once, after that one attempt and without a sleep, whatever attempts were
    left. *)
Theorem submission_without_handle
    (api : QwenImageAPI.QwenImageAPI) (net : script) (workflow : json) (w : world)
    (response : response) (document : json) (e : exn) :
  1 <= QwenImageAPI.max_retries api ->
  reply (net (calls w)) = inr response ->
  status_code response = 200 ->
  body response = Some document ->
  getitem document (JStr "prompt_id") = Raise e ->
  QwenImageAPI.submit_generation api net (Ok workflow) w
  = (Raised e,
     {| now := now w + Z.of_N (latency (net (calls w)));
        calls := S (calls w);
        trace := trace w ++ [Post (now w) workflow] |}).
Proof.
  intros Hmax Hr Hs Hb He.
  unfold QwenImageAPI.submit_generation, QwenImageAPI.range.
  destruct (Z.to_nat (QwenImageAPI.max_retries api)) as [| n] eqn:En; [lia |].
  cbn [seq map QwenImageAPI.submit_attempts]. unfold bind at 1.
  unfold QwenImageAPI.submit_attempt, catch, post, http, bind. cbv zeta.
  rewrite Hr. cbv iota beta. rewrite Hs. cbn [Z.eqb Pos.eqb].
  unfold lift, response_json. rewrite Hb. unfold ret at 1. cbv iota beta.
  rewrite He. unfold raise. cbv iota beta.
  now rewrite (local_getitem _ _ _ He).
Qed.

Lemma submission_without_handle_witness :
  QwenImageAPI.submit_generation QwenImageAPI.default_api
    (fun _ => {| latency := 100; reply := inr empty_history |}) (Ok sample_workflow) dawn
  = (Raised (KeyError (JStr "prompt_id")),
     {| now := 100; calls := 1; trace := [Post 0 sample_workflow] |}).
Proof.
  apply (submission_without_handle QwenImageAPI.default_api
           (fun _ => {| latency := 100; reply := inr empty_history |})
           sample_workflow dawn empty_history (JObj [])).
  - cbn. lia.
  - reflexivity.
  - reflexivity.
  - reflexivity.
  - reflexivity.
Defined.

(** X9.  With [max_retries] zero or less [submit_generation] makes no
    attempt at all: it returns [None] at once, and [generate_image] reports
    "Failed to submit generation request" for a workflow that loads, with
    nothing sent. *)
Theorem no_attempt_without_retries
    (api : QwenImageAPI.QwenImageAPI) (net : script) (file : option json)
    (request : QwenImageAPI.GenerationRequest) (w : world) (payload : res json) :
  QwenImageAPI.max_retries api <= 0 ->
  payload_of file request (now w) = Some payload ->
  QwenImageAPI.submit_generation api net payload w = (Return JNull, w)
  /\ QwenImageAPI.generate_image api net file request w
     = (Return (QwenImageAPI.failure "Failed to submit generation request"), w).
Proof.
  intros Hmax Hpay.
  assert (Hsub : forall p, QwenImageAPI.submit_generation api net p w = (Return JNull, w)).
  { intros p. unfold QwenImageAPI.submit_generation, QwenImageAPI.range.
    replace (Z.to_nat (QwenImageAPI.max_retries api)) with 0%nat by lia. reflexivity. }
  split; [apply Hsub |].
  unfold payload_of in Hpay. unfold QwenImageAPI.generate_image.
  destruct (QwenImageAPI.load_workflow file) as [doc |]; [| discriminate].
  destruct (truthy doc); [| discriminate]. cbn [negb].
  destruct (Store.loads doc []) as [h0 workflow].
  unfold bind, time_time.
  destruct (QwenImageAPI.prepare_workflow h0 workflow request (now w)) as [h1 prepared].
  destruct prepared as [v | e]; [| discriminate].
  cbn [lift]. unfold ret. now rewrite Hsub.
Qed.

Lemma no_attempt_without_retries_witness :
  QwenImageAPI.generate_image
    {| QwenImageAPI.timeout := 60; QwenImageAPI.max_retries := 0;
       QwenImageAPI.retry_delay := 1000 |}
    (smooth "abc" "out.png") (Some sample_workflow) sample_request dawn
  = (Return (QwenImageAPI.failure "Failed to submit generation request"), dawn).
Proof.
  apply (no_attempt_without_retries
           {| QwenImageAPI.timeout := 60; QwenImageAPI.max_retries := 0;
              QwenImageAPI.retry_delay := 1000 |}
           (smooth "abc" "out.png") (Some sample_workflow) sample_request dawn
           sample_payload).
  - cbn. lia.
  - reflexivity.
Defined.
(** ** A job whose history has no output *)

(** X11.  A history that has the job without any output: [api_integration.py]
    takes the job as done and returns a success with an empty list of
    images, while [quick_start.py] and [batch_generation.py] take it as not
    finished, sleep a second and poll again. *)
Theorem job_without_images
    (api : QwenImageAPI.QwenImageAPI) (timeout : Z)
    (config : BatchGenerator.BatchConfig) (env : BatchGenerator.job)
    (prompt_data : string * option Z) (job_index : nat)
    (fuel : nat) (start_time generation_start : Z)
    (id : json) (w : world) (response : response) (history entry : json) :
  reply (BatchGenerator.net env (calls w)) = inr response ->
  status_code response = 200 ->
  body response = Some history ->
  contains id history = Ok true ->
  getitem history id = Ok entry ->
  get_or_empty entry "outputs" = Ok (JObj []) ->
  now w - start_time < QwenImageAPI.timeout api * 1000 ->
  now w - start_time < timeout * 1000 ->
  now w - generation_start < BatchGenerator.timeout config * 1000 ->
  QwenImageAPI.poll api (BatchGenerator.net env) (S fuel) id start_time w
  = (Return (found_at id (now (after_call (BatchGenerator.net env) id w) - start_time) []),
     after_call (BatchGenerator.net env) id w)
  /\ QwenImageGenerator.poll timeout (BatchGenerator.net env) (S fuel) id start_time w
     = QwenImageGenerator.poll timeout (BatchGenerator.net env) fuel id start_time
         (after_miss (BatchGenerator.net env) id w)
  /\ BatchGenerator.poll config env prompt_data job_index (S fuel) id start_time
       generation_start w
     = BatchGenerator.poll config env prompt_data job_index fuel id start_time
         generation_start (after_miss (BatchGenerator.net env) id w).
Proof.
  intros Hr Hs Hb Hc Hg Ho Ha Hq Hbt.
  assert (Hapi : QwenImageAPI.read_history id history = Ok (Some []))
    by (unfold QwenImageAPI.read_history; rewrite Hc; cbn [rbind]; rewrite Hg;
        cbn [rbind]; now rewrite Ho).
  assert (Hquick : QwenImageGenerator.read_history id history = Ok None)
    by (unfold QwenImageGenerator.read_history; rewrite Hc; cbn [rbind]; rewrite Hg;
        cbn [rbind]; now rewrite Ho).
  assert (Hbatch : BatchGenerator.read_history id history = Ok None)
    by (unfold BatchGenerator.read_history; rewrite Hc; cbn [rbind]; rewrite Hg;
        cbn [rbind]; now rewrite Ho).
  split; [| split].
  - cbn [QwenImageAPI.poll]. unfold bind at 1, time_time.
    replace (now w - start_time <? QwenImageAPI.timeout api * 1000) with true
      by (symmetry; apply Z.ltb_lt; lia).
    unfold bind at 1.
    unfold QwenImageAPI.poll_once, catch, get, http, bind. cbv zeta.
    rewrite Hr. cbv iota beta. rewrite Hs. cbn [Z.eqb Pos.eqb].
    unfold lift, response_json. rewrite Hb.
    cbn -[QwenImageAPI.read_history QwenImageAPI.poll Z.add Z.of_N Z.sub].
    rewrite Hapi. reflexivity.
  - cbn [QwenImageGenerator.poll]. unfold bind at 1, time_time.
    replace (now w - start_time <? timeout * 1000) with true
      by (symmetry; apply Z.ltb_lt; lia).
    unfold bind at 1.
    unfold QwenImageGenerator.poll_once, catch, get, http, bind. cbv zeta.
    rewrite Hr. cbv iota beta. rewrite Hs. cbn [Z.eqb Pos.eqb].
    unfold lift, response_json. rewrite Hb.
    cbn -[QwenImageGenerator.read_history QwenImageGenerator.poll Z.add Z.of_N Z.sub].
    rewrite Hquick.
    cbn. unfold after_miss. rewrite <- app_assoc. reflexivity.
  - cbn [BatchGenerator.poll]. unfold bind at 1, time_time.
    replace (now w - generation_start <? BatchGenerator.timeout config * 1000) with true
      by (symmetry; apply Z.ltb_lt; lia).
    unfold get, http, bind. cbv zeta.
    rewrite Hr. cbv iota beta. rewrite Hs. cbn [Z.eqb Pos.eqb].
    unfold lift, response_json. rewrite Hb.
    cbn -[BatchGenerator.read_history BatchGenerator.poll Z.add Z.of_N Z.sub].
    rewrite Hbatch.
    cbn. unfold after_miss. rewrite <- app_assoc. reflexivity.
Qed.

(** A service whose history has the job, without outputs. *)
Definition bare : script :=
  fun _ => {| latency := 100;
              reply := inr {| status_code := 200;
                              body := Some (JObj [("abc", JObj [])]) |} |}.

Lemma job_without_images_witness :
  QwenImageAPI.poll QwenImageAPI.default_api bare 61 (JStr "abc") 0 dawn
  = (Return (found_at (JStr "abc") 100 []),
     {| now := 100; calls := 1; trace := [Get 0 (JStr "abc")] |})
  /\ QwenImageGenerator.poll 60 bare 61 (JStr "abc") 0 dawn
     = QwenImageGenerator.poll 60 bare 60 (JStr "abc") 0
         {| now := 1100; calls := 1; trace := [Get 0 (JStr "abc"); Sleep 100 1000] |}.
Proof.
  destruct (job_without_images QwenImageAPI.default_api 60 batch_config
              {| BatchGenerator.started := 0;
                 BatchGenerator.file := Some sample_workflow;
                 BatchGenerator.net := bare |}
              ("A cyberpunk city", None) 0 60 0 0 (JStr "abc") dawn
              {| status_code := 200; body := Some (JObj [("abc", JObj [])]) |}
              (JObj [("abc", JObj [])]) (JObj []))
    as (Ha & Hq & _); try reflexivity; try (cbn; lia).
  split; [exact Ha | exact Hq].
Defined.

(** ** The outcomes of [generate_single] in [batch_generation.py] *)

Section BatchOutcomes.
Import BatchGenerator.
Variable config : BatchConfig.
Variable env : job.
Variable prompt_data : string * option Z.
Variable job_index : nat.

(** The result dict of a job that succeeded. *)
Definition succeeded (id name : json) (t : Z) : Result :=
  {| index := job_index;
     prompt := fst prompt_data;
     seed := snd prompt_data;
     success := true;
     filename := Some name;
     generation_time := t;
     error := None;
     prompt_id := Some id |}.

Lemma batch_poll_returns fuel id start_time generation_start : forall w result w',
  poll config env prompt_data job_index fuel id start_time generation_start w
  = (Return result, w') ->
  ((exists name, result = succeeded id name (now w' - start_time))
   /\ (gets (trace w) < gets (trace w'))%nat)
  \/ result = with_error prompt_data job_index GenerationTimeout.
Proof.
  induction fuel as [| fuel IH]; intros w result w' H.
  - cbn in H. discriminate.
  - cbn [poll] in H. unfold bind, time_time, get, lift, ret, raise in H.
    destruct (now w - generation_start <? timeout config * 1000);
      [| finish H; now right].
    run H.
    all: try discriminate.
    all: first
      [ apply IH in H; cbn in H;
        destruct H as [[Hname Hgets] | Htimeout]; [left | now right];
        split; [exact Hname |]; revert Hgets; count; lia
      | finish H; left; split; [eexists; reflexivity | count; lia] ].
Qed.

(** What a run of the worker did, by the error of its result. *)
Definition told_by (w : world) (result : Result) (w' : world) : Prop :=
  match error result with
  | None =>
      (exists id name, result = succeeded id name (now w' - now w))
      /\ posts (trace w') = S (posts (trace w))
      /\ (gets (trace w) < gets (trace w'))%nat
  | Some e =>
      result = with_error prompt_data job_index e
      /\ match e with
         | LoadFailed => w' = w
         | SubmitFailed status =>
             status <> 200
             /\ posts (trace w') = S (posts (trace w))
             /\ calls w' = S (calls w)
         | GenerationTimeout =>
             posts (trace w') = S (posts (trace w))
             /\ timeout config * 1000 <= now w' - accepted_at env w
         | ExceptionText _ => (posts (trace w') <= S (posts (trace w)))%nat
         end
  end.

Opaque poll.

Lemma attempt_told start_time w result w' :
  attempt config env prompt_data job_index start_time w = (Return result, w') ->
  start_time = now w ->
  told_by w result w'.
Proof.
  unfold attempt. intros H Hstart.
  destruct (load_workflow (file env)) as [workflow |];
    [| finish H; split; reflexivity].
  destruct (truthy workflow); cbn [negb] in H; [| finish H; split; reflexivity].
  unfold bind, post, lift, ret, raise, time_time in H.
  run H.
  all: try discriminate.
  all: try (finish H; split; [reflexivity |]; cbn; repeat split; count;
            try lia; match goal with E : (_ =? 200) = false |- _ =>
              apply Z.eqb_neq in E; exact E end).
  all: pose proof (batch_poll_inv _ _ _ _ _ _ _ _ _ _ _ H) as (tr & Ht & Hp & _ & _ & Hr & _);
       apply batch_poll_returns in H; cbn in H, Ht, Hr;
       destruct H as [[(name & ->) Hgets] | ->]; unfold told_by; cbn [error succeeded with_error].
  all: try (split; [subst start_time; eauto |]; split;
            [rewrite Ht; count; lia | revert Hgets; count; lia]).
  all: split; [reflexivity |]; split; [rewrite Ht; count; lia |].
  all: destruct (Hr _ eq_refl) as [(Hs & _) | [_ Hlate]]; [discriminate |].
  all: unfold accepted_at; exact Hlate.
Qed.

Transparent poll.

Lemma generate_single_told w result w' :
  generate_single config env prompt_data job_index w = (Return result, w') ->
  told_by w result w'.
Proof.
  unfold generate_single, bind, time_time, catch. intros H.
  destruct (attempt config env prompt_data job_index (now w) w) as [r w1] eqn:E.
  destruct r as [result' | e |].
  - inversion H; subst. now apply attempt_told with (start_time := now w).
  - unfold ret in H. inversion H; subst. apply attempt_inv in E.
    destruct E as (Hp & _). unfold told_by. cbn. split; [reflexivity | lia].
  - discriminate.
Qed.

End BatchOutcomes.

(** X12.  [generate_single] always returns a result dict, and its [error]
    tells what the worker did.  Without an error the job succeeded: one
    submission, at least one poll, and a generation time that runs from the
    start of the worker, the loading of the workflow and the submission
    included.  "Failed to load workflow": nothing was sent.
    "Submit failed": the status was not 200 and that one submission was the
    only call, there is no retry.  "Generation timeout": the timeout has
    passed since the job was accepted.  A result that is no success has the
    generation time 0, no file name and no handle, whatever time the job
    took. *)
Theorem generate_single_outcomes
    (config : BatchGenerator.BatchConfig) (env : BatchGenerator.job)
    (prompt_data : string * option Z) (job_index : nat) (w : world) :
  exists result w',
    BatchGenerator.generate_single config env prompt_data job_index w = (Return result, w')
    /\ told_by config env prompt_data job_index w result w'
    /\ (BatchGenerator.success result = false ->
        BatchGenerator.generation_time result = 0
        /\ BatchGenerator.filename result = None
        /\ BatchGenerator.prompt_id result = None).
Proof.
  destruct (generate_single_total config env prompt_data job_index w)
    as (result & w' & E & _ & Hs).
  exists result, w'. split; [exact E |].
  pose proof (generate_single_told _ _ _ _ _ _ _ E) as Htold.
  split; [exact Htold |]. intros Hfail. unfold told_by in Htold.
  destruct Hs as [[Hok _] | [_ [e He]]]; [congruence |].
  rewrite He in Htold. destruct Htold as [-> _]. cbn. auto.
Qed.

(** ** A seed of zero *)

Section SeedZero.
Import BatchGenerator.
Variable config : BatchConfig.
Variable env : job.
Variable text : string.
Variable job_index : nat.

(** The result dict with another [seed]. *)
Definition reseeded (s : option Z) (r : Result) : Result :=
  {| index := index r;
     prompt := prompt r;
     seed := s;
     success := success r;
     filename := filename r;
     generation_time := generation_time r;
     error := error r;
     prompt_id := prompt_id r |}.

Definition reseed (s : option Z) (run : outcome Result * world) : outcome Result * world :=
  (match fst run with
   | Return r => Return (reseeded s r)
   | Raised e => Raised e
   | Diverge => Diverge
   end, snd run).

Lemma poll_reseed s fuel id start_time generation_start : forall w,
  poll config env (text, s) job_index fuel id start_time generation_start w
  = reseed s (poll config env (text, None) job_index fuel id start_time generation_start w).
Proof.
  induction fuel as [| fuel IH]; intros w; [reflexivity |].
  cbn [poll]. unfold bind, time_time.
  destruct (now w - generation_start <? timeout config * 1000); [| reflexivity].
  destruct (get (net env) id w) as [[history_response | e |] w1]; try reflexivity.
  match goal with |- (let (_, _) := ?x in _) = _ =>
    destruct x as [[[name |] | e |] w2] end; try reflexivity.
  destruct (sleep 1000 w2) as [[[] | e |] w3]; try reflexivity.
  apply IH.
Qed.

Lemma generate_single_reseed w :
  generate_single config env (text, Some 0) job_index w
  = reseed (Some 0) (generate_single config env (text, None) job_index w).
Proof.
  unfold generate_single, attempt, reseed.
  destruct (load_workflow (file env)) as [workflow |]; [| reflexivity].
  destruct (truthy workflow); [| reflexivity]. cbn [negb fst snd Z.eqb].
  unfold bind, time_time, catch, lift, ret, raise.
  destruct (set_path workflow (node_inputs "6") "text" (JStr text)) as [workflow1 | e];
    [| reflexivity].
  destruct (post (net env) (Ok workflow1) w) as [[response | e |] w1]; try reflexivity.
  destruct (negb (status_code response =? 200)); [reflexivity |].
  destruct (response_json response) as [document | e]; [| reflexivity].
  destruct (getitem document (JStr "prompt_id")) as [id | e]; [| reflexivity].
  rewrite poll_reseed. unfold reseed.
  destruct (poll config env (text, None) job_index (poll_fuel config) id (now w) (now w1) w1)
    as [[result | e |] w2]; reflexivity.
Qed.

End SeedZero.
(** ** A generator used for more than one batch *)

(** X13.  A second [run_batch] on the same generator (with a pool,
    [0 < max_workers]) keeps the results and the counters of the first and
    adds its own, while [total] starts again: afterwards [self.results] holds
    the results of both batches, [total] is the size of the second batch
    only, and [successful + failed] exceeds it by the size of the first. *)
Theorem run_batch_again
    (as_completed : list (nat * BatchGenerator.future) -> list (nat * BatchGenerator.future))
    (config : BatchGenerator.BatchConfig) (b1 b2 : BatchGenerator.batch)
    (prompts1 prompts2 : list (string * option Z)) :
  (forall fs, Permutation (as_completed fs) fs) ->
  0 < BatchGenerator.max_workers config ->
  exists g1 g2 new,
    BatchGenerator.run_batch as_completed (BatchGenerator.init config) b1 prompts1
    = (Return (BatchGenerator.results g1), g1)
    /\ BatchGenerator.run_batch as_completed g1 b2 prompts2
       = (Return (BatchGenerator.results g2), g2)
    /\ BatchGenerator.results g2 = BatchGenerator.results g1 ++ new
    /\ length new = length prompts2
    /\ length (BatchGenerator.results g2) = (length prompts1 + length prompts2)%nat
    /\ BatchGenerator.total (BatchGenerator.stats g2) = Z.of_nat (length prompts2)
    /\ BatchGenerator.successful (BatchGenerator.stats g2)
       + BatchGenerator.failed (BatchGenerator.stats g2)
       = BatchGenerator.total (BatchGenerator.stats g2) + Z.of_nat (length prompts1)
    /\ BatchGenerator.successful (BatchGenerator.stats g2)
       = Z.of_nat (length (List.filter BatchGenerator.success (BatchGenerator.results g2))).
Proof.
  intros Hperm Hpool.
  destruct (run_batch_adds as_completed (BatchGenerator.init config) b1 prompts1 Hperm Hpool)
    as (g1 & new1 & rs1 & E1 & Hc1 & Hr1 & Hn1 & Hl1 & _ & Ht1 & _ & _ & _ & Hs1 & Hf1).
  assert (Hpool1 : 0 < BatchGenerator.max_workers (BatchGenerator.config g1))
    by (rewrite Hc1; exact Hpool).
  destruct (run_batch_adds as_completed g1 b2 prompts2 Hperm Hpool1)
    as (g2 & new2 & rs2 & E2 & _ & Hr2 & Hn2 & Hl2 & _ & Ht2 & _ & _ & _ & Hs2 & Hf2).
  apply Permutation_length in Hn1, Hn2.
  exists g1, g2, new2. cbn in Hr1, Hs1, Hf1.
  split; [exact E1 |]. split; [exact E2 |]. split; [exact Hr2 |].
  split; [lia |].
  split; [rewrite Hr2, Hr1, length_app; lia |].
  split; [exact Ht2 |]. split; [lia |].
  rewrite Hs2, Hs1, Hr2, Hr1. unfold success_count.
  rewrite List.filter_app, length_app. lia.
Qed.

Lemma run_batch_again_witness :
  BatchGenerator.run_batch (@rev _) ran_once mixed_batch two_prompts
  = (Return (BatchGenerator.results ran_twice), ran_twice)
  /\ length (BatchGenerator.results ran_twice) = 4%nat
  /\ BatchGenerator.total (BatchGenerator.stats ran_twice) = 2
  /\ BatchGenerator.successful (BatchGenerator.stats ran_twice)
     + BatchGenerator.failed (BatchGenerator.stats ran_twice) = 4.
Proof.
  destruct (run_batch_again (@rev _) batch_config mixed_batch mixed_batch
              two_prompts two_prompts rev_completes eq_refl)
    as (g1 & g2 & new & E1 & E2 & _ & _ & Hlen & Ht & Hsum & _).
  assert (H1 : ran_once = g1) by (unfold ran_once; now rewrite E1).
  assert (H2 : ran_twice = g2) by (unfold ran_twice; now rewrite H1, E2).
  rewrite H1, H2. split; [exact E2 |]. split; [exact Hlen |]. split; [exact Ht |].
  rewrite Hsum, Ht. reflexivity.
Defined.

(** ** The summary of a batch *)

Section SummaryFacts.

Lemma timing_nonempty (times : list Q) :
  times <> [] -> exists t, BatchGenerator.timing times = Ok t.
Proof.
  intros Hne. unfold BatchGenerator.timing, Statistics.mean, Statistics.median,
    Statistics.minimum, Statistics.maximum.
  assert (Hsorted : forall xs : list Q, length (Statistics.sorted xs) = length xs).
  { assert (Hins : forall x (l : list Q), length (Statistics.insert_sorted x l) = S (length l)).
    { intros x l. induction l as [| y l IH]; cbn; [reflexivity |].
      destruct (Qle_bool x y); cbn; [reflexivity | now rewrite IH]. }
    induction xs as [| x xs IH]; [reflexivity |].
    unfold Statistics.sorted in *. cbn [fold_right length]. now rewrite Hins, IH. }
  destruct times as [| x rest]; [now contradiction Hne |].
  cbn [rbind]. rewrite Hsorted. cbn [length].
  destruct (Nat.even (S (length rest))); cbn [rbind]; eauto.
Qed.

Lemma filter_split {A} (f : A -> bool) (l : list A) :
  (length (List.filter f l) + length (List.filter (fun x => negb (f x)) l))%nat = length l.
Proof.
  induction l as [| x l IH]; cbn; [reflexivity |].
  destruct (f x); cbn; lia.
Qed.

(** The share of [s] in [t], in percent. *)
Lemma percent_range (s t : Z) :
  0 <= s <= t -> 0 < t ->
  Qle (inject_Z 0) (Qmult (Qdiv (inject_Z s) (inject_Z t)) (inject_Z 100))
  /\ Qle (Qmult (Qdiv (inject_Z s) (inject_Z t)) (inject_Z 100)) (inject_Z 100).
Proof.
  intros Hs Ht. destruct t as [| p | p]; try lia.
  unfold Qle, Qmult, Qdiv, Qinv, inject_Z. cbn. split; nia.
Qed.

Lemma firstn_incl {A} (n : nat) : forall (l : list A) x, In x (firstn n l) -> In x l.
Proof.
  induction n as [| n IH]; intros l x H; [now cbn in H |].
  destruct l as [| y l]; cbn in H; [exact H |].
  destruct H as [-> | H]; [now left | right; now apply IH].
Qed.

End SummaryFacts.

(** X14.  [print_summary] divides by the number of prompts: for a generator
    that has run no batch yet it raises [ZeroDivisionError], and so it does
    for one that has run a batch without prompts (which [run_batch], given a
    pool, returns from with no result). *)
Theorem print_summary_of_nothing
    (as_completed : list (nat * BatchGenerator.future) -> list (nat * BatchGenerator.future))
    (config : BatchGenerator.BatchConfig) (b : BatchGenerator.batch) :
  (forall fs, Permutation (as_completed fs) fs) ->
  0 < BatchGenerator.max_workers config ->
  BatchGenerator.print_summary (BatchGenerator.init config) = Raise ZeroDivisionError
  /\ exists g,
       BatchGenerator.run_batch as_completed (BatchGenerator.init config) b []
       = (Return [], g)
       /\ BatchGenerator.results g = []
       /\ BatchGenerator.print_summary g = Raise ZeroDivisionError.
Proof.
  intros Hperm Hpool. split; [reflexivity |].
  destruct (run_batch_adds as_completed (BatchGenerator.init config) b [] Hperm Hpool)
    as (g & new & rs & E & _ & Hr & Hn & Hl & _ & Ht & _).
  apply Permutation_length in Hn.
  destruct new; [| cbn in Hn, Hl; lia]. cbn in Hr.
  exists g. split; [rewrite E, Hr; reflexivity |]. split; [exact Hr |].
  unfold BatchGenerator.print_summary. rewrite Ht. reflexivity.
Qed.

Lemma print_summary_of_nothing_witness :
  exists g,
    BatchGenerator.run_batch (@rev _) (BatchGenerator.init batch_config) mixed_batch []
    = (Return [], g)
    /\ BatchGenerator.print_summary g = Raise ZeroDivisionError.
Proof.
  destruct (print_summary_of_nothing (@rev _) batch_config mixed_batch rev_completes
              eq_refl)
    as (_ & g & E & _ & Hs).
  exists g. split; [exact E | exact Hs].
Defined.

(** X15.  After the first batch of a newly created generator (run with a
    pool, [0 < max_workers]) with at least one prompt, [print_summary] raises
    nothing.  The successes and the failures it prints add up to the number
    of prompts, the success rate lies between 0 and 100, the times of the
    generation are printed exactly when a job succeeded, and of the failed
    jobs the first five are listed, with the number of the others when there
    are more. *)
Theorem print_summary_of_batch
    (as_completed : list (nat * BatchGenerator.future) -> list (nat * BatchGenerator.future))
    (config : BatchGenerator.BatchConfig) (b : BatchGenerator.batch)
    (prompts : list (string * option Z)) :
  (forall fs, Permutation (as_completed fs) fs) ->
  0 < BatchGenerator.max_workers config ->
  prompts <> [] ->
  exists g s,
    BatchGenerator.run_batch as_completed (BatchGenerator.init config) b prompts
    = (Return (BatchGenerator.results g), g)
    /\ BatchGenerator.print_summary g = Ok s
    /\ BatchGenerator.total_prompts s = Z.of_nat (length prompts)
    /\ BatchGenerator.successes s + BatchGenerator.failures s
       = BatchGenerator.total_prompts s
    /\ 0 <= BatchGenerator.successes s
    /\ 0 <= BatchGenerator.failures s
    /\ Qle (inject_Z 0) (BatchGenerator.success_rate s)
    /\ Qle (BatchGenerator.success_rate s) (inject_Z 100)
    /\ (BatchGenerator.generation_times s = None <-> BatchGenerator.successes s = 0)
    /\ Z.of_nat (length (BatchGenerator.failed_shown s))
       = Z.min 5 (BatchGenerator.failures s)
    /\ Forall (fun r => BatchGenerator.success r = false /\ In r (BatchGenerator.results g))
              (BatchGenerator.failed_shown s)
    /\ BatchGenerator.failed_more s
       = (if 5 <? BatchGenerator.failures s
          then Some (Z.to_nat (BatchGenerator.failures s - 5))
          else None)
    /\ BatchGenerator.total_duration s
       = BatchGenerator.batch_ended b - BatchGenerator.batch_started b.
Proof.
  intros Hperm Hpool Hne.
  destruct (run_batch_adds as_completed (BatchGenerator.init config) b prompts Hperm Hpool)
    as (g & new & rs & E & _ & Hr & Hn & Hl & _ & Ht & Htime & Hst & Hen & Hs & Hf).
  apply Permutation_length in Hn. rewrite Hl in Hn. clear Hl. rename Hn into Hl.
  cbn in Hr, Hs, Hf. unfold success_count in Hs, Hf.
  assert (Hlen : 0 < Z.of_nat (length prompts)).
  { destruct prompts; [now contradiction Hne | cbn; lia]. }
  pose proof (filter_split BatchGenerator.success new) as Hsplit.
  pose proof (List.filter_length_le BatchGenerator.success new) as Hle.
  set (failed_results := List.filter (fun r => negb (BatchGenerator.success r))
                           (BatchGenerator.results g)).
  assert (Hfailed : BatchGenerator.failed (BatchGenerator.stats g)
                    = Z.of_nat (length failed_results)).
  { unfold failed_results. rewrite Hr. lia. }
  assert (Htimes : exists times,
             (if 0 <? BatchGenerator.successful (BatchGenerator.stats g)
              then rbind (BatchGenerator.timing
                            (map (fun r => inject_Z (BatchGenerator.generation_time r))
                               (List.filter BatchGenerator.success (BatchGenerator.results g))))
                     (fun t => Ok (Some t))
              else Ok None) = Ok times
             /\ (times = None <-> BatchGenerator.successful (BatchGenerator.stats g) = 0)).
  { destruct (Z.ltb_spec 0 (BatchGenerator.successful (BatchGenerator.stats g))) as [Hpos | Hz].
    - destruct (timing_nonempty
                  (map (fun r => inject_Z (BatchGenerator.generation_time r))
                     (List.filter BatchGenerator.success (BatchGenerator.results g))))
        as [t Ht'].
      { rewrite Hr. destruct (List.filter BatchGenerator.success new); [cbn in Hs; lia |].
        discriminate. }
      rewrite Ht'. cbn. exists (Some t). split; [reflexivity |].
      split; [discriminate | lia].
    - exists None. split; [reflexivity |]. split; [lia | reflexivity]. }
  destruct Htimes as (times & Etimes & Hnone).
  exists g. eexists. split; [exact E |].
  unfold BatchGenerator.print_summary.
  rewrite Ht, Hst, Hen, !truediv_nonzero by lia. cbn [rbind BatchGenerator.strftime].
  rewrite Etimes. cbn [rbind]. split; [reflexivity |].
  cbn [BatchGenerator.total_prompts BatchGenerator.successes BatchGenerator.failures
       BatchGenerator.success_rate BatchGenerator.generation_times
       BatchGenerator.failed_shown BatchGenerator.failed_more
       BatchGenerator.total_duration].
  fold failed_results.
  destruct (percent_range (BatchGenerator.successful (BatchGenerator.stats g))
              (Z.of_nat (length prompts))) as [Hlo Hhi]; [lia | lia |].
  split; [reflexivity |]. split; [lia |]. split; [lia |]. split; [lia |].
  split; [exact Hlo |]. split; [exact Hhi |]. split; [exact Hnone |].
  split; [rewrite length_firstn, Hfailed; lia |].
  split.
  { apply List.Forall_forall. intros r Hin. apply firstn_incl in Hin.
    unfold failed_results in Hin. apply List.filter_In in Hin.
    destruct Hin as [Hin Hneg]. split; [| exact Hin].
    now destruct (BatchGenerator.success r). }
  split; [| exact Htime].
  rewrite Hfailed.
  destruct (Nat.ltb_spec 5 (length failed_results));
    destruct (Z.ltb_spec 5 (Z.of_nat (length failed_results))); try lia; [| reflexivity].
  f_equal. lia.
Qed.

Lemma print_summary_of_batch_witness :
  exists g s,
    BatchGenerator.run_batch (@rev _) (BatchGenerator.init batch_config) mixed_batch
      two_prompts = (Return (BatchGenerator.results g), g)
    /\ BatchGenerator.print_summary g = Ok s
    /\ BatchGenerator.successes s + BatchGenerator.failures s = 2.
Proof.
  destruct (print_summary_of_batch (@rev _) batch_config mixed_batch two_prompts
              rev_completes eq_refl) as (g & s & E & Hs & Ht & Hsum & _).
  - discriminate.
  - exists g, s. split; [exact E |]. split; [exact Hs |]. rewrite Hsum, Ht. reflexivity.
Defined.

(** ** The report of the benchmark *)

Section BenchmarkFacts.
Import PerformanceBenchmark.

Lemma mean_nonempty (xs : list Q) :
  nonempty xs = true -> exists a, Statistics.mean xs = Ok a.
Proof. destruct xs; [discriminate |]. intros _. cbn. eauto. Qed.

Lemma nonempty_nil {A} (xs : list A) : nonempty xs = false <-> xs = [].
Proof. destruct xs; cbn; split; intros H; congruence. Qed.

Lemma below_le (x : Q) (n m : Z) : n <= m -> below x n = true -> below x m = true.
Proof.
  unfold below. intros Hnm Hn.
  destruct (Qle_bool (inject_Z m) x) eqn:Em; [| reflexivity].
  apply Qle_bool_iff in Em.
  assert (Hle : Qle (inject_Z n) x).
  { eapply Qle_trans; [| exact Em]. unfold Qle. cbn. lia. }
  apply Qle_bool_iff in Hle. rewrite Hle in Hn. discriminate.
Qed.

Lemma at_least_le (x : Q) (n m : Z) :
  n <= m -> Qle_bool (inject_Z m) x = true -> Qle_bool (inject_Z n) x = true.
Proof.
  intros Hnm Hm. apply Qle_bool_iff in Hm. apply Qle_bool_iff.
  eapply Qle_trans; [| exact Hm]. unfold Qle. cbn. lia.
Qed.

Lemma time_statistics_nonempty (xs : list Q) :
  nonempty xs = true -> exists t, time_statistics xs = Ok t.
Proof.
  intros Hne.
  destruct (timing_nonempty xs) as [t Ht]; [destruct xs; [discriminate | discriminate] |].
  unfold BatchGenerator.timing in Ht. unfold time_statistics.
  destruct (Statistics.mean xs); [| discriminate]. cbn [rbind] in *.
  destruct (Statistics.median xs); [| discriminate]. cbn [rbind] in *.
  destruct (Statistics.minimum xs); [| discriminate]. cbn [rbind] in *.
  destruct (Statistics.maximum xs); [| discriminate]. cbn [rbind] in *.
  eauto.
Qed.

Lemma assess_performance_returns (r : Results) :
  exists a, assess_performance r = Ok a.
Proof.
  unfold assess_performance.
  destruct (nonempty (generation_times r)) eqn:Ene.
  - destruct (mean_nonempty _ Ene) as [avg ->]. cbn. eauto.
  - cbn. eauto.
Qed.

End BenchmarkFacts.

(** X16.  [assess_performance] raises nothing, and its overall verdict
    agrees with the grades it prints: it grades exactly when there are
    generation times, and it says "ready for production" exactly when both
    the speed and the success rate are graded excellent or good. *)
Theorem assessment_agrees_with_grades (r : PerformanceBenchmark.Results) :
  exists a,
    PerformanceBenchmark.assess_performance r = Ok a
    /\ (PerformanceBenchmark.grades a = None
        <-> PerformanceBenchmark.generation_times r = [])
    /\ (PerformanceBenchmark.ready_for_production a = true
        <-> exists speed rate,
              PerformanceBenchmark.grades a = Some (speed, rate)
              /\ (speed = PerformanceBenchmark.Excellent
                  \/ speed = PerformanceBenchmark.Good)
              /\ (rate = PerformanceBenchmark.Excellent
                  \/ rate = PerformanceBenchmark.Good)).
Proof.
  unfold PerformanceBenchmark.assess_performance.
  destruct (PerformanceBenchmark.nonempty (PerformanceBenchmark.generation_times r)) eqn:Ene.
  - destruct (mean_nonempty _ Ene) as [avg Havg]. rewrite Havg. cbn [rbind].
    eexists. split; [reflexivity |]. cbn [PerformanceBenchmark.grades
      PerformanceBenchmark.ready_for_production].
    split.
    { split; [discriminate |]. intros Hnil. rewrite Hnil in Ene. discriminate. }
    destruct (PerformanceBenchmark.below avg 5) eqn:E5;
      destruct (Qle_bool (inject_Z 90) (PerformanceBenchmark.success_rate r)) eqn:E90;
      cbn [andb]; (split; [intros Hready; try discriminate | intros (speed & rate & Hg & Hs & Hr)]).
    + destruct (PerformanceBenchmark.below avg 3);
        destruct (Qle_bool (inject_Z 95) (PerformanceBenchmark.success_rate r));
        eexists _, _; split; try reflexivity; auto.
    + reflexivity.
    + exfalso. inversion Hg; subst.
      destruct (Qle_bool (inject_Z 95) (PerformanceBenchmark.success_rate r)) eqn:E95.
      * apply (at_least_le _ 90 95) in E95; [congruence | lia].
      * destruct (Qle_bool (inject_Z 80) (PerformanceBenchmark.success_rate r));
          destruct Hr; discriminate.
    + exfalso. inversion Hg; subst.
      destruct (PerformanceBenchmark.below avg 3) eqn:E3.
      * apply (below_le _ 3 5) in E3; [congruence | lia].
      * destruct (PerformanceBenchmark.below avg 8); destruct Hs; discriminate.
    + exfalso. inversion Hg; subst.
      destruct (PerformanceBenchmark.below avg 3) eqn:E3.
      * apply (below_le _ 3 5) in E3; [congruence | lia].
      * destruct (PerformanceBenchmark.below avg 8); destruct Hs; discriminate.
  - cbn [rbind]. eexists. split; [reflexivity |]. cbn. split.
    + split; [intros _; now apply nonempty_nil | reflexivity].
    + split; [discriminate | intros (speed & rate & Hg & _); discriminate].
Qed.

(** X17.  [calculate_statistics] raises nothing, whatever the results hold.
    With at least one request it sets the success rate to the share of the
    requests that did not fail, in percent; with none it leaves the rate as
    it was.  Each block of statistics is printed exactly when its list of
    measurements is not empty. *)
Theorem calculate_statistics_returns (r : PerformanceBenchmark.Results) :
  exists report,
    PerformanceBenchmark.calculate_statistics r = Ok report
    /\ PerformanceBenchmark.generation_times (PerformanceBenchmark.after report)
       = PerformanceBenchmark.generation_times r
    /\ PerformanceBenchmark.total_requests (PerformanceBenchmark.after report)
       = PerformanceBenchmark.total_requests r
    /\ PerformanceBenchmark.failed_requests (PerformanceBenchmark.after report)
       = PerformanceBenchmark.failed_requests r
    /\ PerformanceBenchmark.success_rate (PerformanceBenchmark.after report)
       = (if 0 <? PerformanceBenchmark.total_requests r
          then Qmult (Qdiv (inject_Z (PerformanceBenchmark.total_requests r
                                      - PerformanceBenchmark.failed_requests r))
                           (inject_Z (PerformanceBenchmark.total_requests r)))
                     (inject_Z 100)
          else PerformanceBenchmark.success_rate r)
    /\ (0 <= PerformanceBenchmark.failed_requests r <= PerformanceBenchmark.total_requests r ->
        0 < PerformanceBenchmark.total_requests r ->
        Qle (inject_Z 0)
            (PerformanceBenchmark.success_rate (PerformanceBenchmark.after report))
        /\ Qle (PerformanceBenchmark.success_rate (PerformanceBenchmark.after report))
               (inject_Z 100))
    /\ (PerformanceBenchmark.times report = None
        <-> PerformanceBenchmark.generation_times r = [])
    /\ (PerformanceBenchmark.memory report = None
        <-> PerformanceBenchmark.memory_usage r = [])
    /\ (PerformanceBenchmark.gpu report = None
        <-> PerformanceBenchmark.gpu_usage r = []).
Proof.
  unfold PerformanceBenchmark.calculate_statistics.
  set (rate := if 0 <? PerformanceBenchmark.total_requests r
               then Qmult (Qdiv (inject_Z (PerformanceBenchmark.total_requests r
                                            - PerformanceBenchmark.failed_requests r))
                                (inject_Z (PerformanceBenchmark.total_requests r)))
                          (inject_Z 100)
               else PerformanceBenchmark.success_rate r).
  assert (Hrate : (if 0 <? PerformanceBenchmark.total_requests r
                   then rbind (Statistics.truediv
                                 (inject_Z (PerformanceBenchmark.total_requests r
                                            - PerformanceBenchmark.failed_requests r))
                                 (inject_Z (PerformanceBenchmark.total_requests r)))
                          (fun ratio => Ok (Qmult ratio (inject_Z 100)))
                   else Ok (PerformanceBenchmark.success_rate r)) = Ok rate).
  { unfold rate. destruct (Z.ltb_spec 0 (PerformanceBenchmark.total_requests r));
      [| reflexivity]. now rewrite truediv_nonzero by lia. }
  rewrite Hrate. cbn [rbind PerformanceBenchmark.generation_times
    PerformanceBenchmark.memory_usage PerformanceBenchmark.gpu_usage].
  match goal with |- context [PerformanceBenchmark.assess_performance ?r'] =>
    destruct (assess_performance_returns r') as [a Ha] end.
  rewrite Ha.
  assert (Hblock : forall (A : Type) (f : list Q -> res A) (xs : list Q),
             (PerformanceBenchmark.nonempty xs = true -> exists u, f xs = Ok u) ->
             exists o, (if PerformanceBenchmark.nonempty xs
                        then rbind (f xs) (fun u => Ok (Some u))
                        else Ok None) = Ok o
                       /\ (o = None <-> xs = [])).
  { intros A f xs Hf. destruct (PerformanceBenchmark.nonempty xs) eqn:E.
    - destruct (Hf eq_refl) as [u ->]. cbn. exists (Some u). split; [reflexivity |].
      split; [discriminate |]. intros ->. discriminate.
    - exists None. split; [reflexivity |]. split; [intros _; now apply nonempty_nil | auto]. }
  destruct (Hblock _ PerformanceBenchmark.time_statistics
              (PerformanceBenchmark.generation_times r) (time_statistics_nonempty _))
    as (t & -> & Ht).
  destruct (Hblock _ PerformanceBenchmark.usage
              (PerformanceBenchmark.memory_usage r) (usage_nonempty _))
    as (m & -> & Hm).
  destruct (Hblock _ PerformanceBenchmark.usage
              (PerformanceBenchmark.gpu_usage r) (usage_nonempty _))
    as (u & -> & Hu).
  cbn [rbind]. eexists. split; [reflexivity |]. cbn.
  repeat split; try tauto.
  all: intros; unfold rate;
       replace (0 <? PerformanceBenchmark.total_requests r) with true
         by (symmetry; apply Z.ltb_lt; lia);
       apply percent_range; lia.
Qed.

(** ** [generate_image] in [quick_start.py] *)

Section QuickOutcomes.
Import QwenImageGenerator.
Variable timeout : Z.
Variable net : script.

Lemma quick_poll_once_returns id start_time w c w' :
  poll_once net id start_time w = (c, w') ->
  forall e, c = Raised e -> is_RequestException e = false.
Proof.
  intros H. unfold poll_once, catch, get, bind, lift, ret, raise, time_time in H.
  run H.
  all: finish H.
  all: intros e' He; try discriminate.
  all: inversion He; subst; first [reflexivity | assumption].
Qed.

Lemma quick_poll_returns fuel id start_time : forall w r w',
  poll timeout net fuel id start_time w = (r, w') ->
  forall e, r = Raised e -> is_RequestException e = false.
Proof.
  induction fuel as [| fuel IH]; intros w r w' H.
  - cbn in H. finish H. discriminate.
  - cbn [poll] in H. unfold bind, time_time in H.
    destruct (now w - start_time <? timeout * 1000); [| finish H; discriminate].
    destruct (poll_once net id start_time w) as [c w1] eqn:E.
    pose proof (quick_poll_once_returns _ _ _ _ _ E) as Hraise.
    destruct c as [[| | result] | e |].
    + exact (IH _ _ _ H).
    + finish H. discriminate.
    + finish H. discriminate.
    + finish H. intros e' He. inversion He; subst. auto.
    + finish H. discriminate.
Qed.

Lemma quick_wait_returns id w r w' :
  wait_for_completion timeout net id w = (r, w') ->
  forall e, r = Raised e -> is_RequestException e = false.
Proof.
  unfold wait_for_completion, bind, time_time. apply quick_poll_returns.
Qed.

Opaque wait_for_completion set_path.

Lemma quick_generate_image_inv file prompt seed w r w' :
  generate_image timeout net file prompt seed w = (r, w') ->
  r <> Diverge
  /\ (forall e, r = Raised e -> is_RequestException e = false)
  /\ (r = Return None -> gets (trace w') = gets (trace w)
                         /\ (posts (trace w') <= S (posts (trace w)))%nat)
  /\ (forall result, r = Return (Some result) ->
        posts (trace w') = S (posts (trace w))
        /\ (success result = true
            \/ exists id, result = timed_out timeout id)).
Proof.
  unfold generate_image. intros H.
  destruct (load_workflow file) as [workflow |];
    [| finish H; repeat split; try discriminate; lia].
  destruct (truthy workflow); cbn [negb] in H;
    [| finish H; repeat split; try discriminate; lia].
  unfold bind, catch, post, lift, ret, raise in H.
  run H.
  all: try match goal with
       | E : wait_for_completion _ _ _ _ = (_, _) |- _ =>
           pose proof (quick_wait_returns _ _ _ _ E) as Hraise;
           apply quick_wait_for_completion_inv in E; cbn in E;
           destruct E as (tr & Ht & Hp & _ & Hd & Hres & _)
       end.
  all: finish H.
  all: try match goal with
       | Hraise : forall e, Raised ?x = Raised e -> _, Hb : is_RequestException ?x = true |- _ =>
           rewrite (Hraise x eq_refl) in Hb; discriminate
       end.
  all: try (now contradiction Hd).
  all: refine (conj _ (conj _ (conj _ _)));
       [ try discriminate
       | intros e' He; try discriminate; inversion He; subst
       | intros Hnone; try discriminate; count; try (split; lia)
       | intros result Hr; try discriminate ].
  all: try (first [ assumption
                  | eapply local_set_path; eassumption
                  | eapply local_getitem; eassumption
                  | eapply Hraise; reflexivity
                  | reflexivity ]).
  all: try (now contradiction Hd).
  all: try (exfalso; eapply (Hraise _ eq_refl); fail).
  all: try (inversion Hr; subst; split; [rewrite Ht; count; lia |];
            destruct (Hres _ eq_refl) as [Hok | [Hto _]]; [now left | right; eauto]).
Qed.

Transparent wait_for_completion set_path.

End QuickOutcomes.

(** X18.  [generate_image] of [quick_start.py] always ends, makes one
    submission at most and never a second one, and lets no transport error
    out.  It returns [None] without a single poll (the workflow did not
    load, the status was not 200, the answer was lost or was not JSON); a
    result it returns comes after exactly one submission and is a success or
    the timeout result. *)
Theorem quick_generate_image_outcomes
    (timeout : Z) (net : script) (file : option json) (prompt : string)
    (seed : option Z) (w : world)
    (r : outcome (option QwenImageGenerator.Result)) (w' : world) :
  QwenImageGenerator.generate_image timeout net file prompt seed w = (r, w') ->
  r <> Diverge
  /\ (forall e, r = Raised e -> is_RequestException e = false)
  /\ (r = Return None ->
      gets (trace w') = gets (trace w)
      /\ (posts (trace w') <= S (posts (trace w)))%nat)
  /\ (forall result, r = Return (Some result) ->
        posts (trace w') = S (posts (trace w))
        /\ (QwenImageGenerator.success result = true
            \/ exists id, result = QwenImageGenerator.timed_out timeout id)).
Proof. apply quick_generate_image_inv. Qed.

Lemma quick_generate_image_outcomes_witness :
  exists result w',
    QwenImageGenerator.generate_image 60 (smooth "abc" "out.png") (Some sample_workflow)
      "A serene mountain landscape" (Some 43) dawn = (Return (Some result), w')
    /\ posts (trace w') = 1%nat
    /\ fst (QwenImageGenerator.generate_image 60 (always 500) (Some sample_workflow)
              "A serene mountain landscape" (Some 43) dawn) = Return None.
Proof.
  assert (E : exists result w',
             QwenImageGenerator.generate_image 60 (smooth "abc" "out.png")
               (Some sample_workflow) "A serene mountain landscape" (Some 43) dawn
             = (Return (Some result), w')).
  { vm_compute. eexists. eexists. reflexivity. }
  destruct E as (result & w' & E). exists result, w'. split; [exact E |].
  destruct (quick_generate_image_outcomes _ _ _ _ _ _ _ _ E) as (_ & _ & _ & Hres).
  destruct (Hres result eq_refl) as [Hp _]. split; [exact Hp | reflexivity].
Defined.

(** The request with another seed. *)
Definition with_seed (s : option Z) (request : QwenImageAPI.GenerationRequest)
  : QwenImageAPI.GenerationRequest :=
  {| QwenImageAPI.prompt := QwenImageAPI.prompt request;
     QwenImageAPI.seed := s;
     QwenImageAPI.width := QwenImageAPI.width request;
     QwenImageAPI.height := QwenImageAPI.height request;
     QwenImageAPI.steps := QwenImageAPI.steps request;
     QwenImageAPI.cfg_scale := QwenImageAPI.cfg_scale request;
     QwenImageAPI.batch_size := QwenImageAPI.batch_size request |}.

(** X19.  A seed of zero cannot be asked for: every client treats it as no
    seed.  [generate_single] and the [generate_image] of [quick_start.py]
    run exactly as without a seed (the workflow keeps the seed of the file;
    the result dict of the batch still records the 0), and
    [prepare_workflow] stores the seed it takes from the clock. *)
Theorem seed_zero_is_no_seed
    (config : BatchGenerator.BatchConfig) (env : BatchGenerator.job) (text : string)
    (job_index : nat) (timeout : Z) (net : script) (file : option json) (w : world)
    (h : Store.heap) (base_workflow : Store.pyval)
    (request : QwenImageAPI.GenerationRequest) (clock : Z) :
  BatchGenerator.generate_single config env (text, Some 0) job_index w
  = reseed (Some 0) (BatchGenerator.generate_single config env (text, None) job_index w)
  /\ QwenImageGenerator.generate_image timeout net file text (Some 0) w
     = QwenImageGenerator.generate_image timeout net file text None w
  /\ QwenImageAPI.prepare_workflow h base_workflow (with_seed (Some 0) request) clock
     = QwenImageAPI.prepare_workflow h base_workflow (with_seed None request) clock
  /\ QwenImageAPI.seed_of (with_seed (Some 0) request) clock = clock mod 2 ^ 32.
Proof.
  split; [apply generate_single_reseed |]. split; [reflexivity |].
  split; reflexivity.
Qed.

(** ** [get_image_info] *)

Section ImageInfo.
Import QwenImageGenerator.
Variable path_exists : json -> res bool.
Variable repr : json -> string.

(** The path chosen among [paths]: the first that exists, or none when none
    does. *)
Definition chosen (paths : list json) (p : option json) : Prop :=
  match p with
  | Some q =>
      exists before after,
        paths = before ++ q :: after
        /\ path_exists q = Ok true
        /\ Forall (fun x => path_exists x = Ok false) before
  | None => Forall (fun x => path_exists x = Ok false) paths
  end.

Lemma first_existing_chosen paths p :
  first_existing path_exists paths = Ok p -> chosen paths p.
Proof.
  revert p. induction paths as [| q rest IH]; intros p H; cbn in H.
  - inversion H. constructor.
  - destruct (path_exists q) as [[|] |] eqn:E; cbn [rbind] in H; [| | discriminate].
    + inversion H; subst. exists [], rest. repeat split; auto.
    + specialize (IH p H). destruct p as [q' |]; cbn in *.
      * destruct IH as (before & after & -> & Hq & Hb).
        exists (q :: before), after. repeat split; auto.
      * constructor; auto.
Qed.

(** An entry of the list, for the image it was made from. *)
Definition entry_of (image_info : json) (entry : ImageInfo) : Prop :=
  getitem image_info (JStr "filename") = Ok (filename entry)
  /\ chosen (possible_paths repr (filename entry)) (path entry)
  /\ get_default image_info "size" (JObj []) = Ok (size entry)
  /\ get_default image_info "subfolder" (JStr EmptyString) = Ok (subfolder entry)
  /\ get_default image_info "type" (JStr "output") = Ok (type entry).

Lemma image_entry_of image_info entry :
  image_entry path_exists repr image_info = Ok entry -> entry_of image_info entry.
Proof.
  unfold image_entry, entry_of. intros H.
  destruct (getitem image_info (JStr "filename")) as [name |]; [| discriminate].
  cbn [rbind] in H.
  destruct (first_existing path_exists (possible_paths repr name)) as [p |] eqn:Ep;
    [| discriminate].
  cbn [rbind] in H.
  destruct (get_default image_info "size" (JObj [])) as [s |]; [| discriminate].
  cbn [rbind] in H.
  destruct (get_default image_info "subfolder" (JStr EmptyString)) as [f |]; [| discriminate].
  cbn [rbind] in H.
  destruct (get_default image_info "type" (JStr "output")) as [t |]; [| discriminate].
  cbn [rbind] in H. inversion H; subst. cbn. repeat split.
  now apply first_existing_chosen.
Qed.

Lemma image_entries_of images : forall entries,
  image_entries path_exists repr images = Ok entries -> Forall2 entry_of images entries.
Proof.
  induction images as [| image_info rest IH]; intros entries H; cbn in H.
  - inversion H. constructor.
  - destruct (image_entry path_exists repr image_info) as [entry |] eqn:E; [| discriminate].
    cbn [rbind] in H.
    destruct (image_entries path_exists repr rest) as [more |]; [| discriminate].
    cbn [rbind] in H. inversion H; subst.
    constructor; [now apply image_entry_of | now apply IH].
Qed.

(** An image the loop accepts: a dict whose file name is a string. *)
Definition named (image_info : json) : Prop :=
  exists kvs name, image_info = JObj kvs /\ assoc "filename" kvs = Some (JStr name).

(** [os.path.exists] answers for every string. *)
Definition answers : Prop := forall s, exists found, path_exists (JStr s) = Ok found.

Lemma first_existing_answers paths :
  answers -> Forall (fun p => exists s, p = JStr s) paths ->
  exists p, first_existing path_exists paths = Ok p.
Proof.
  intros Ha. induction 1 as [| q rest [s ->] _ [p IH]]; cbn; [eauto |].
  destruct (Ha s) as [[|] ->]; cbn; eauto.
Qed.

Lemma image_entries_named images :
  answers -> Forall named images ->
  exists entries, image_entries path_exists repr images = Ok entries.
Proof.
  intros Ha.
  induction 1 as [| image_info rest (kvs & name & -> & Hname) _ [entries IH]]; cbn.
  - eauto.
  - destruct (first_existing_answers (possible_paths repr (JStr name)) Ha) as [p Hp].
    { unfold possible_paths. cbn. repeat constructor; eauto. }
    assert (Hentry : exists entry, image_entry path_exists repr (JObj kvs) = Ok entry).
    { unfold image_entry. cbn [getitem hashable]. rewrite Hname. cbn [rbind].
      rewrite Hp. cbn. eauto. }
    destruct Hentry as [entry ->]. cbn [rbind]. rewrite IH. cbn. eauto.
Qed.

End ImageInfo.

(** X20.  [get_image_info] gives [None] for no result and for a result that
    is no success.  For a success it lists the images in their order, one
    entry for each: the entry has the file name of the image, the defaults
    for the keys the image lacks, and as path the first of the four places
    that exists, or [None] when none does.  It raises nothing when every
    image is a dict whose file name is a string ([os.path.exists] answers
    for every string). *)
Theorem get_image_info_lists_images
    (path_exists : json -> res bool) (repr : json -> string)
    (result : QwenImageGenerator.Result) :
  QwenImageGenerator.get_image_info path_exists repr None = Ok None
  /\ (QwenImageGenerator.success result = false ->
      QwenImageGenerator.get_image_info path_exists repr (Some result) = Ok None)
  /\ (forall info,
        QwenImageGenerator.get_image_info path_exists repr (Some result) = Ok (Some info) ->
        QwenImageGenerator.success result = true
        /\ QwenImageGenerator.info_prompt_id info = QwenImageGenerator.prompt_id result
        /\ QwenImageGenerator.info_generation_time info
           = QwenImageGenerator.generation_time result
        /\ exists found images,
             QwenImageGenerator.images result = Some found
             /\ iterate found = Ok images
             /\ Forall2 (entry_of path_exists repr) images
                        (QwenImageGenerator.info_images info))
  /\ (forall images,
        QwenImageGenerator.success result = true ->
        QwenImageGenerator.images result = Some (JList images) ->
        Forall named images ->
        answers path_exists ->
        exists info,
          QwenImageGenerator.get_image_info path_exists repr (Some result) = Ok (Some info)
          /\ length (QwenImageGenerator.info_images info) = length images).
Proof.
  split; [reflexivity |]. split; [| split].
  - intros Hs. unfold QwenImageGenerator.get_image_info. now rewrite Hs.
  - intros info H. unfold QwenImageGenerator.get_image_info in H.
    destruct (QwenImageGenerator.success result); cbn [negb] in H; [| discriminate].
    destruct (QwenImageGenerator.images result) as [found |]; [| discriminate].
    destruct (iterate found) as [images |] eqn:Ei; [| discriminate]. cbn [rbind] in H.
    destruct (QwenImageGenerator.image_entries path_exists repr images) as [entries |] eqn:Ee;
      [| discriminate].
    cbn [rbind] in H. inversion H; subst. cbn.
    repeat split. exists found, images. repeat split; auto.
    now apply image_entries_of.
  - intros images Hs Hi Hnamed Ha. unfold QwenImageGenerator.get_image_info.
    rewrite Hs, Hi. cbn [negb iterate rbind].
    destruct (image_entries_named path_exists repr images Ha Hnamed) as [entries He].
    pose proof (image_entries_of _ _ _ _ He) as H2.
    rewrite He. cbn [rbind]. eexists. split; [reflexivity |]. cbn.
    symmetry. eapply Forall2_length; eauto.
Qed.

(** ** [load_prompts] *)

Import Ascii.

Section PromptLines.
Import BatchGenerator.
Variable max_str_digits : nat.

Lemma parse_lines_from lines : forall prompts,
  parse_lines max_str_digits lines prompts
  = rbind (parse_lines max_str_digits lines []) (fun more => Ok (prompts ++ more)).
Proof.
  induction lines as [| line rest IH]; intros prompts; cbn.
  - now rewrite app_nil_r.
  - destruct (parse_line max_str_digits line) as [[entry |] | e]; cbn; auto.
    rewrite IH. rewrite (IH [entry]).
    destruct (parse_lines max_str_digits rest []) as [more | e]; cbn; [| reflexivity].
    now rewrite <- app_assoc.
Qed.

Lemma parse_lines_cons line rest :
  parse_lines max_str_digits (line :: rest) []
  = rbind (parse_line max_str_digits line) (fun parsed =>
    rbind (parse_lines max_str_digits rest []) (fun more =>
    Ok (match parsed with Some entry => entry :: more | None => more end))).
Proof.
  cbn. destruct (parse_line max_str_digits line) as [[entry |] | e]; cbn; auto.
  - now rewrite parse_lines_from.
  - now destruct (parse_lines max_str_digits rest []).
Qed.

Lemma parse_lines_app first rest :
  parse_lines max_str_digits (first ++ rest) []
  = rbind (parse_lines max_str_digits first []) (fun a =>
    rbind (parse_lines max_str_digits rest []) (fun b => Ok (a ++ b))).
Proof.
  induction first as [| line first IH].
  - cbn. now destruct (parse_lines max_str_digits rest []).
  - rewrite <- app_comm_cons, !parse_lines_cons, IH.
    destruct (parse_line max_str_digits line) as [parsed | e]; cbn; [| reflexivity].
    destruct (parse_lines max_str_digits first []) as [a | e]; cbn; [| reflexivity].
    destruct (parse_lines max_str_digits rest []) as [b | e]; cbn; [| reflexivity].
    now destruct parsed.
Qed.

Lemma parse_lines_length lines : forall prompts,
  parse_lines max_str_digits lines [] = Ok prompts ->
  (length prompts <= length lines)%nat.
Proof.
  induction lines as [| line rest IH]; intros prompts H.
  - inversion H. cbn. lia.
  - rewrite parse_lines_cons in H.
    destruct (parse_line max_str_digits line) as [parsed | e]; [| discriminate].
    cbn [rbind] in H.
    destruct (parse_lines max_str_digits rest []) as [more | e]; [| discriminate].
    cbn [rbind] in H. inversion H; subst. specialize (IH more eq_refl).
    destruct parsed; cbn; lia.
Qed.

(** A line that gives no prompt: empty but for whitespace, or a comment. *)
Definition skipped (line : string) : Prop :=
  Text.strip line = EmptyString \/ Text.startswith "#" (Text.strip line) = true.

Lemma parse_line_skipped line : skipped line -> parse_line max_str_digits line = Ok None.
Proof.
  unfold parse_line. intros [-> | ->]; [reflexivity |].
  now rewrite andb_false_r.
Qed.

End PromptLines.

Section TextFacts.
Import Ascii.

(** The characters of a string. *)
Definition chars_of (s : string) : list ascii := list_ascii_of_string s.

(** A string that does not begin with whitespace. *)
Definition leading (s : string) : bool :=
  match s with
  | String c _ => Text.isspace c
  | EmptyString => false
  end.

Lemma lstrip_leading s : leading (Text.lstrip s) = false.
Proof.
  induction s as [| c s IH]; cbn; [reflexivity |].
  destruct (Text.isspace c) eqn:E; [exact IH | cbn; exact E].
Qed.

Lemma lstrip_noop s : leading s = false -> Text.lstrip s = s.
Proof. destruct s as [| c s]; cbn; [reflexivity |]. now intros ->. Qed.

Lemma rstrip_leading s : leading s = false -> leading (Text.rstrip s) = false.
Proof.
  destruct s as [| c s]; cbn; [reflexivity |]. intros Hc.
  destruct (Text.rstrip s); cbn; [now rewrite Hc | exact Hc].
Qed.

Lemma rstrip_idem s : Text.rstrip (Text.rstrip s) = Text.rstrip s.
Proof.
  induction s as [| c s IH]; cbn; [reflexivity |].
  destruct (Text.rstrip s) as [| k kept] eqn:E.
  - destruct (Text.isspace c) eqn:Ec; cbn; [reflexivity | now rewrite Ec].
  - cbn [Text.rstrip] in *. now rewrite IH.
Qed.

Lemma strip_idem s : Text.strip (Text.strip s) = Text.strip s.
Proof.
  unfold Text.strip.
  rewrite (lstrip_noop (Text.rstrip (Text.lstrip s)))
    by apply rstrip_leading, lstrip_leading.
  apply rstrip_idem.
Qed.

Lemma lstrip_chars s c : In c (chars_of (Text.lstrip s)) -> In c (chars_of s).
Proof.
  induction s as [| a s IH]; cbn; [auto |].
  destruct (Text.isspace a); cbn; auto.
Qed.

Lemma rstrip_chars s c : In c (chars_of (Text.rstrip s)) -> In c (chars_of s).
Proof.
  revert c. induction s as [| a s IH]; intros c; cbn; [auto |].
  destruct (Text.rstrip s) as [| k kept].
  - destruct (Text.isspace a); cbn; tauto.
  - cbn. intros [-> | H]; [now left | right; apply IH; exact H].
Qed.

Lemma strip_chars s c : In c (chars_of (Text.strip s)) -> In c (chars_of s).
Proof. unfold Text.strip. intros H. now apply lstrip_chars, rstrip_chars. Qed.

Lemma split_nonempty sep s : Text.split sep s <> [].
Proof.
  destruct s as [| c s]; cbn; [discriminate |].
  destruct (Ascii.eqb c sep); [discriminate |].
  destruct (Text.split sep s); discriminate.
Qed.

Lemma split_first sep s : forall first others,
  Text.split sep s = first :: others -> ~ In sep (chars_of first).
Proof.
  induction s as [| c s IH]; intros first others H; cbn in H.
  - inversion H; subst. cbn. tauto.
  - destruct (Ascii.eqb c sep) eqn:E.
    + inversion H; subst. cbn. tauto.
    + destruct (Text.split sep s) as [| part parts] eqn:Es.
      * now contradiction (split_nonempty sep s).
      * inversion H; subst. cbn. intros [-> | Hin].
        -- now rewrite Ascii.eqb_refl in E.
        -- now apply (IH _ _ eq_refl).
Qed.

Lemma split_parts sep s part :
  In part (Text.split sep s) -> forall c, In c (chars_of part) -> In c (chars_of s).
Proof.
  revert part. induction s as [| a s IH]; intros part H c Hc; cbn in H.
  - destruct H as [<- | []]. exact Hc.
  - destruct (Ascii.eqb a sep).
    + destruct H as [<- | H]; [destruct Hc | right; eapply IH; eauto].
    + destruct (Text.split sep s) as [| p parts] eqn:Es.
      * now contradiction (split_nonempty sep s).
      * destruct H as [<- | H].
        -- cbn in Hc. destruct Hc as [-> | Hc]; [now left | right].
           eapply (IH p); [now left | exact Hc].
        -- right. eapply (IH part); [now right | exact Hc].
Qed.

End TextFacts.

Section PromptEntries.
Import BatchGenerator Ascii.
Variable max_str_digits : nat.

Lemma split_without sep s : ~ In sep (chars_of s) -> Text.split sep s = [s].
Proof.
  induction s as [| c s IH]; cbn; [reflexivity |]. intros H.
  destruct (Ascii.eqb c sep) eqn:E.
  - apply Ascii.eqb_eq in E. subst. contradiction H. now left.
  - rewrite IH by tauto. reflexivity.
Qed.

Lemma split_with sep s :
  In sep (chars_of s) -> exists a b rest, Text.split sep s = a :: b :: rest.
Proof.
  induction s as [| c s IH]; cbn; [tauto |]. intros H.
  destruct (Ascii.eqb c sep) eqn:E.
  - destruct (Text.split sep s) as [| b rest] eqn:Es;
      [now contradiction (split_nonempty sep s) | eauto].
  - destruct H as [-> | H]; [now rewrite Ascii.eqb_refl in E |].
    destruct (IH H) as (a & b & rest & ->). eauto.
Qed.

Lemma parse_line_entry line prompt seed :
  parse_line max_str_digits line = Ok (Some (prompt, seed)) ->
  ~ skipped line
  /\ Text.strip prompt = prompt
  /\ ~ In "|"%char (chars_of prompt)
  /\ (forall c, In c (chars_of prompt) -> In c (chars_of line))
  /\ (seed = None <-> ~ In "|"%char (chars_of (Text.strip line))).
Proof.
  unfold parse_line, skipped. intros H.
  destruct (String.eqb (Text.strip line) EmptyString) eqn:Ee; [discriminate |].
  destruct (Text.startswith "#" (Text.strip line)) eqn:Eh; [discriminate |].
  cbn [negb andb] in H. apply String.eqb_neq in Ee.
  destruct (Text.split "|" (Text.strip line)) as [| first others] eqn:Es; [discriminate |].
  pose proof (split_first _ _ _ _ Es) as Hfirst.
  assert (Hin : forall c, In c (chars_of (Text.strip first)) -> In c (chars_of line)).
  { intros c Hc. apply strip_chars. eapply split_parts; [rewrite Es; now left |].
    now apply strip_chars. }
  assert (Hbar : ~ In "|"%char (chars_of (Text.strip first))).
  { intros Hc. apply Hfirst. now apply strip_chars. }
  split; [intros [Hs | Hs]; congruence |].
  destruct others as [| second others].
  - inversion H; subst. split; [apply strip_idem |]. split; [exact Hbar |].
    split; [exact Hin |]. split; [intros _ | reflexivity].
    intros Hc. apply split_with in Hc. destruct Hc as (a & b & rest & Hc). congruence.
  - destruct (Text.int max_str_digits (Text.strip second)) as [n | e]; [| discriminate].
    inversion H; subst. split; [apply strip_idem |]. split; [exact Hbar |].
    split; [exact Hin |]. split; [discriminate |].
    intros Hc. apply split_without in Hc. congruence.
Qed.

Lemma parse_lines_entries lines : forall prompts entry,
  parse_lines max_str_digits lines [] = Ok prompts ->
  In entry prompts ->
  exists line, In line lines /\ parse_line max_str_digits line = Ok (Some entry).
Proof.
  induction lines as [| line rest IH]; intros prompts entry H Hin.
  - inversion H; subst. destruct Hin.
  - rewrite parse_lines_cons in H.
    destruct (parse_line max_str_digits line) as [parsed | e] eqn:E; [| discriminate].
    cbn [rbind] in H.
    destruct (parse_lines max_str_digits rest []) as [more | e]; [| discriminate].
    cbn [rbind] in H. inversion H; subst.
    destruct parsed as [first |].
    + destruct Hin as [<- | Hin].
      * exists line. split; [now left | exact E].
      * destruct (IH more entry eq_refl Hin) as (l & Hl & Hp). exists l. split; [now right | exact Hp].
    + destruct (IH more entry eq_refl Hin) as (l & Hl & Hp). exists l. split; [now right | exact Hp].
Qed.

End PromptEntries.

(** X21.  One line with a seed that is no integer loses the whole file:
    [load_prompts] returns the empty list, whatever the other lines hold.
    Such a line is one that, stripped, is not empty and is no comment, and
    whose second field is not an integer. *)
Theorem load_prompts_all_or_nothing
    (max_str_digits : nat) (before after : list string) (line first second : string)
    (others : list string) (e : exn) :
  Text.strip line <> EmptyString ->
  Text.startswith "#" (Text.strip line) = false ->
  Text.split "|"%char (Text.strip line) = first :: second :: others ->
  Text.int max_str_digits (Text.strip second) = Raise e ->
  BatchGenerator.load_prompts max_str_digits (Some (before ++ line :: after)) = [].
Proof.
  intros Hne Hc Hs Hint. unfold BatchGenerator.load_prompts.
  rewrite parse_lines_app, parse_lines_cons.
  assert (Hline : BatchGenerator.parse_line max_str_digits line = Raise e).
  { unfold BatchGenerator.parse_line. apply String.eqb_neq in Hne. rewrite Hne, Hc.
    cbn [negb andb].
    rewrite Hs, Hint. reflexivity. }
  rewrite Hline. cbn [rbind].
  now destruct (BatchGenerator.parse_lines max_str_digits before []).
Qed.

Lemma load_prompts_all_or_nothing_witness :
  BatchGenerator.load_prompts 4300
    (Some ["A mountain|1001"; "A city|soon"; "A garden|1003"]) = [].
Proof.
  apply (load_prompts_all_or_nothing 4300 ["A mountain|1001"] ["A garden|1003"]
           "A city|soon" "A city" "soon" [] ValueError).
  - discriminate.
  - reflexivity.
  - reflexivity.
  - reflexivity.
Defined.

(** X22.  Lines that are empty but for whitespace and lines that begin with
    [#] after whitespace do not count: [load_prompts] returns the same for
    the file with and without such a line. *)
Theorem load_prompts_skips_comments
    (max_str_digits : nat) (before after : list string) (line : string) :
  skipped line ->
  BatchGenerator.load_prompts max_str_digits (Some (before ++ line :: after))
  = BatchGenerator.load_prompts max_str_digits (Some (before ++ after)).
Proof.
  intros Hskip. unfold BatchGenerator.load_prompts.
  rewrite !parse_lines_app, parse_lines_cons, parse_line_skipped by exact Hskip.
  cbn [rbind].
  destruct (BatchGenerator.parse_lines max_str_digits before []) as [a | e]; [| reflexivity].
  cbn [rbind].
  now destruct (BatchGenerator.parse_lines max_str_digits after []).
Qed.

Lemma load_prompts_skips_comments_witness :
  BatchGenerator.load_prompts 4300 (Some ["A mountain|1001"; "  # later"; "A garden"])
  = [("A mountain", Some 1001); ("A garden", None)].
Proof.
  pose proof (load_prompts_skips_comments 4300 ["A mountain|1001"] ["A garden"] "  # later")
    as H.
  cbn [app] in H. rewrite H.
  - reflexivity.
  - right. reflexivity.
Defined.

(** X23.  When every line of two lists of lines can be read, the prompts of
    the two lists together are the prompts of the first followed by the
    prompts of the second; and [load_prompts] never returns more prompts
    than the file has lines. *)
Theorem load_prompts_app
    (max_str_digits : nat) (first rest : list string) :
  (Forall (fun line => exists parsed,
             BatchGenerator.parse_line max_str_digits line = Ok parsed) (first ++ rest) ->
   BatchGenerator.load_prompts max_str_digits (Some (first ++ rest))
   = BatchGenerator.load_prompts max_str_digits (Some first)
     ++ BatchGenerator.load_prompts max_str_digits (Some rest))
  /\ (length (BatchGenerator.load_prompts max_str_digits (Some first)) <= length first)%nat.
Proof.
  assert (Hall : forall lines,
             Forall (fun line => exists parsed,
                       BatchGenerator.parse_line max_str_digits line = Ok parsed) lines ->
             exists prompts, BatchGenerator.parse_lines max_str_digits lines [] = Ok prompts).
  { induction 1 as [| line lines [parsed Hp] _ [prompts IH]]; [now exists [] |].
    rewrite parse_lines_cons, Hp, IH. cbn. eauto. }
  split.
  - intros H. apply Forall_app in H. destruct H as [H1 H2].
    destruct (Hall _ H1) as [a Ha]. destruct (Hall _ H2) as [b Hb].
    unfold BatchGenerator.load_prompts. now rewrite parse_lines_app, Ha, Hb.
  - unfold BatchGenerator.load_prompts.
    destruct (BatchGenerator.parse_lines max_str_digits first []) as [a | e] eqn:E.
    + now apply parse_lines_length in E.
    + cbn. lia.
Qed.

(** X24.  Every prompt [load_prompts] returns comes from a line of the file
    that is no comment: the prompt is stripped of whitespace at both ends,
    holds no [|], has its characters from that line, and comes without a
    seed exactly when the line holds no [|]. *)
Theorem load_prompts_entries
    (max_str_digits : nat) (file : option (list string)) (prompt : string)
    (seed : option Z) :
  In (prompt, seed) (BatchGenerator.load_prompts max_str_digits file) ->
  exists lines line,
    file = Some lines
    /\ In line lines
    /\ ~ skipped line
    /\ Text.strip prompt = prompt
    /\ ~ In "|"%char (chars_of prompt)
    /\ (forall c, In c (chars_of prompt) -> In c (chars_of line))
    /\ (seed = None <-> ~ In "|"%char (chars_of (Text.strip line))).
Proof.
  unfold BatchGenerator.load_prompts. intros H.
  destruct file as [lines |]; [| destruct H].
  destruct (BatchGenerator.parse_lines max_str_digits lines []) as [prompts | e] eqn:E;
    [| destruct H].
  destruct (parse_lines_entries _ _ _ _ E H) as (line & Hin & Hline).
  apply parse_line_entry in Hline. exists lines, line. tauto.
Qed.

Lemma load_prompts_entries_witness :
  exists lines line,
    Some ["  A mountain  |1001"; "A garden"] = Some lines
    /\ In line lines
    /\ Text.strip "A mountain" = "A mountain".
Proof.
  destruct (load_prompts_entries 4300 (Some ["  A mountain  |1001"; "A garden"])
              "A mountain" (Some 1001)) as (lines & line & H1 & H2 & _ & H3 & _).
  - left. reflexivity.
  - exists lines, line. auto.
Defined.

(** ** Reading back what was written *)


Section Decimal.
Import Ascii.








End Decimal.

Section ReadBack.
Import Ascii.
Variable max_str_digits : nat.








End ReadBack.

Section Lines.
Import Ascii.












End Lines.




